(** * BIT_Tetris: the game-state core of [main.py]

    A shallow embedding of the classes [Constants], [GameSettings],
    [Tetrimino], [GameState] and of the part of [GameController] that
    drives the game state, followed by the properties of the
    specification that concern them.

    Conventions of the embedding.
    - A Python list is a [list]; indexing follows Python: a negative index
      counts from the end, an index outside the list raises [IndexError],
      which is [None] in the option monad.
    - A method that mutates [self] returns the new [self].
    - An exception that no handler of the program catches ends the run:
      the call that raises it returns [None].  These are the [IndexError]
      of a list access, the [AttributeError] of a sound that
      [_init_sounds] never loaded, the [pygame.error] of a mixer that was
      never initialised, the [OSError] of a file operation and the
      [SystemExit] of the Escape key.
    - The clocks ([pygame.time.get_ticks], [time.time]), the random
      generator and the outcome of the file operations are inputs of the
      operations that read them.  Readings of [get_ticks] are integers;
      readings of [time.time] are binary64 floating-point numbers, and
      their differences are rounded as Python rounds them. *)

From Stdlib Require Import ZArith Lia Bool.
From Stdlib Require Floats.SpecFloat.
From stdpp Require Import base option list.

Open Scope Z_scope.

(** ** Python floats

    A [float] is a binary64 number: [Finite m e] stands for [m * 2^e]
    (a double when [|m| < 2^53] and [-1074 <= e <= 971]), next to the
    two infinities and NaN.  The sign of a zero is not kept: no
    operation of the program can tell the two zeros apart. *)

Inductive float : Type :=
| Finite (m e : Z)
| Infinity (negative : bool)
| NaN.

(** [m / 2^k] rounded to the nearest integer, a tie going to the even
    one. *)
Definition round_half_even (m k : Z) : Z :=
  let q := m / 2 ^ k in
  let r := m mod 2 ^ k in
  let half := 2 ^ (k - 1) in
  if r <? half then q
  else if half <? r then q + 1
  else if Z.even q then q else q + 1.

(** [|m * 2^e|] is beyond the largest double. *)
Definition overflows (m e : Z) : bool :=
  (0 <=? e) && (2 ^ 1024 <=? Z.abs m * 2 ^ e).

(** The double nearest to [m * 2^e]: the mantissa is cut to 53 bits,
    round to nearest, ties to even; a result too large is an infinity.
    (The exact results of the operations below are multiples of the
    smaller of two exponents of doubles, so none is too small to be
    kept.) *)
Definition fround (m e : Z) : float :=
  let k := Z.log2 (Z.abs m) - 52 in
  let '(m', e') := if 0 <? k then (round_half_even m k, e + k) else (m, e) in
  if overflows m' e' then Infinity (m <? 0) else Finite m' e'.

(** [a - b] on floats. *)
Definition fsub (a b : float) : float :=
  match a, b with
  | NaN, _ | _, NaN => NaN
  | Infinity s, Infinity s' => if eqb s s' then NaN else Infinity s
  | Infinity s, Finite _ _ => Infinity s
  | Finite _ _, Infinity s => Infinity (negb s)
  | Finite m1 e1, Finite m2 e2 =>
      let e := Z.min e1 e2 in
      fround (m1 * 2 ^ (e1 - e) - m2 * 2 ^ (e2 - e)) e
  end.

(** [a < z] for a float [a] and an integer [z]: Python compares the two
    values exactly. *)
Definition flt_int (a : float) (z : Z) : bool :=
  match a with
  | NaN => false
  | Infinity s => s
  | Finite m e => if 0 <=? e then m * 2 ^ e <? z else m <? z * 2 ^ (- e)
  end.

(** The float that an integer operand of a float operation is turned
    into; the conversion is exact below [2^53], and the program has no
    larger integer operand. *)
Definition of_int (z : Z) : float := Finite z 0.

(** ** Python lists *)

Section PyList.
Context {A : Type}.

(** The position that [l[i]] addresses, if any. *)
Definition py_index (l : list A) (i : Z) : option nat :=
  let n := Z.of_nat (length l) in
  if (0 <=? i) && (i <? n) then Some (Z.to_nat i)
  else if (i <? 0) && (0 <=? n + i) then Some (Z.to_nat (n + i))
  else None.

(** [l[i]] *)
Definition py_get (l : list A) (i : Z) : option A :=
  k ← py_index l i; l !! k.

(** [l[i] = v] *)
Definition py_set (l : list A) (i : Z) (v : A) : option (list A) :=
  k ← py_index l i; Some (<[k := v]> l).

(** [zip] applied to the unpacked [rows]: the tuples of the i-th
    elements, as long as every row has one; no row at all gives no
    tuple. *)
Fixpoint zip_star (rows : list (list A)) : list (list A) :=
  match rows with
  | [] => []
  | [r] => (λ a, [a]) <$> r
  | r :: rest => zip_with cons r (zip_star rest)
  end.
End PyList.

(** ** class Constants *)

Definition Color : Type := Z * Z * Z.

Module Constants.
Definition WHITE : Color := (255, 255, 255).
Definition BLACK : Color := (0, 0, 0).
Definition RED : Color := (255, 0, 0).
Definition CYAN : Color := (0, 255, 255).
Definition MAGENTA : Color := (255, 0, 255).
Definition BLUE : Color := (0, 0, 255).
Definition GREEN : Color := (0, 255, 0).
Definition YELLOW : Color := (255, 255, 0).

Definition GRID_WIDTH : Z := 10.
Definition GRID_HEIGHT : Z := 20.
Definition SKILL_COOLDOWN : Z := 45.

Definition INITIAL_MOVE_DELAY : Z := 1000.
Definition REPEAT_MOVE_DELAY : Z := 100.
Definition MIN_REPEAT_DELAY : Z := 50.
Definition MAX_REPEAT_DELAY : Z := 300.

Definition SHAPES : list (list (list Z)) :=
  [ [[1; 1; 1; 1]];
    [[1; 1; 1]; [0; 0; 1]];
    [[1; 1; 1]; [1; 0; 0]];
    [[1; 1]; [1; 1]];
    [[1; 1; 0]; [0; 1; 1]];
    [[0; 1; 1]; [1; 1; 0]];
    [[1; 1; 1]; [0; 1; 0]] ].

Definition SHAPE_COLORS : list Color :=
  [CYAN; RED; MAGENTA; WHITE; GREEN; YELLOW; BLUE].
End Constants.

(** ** Grid cells

    A cell of the grid holds the integer [0] or the colour tuple of a
    settled block. *)

Inductive cell : Type :=
| Zero
| Filled (c : Color).

(** Truth value of a cell: [0] is false, a 3-tuple is true. *)
Definition cell_truthy (c : cell) : bool :=
  match c with Zero => false | Filled _ => true end.

(** [cell == 0]: a tuple never equals an integer. *)
Definition cell_eq0 (c : cell) : bool :=
  match c with Zero => true | Filled _ => false end.

(** Truth value of a shape entry (an integer). *)
Definition truthy (v : Z) : bool := negb (v =? 0).

Abbreviation Grid := (list (list cell)).
Abbreviation Shape := (list (list Z)).

(** ** class GameSettings *)

(** The four sound attributes of a settings object; the sound that an
    attribute holds is named after it. *)
Inductive Sound : Type :=
| line_clear_sound
| rotate_sound
| game_over_sound
| special_skill_sound.

Definition Sound_eqb (a b : Sound) : bool :=
  match a, b with
  | line_clear_sound, line_clear_sound
  | rotate_sound, rotate_sound
  | game_over_sound, game_over_sound
  | special_skill_sound, special_skill_sound => true
  | _, _ => false
  end.

Inductive MixerRequest : Type :=
| SoundPlay (s : Sound)
| MusicPlay
| MusicPause.

Module GameSettings.
(** Next to the attributes that [__init__] sets, the record holds what
    [_init_sounds] may or may not have reached: [sounds] are the sound
    attributes that exist, [mixer_ready] tells whether
    [pygame.mixer.init()] returned, [music_loaded] whether the music file
    was loaded.  [mixer] is the list of requests the pygame mixer has
    received, latest first. *)
Record t : Type := mk {
  music_enabled : bool;
  sound_enabled : bool;
  show_help : bool;
  repeat_delay : Z;
  sounds : list Sound;
  mixer_ready : bool;
  music_loaded : bool;
  mixer : list MixerRequest
}.

Definition set_music_enabled (self : t) (v : bool) : t :=
  mk v (sound_enabled self) (show_help self) (repeat_delay self)
     (sounds self) (mixer_ready self) (music_loaded self) (mixer self).

Definition set_sound_enabled (self : t) (v : bool) : t :=
  mk (music_enabled self) v (show_help self) (repeat_delay self)
     (sounds self) (mixer_ready self) (music_loaded self) (mixer self).

Definition to_mixer (self : t) (r : MixerRequest) : t :=
  mk (music_enabled self) (sound_enabled self) (show_help self)
     (repeat_delay self) (sounds self) (mixer_ready self)
     (music_loaded self) (r :: mixer self).

(** The sound attributes in the order in which [_init_sounds] sets
    them. *)
Definition all_sounds : list Sound :=
  [line_clear_sound; rotate_sound; game_over_sound; special_skill_sound].

(** [_init_sounds], given the number [completed] of statements of its
    [try] block that return before one raises: [pygame.mixer.init()],
    the four sounds, [music.load], [music.set_volume], [music.play].  The
    handler disables sound and music; the attributes that were not
    reached are as they were, which in [__init__] is undefined. *)
Definition _init_sounds (self : t) (completed : nat) : t :=
  let self1 :=
    mk (music_enabled self) (sound_enabled self) (show_help self)
       (repeat_delay self) (take (completed - 1) all_sounds ++ sounds self)
       ((1 <=? completed)%nat || mixer_ready self)
       ((6 <=? completed)%nat || music_loaded self) (mixer self) in
  if (7 <=? completed)%nat && negb (music_enabled self) then self1
  else if (8 <=? completed)%nat then to_mixer self1 MusicPlay
  else set_music_enabled (set_sound_enabled self1 false) false.

(** The attribute [sound] of [self] exists. *)
Definition has (self : t) (sound : Sound) : bool :=
  existsb (Sound_eqb sound) (sounds self).

(** [self.<sound>]: the sound object, or [AttributeError]. *)
Definition attr (self : t) (sound : Sound) : option Sound :=
  if has self sound then Some sound else None.

(** [sound.play()] inside [play_sound] is guarded by a handler. *)
Definition play_sound (self : t) (sound : Sound) : t :=
  if sound_enabled self then to_mixer self (SoundPlay sound) else self.

(** [pygame.mixer.music.pause()], which raises [pygame.error] when the
    mixer is not initialised. *)
Definition music_pause (self : t) : option t :=
  if mixer_ready self then Some (to_mixer self MusicPause) else None.

Definition toggle_sound (self : t) : t :=
  set_sound_enabled self (negb (sound_enabled self)).

(** [toggle_music]: [music.play] raises when the mixer is not
    initialised or no music is loaded, and the handler disables the music
    again; [music.pause] is not guarded. *)
Definition toggle_music (self : t) : option t :=
  let self1 := set_music_enabled self (negb (music_enabled self)) in
  if music_enabled self1 then
    if mixer_ready self1 && music_loaded self1
    then Some (to_mixer self1 MusicPlay)
    else Some (set_music_enabled self1 false)
  else music_pause self1.

Definition set_repeat_delay (self : t) (delay : Z) : t :=
  mk (music_enabled self) (sound_enabled self) (show_help self)
     (Z.max Constants.MIN_REPEAT_DELAY (Z.min Constants.MAX_REPEAT_DELAY delay))
     (sounds self) (mixer_ready self) (music_loaded self) (mixer self).
End GameSettings.

(** ** class Tetrimino *)

Module Tetrimino.
Record t : Type := mk {
  shape : Shape;
  color : Color;
  x : Z;
  y : Z;
  rotation : Z
}.

(** [Tetrimino(shape, color)] *)
Definition init (shape0 : Shape) (color0 : Color) : option t :=
  row0 ← py_get shape0 0;
  Some {| shape := shape0;
          color := color0;
          x := Constants.GRID_WIDTH / 2 - Z.of_nat (length row0) / 2;
          y := 0;
          rotation := 0 |}.

Definition set_shape (self : t) (s : Shape) : t :=
  {| shape := s; color := color self; x := x self; y := y self;
     rotation := rotation self |}.

Definition set_pos (self : t) (x' y' : Z) : t :=
  {| shape := shape self; color := color self; x := x'; y := y';
     rotation := rotation self |}.

(** The inner loop of [valid_move] over the columns [col, col+1, ...] of
    one row, whose remaining entries are [cells].  [Some false]: the
    method has returned [False]; [Some true]: the loop ran to its end. *)
Fixpoint valid_move_cols (self : t) (grid : Grid) (dx dy row : Z)
    (cells : list Z) (col : Z) : option bool :=
  match cells with
  | [] => Some true
  | v :: cells' =>
      if truthy v then
        let x_pos := x self + col + dx in
        let y_pos := y self + row + dy in
        if (x_pos <? 0) || (x_pos >=? Constants.GRID_WIDTH)
           || (y_pos >=? Constants.GRID_HEIGHT)
        then Some false
        else if y_pos >=? 0 then
          r ← py_get grid y_pos;
          c ← py_get r x_pos;
          if cell_truthy c then Some false
          else valid_move_cols self grid dx dy row cells' (col + 1)
        else valid_move_cols self grid dx dy row cells' (col + 1)
      else valid_move_cols self grid dx dy row cells' (col + 1)
  end.

(** The outer loop, over the rows [row, row+1, ...]. *)
Fixpoint valid_move_rows (self : t) (grid : Grid) (dx dy : Z)
    (rows : Shape) (row : Z) : option bool :=
  match rows with
  | [] => Some true
  | r :: rows' =>
      b ← valid_move_cols self grid dx dy row r 0;
      if b : bool then valid_move_rows self grid dx dy rows' (row + 1)
      else Some false
  end.

Definition valid_move (self : t) (grid : Grid) (dx dy : Z) : option bool :=
  valid_move_rows self grid dx dy (shape self) 0.

Definition move (self : t) (grid : Grid) (dx dy : Z) : option (t * bool) :=
  b ← valid_move self grid dx dy;
  if b : bool then Some (set_pos self (x self + dx) (y self + dy), true)
  else Some (self, false).

(** The new shape of [rotate]: the rows in reverse order, unpacked into
    [zip], each tuple turned into a list. *)
Definition rotated (s : Shape) : Shape := zip_star (reverse s).

(** [rotate] returns no value; what it leaves behind is the piece and
    the settings object, whose mixer it may have addressed.  The
    attribute [settings.rotate_sound] is read only when the rotation is
    kept. *)
Definition rotate (self : t) (grid : Grid) (settings : GameSettings.t)
    : option (t * GameSettings.t) :=
  let original_shape := shape self in
  let self1 := set_shape self (rotated (shape self)) in
  b ← valid_move self1 grid 0 0;
  if negb b then Some (set_shape self1 original_shape, settings)
  else
    sound ← GameSettings.attr settings rotate_sound;
    Some (self1, GameSettings.play_sound settings sound).
End Tetrimino.

(** ** The keys and the clocks *)

(** [K_other] is any key that [_handle_event] does not test for. *)
Inductive Key : Type :=
| K_ESCAPE
| K_LEFT | K_RIGHT | K_DOWN | K_UP
| K_r | K_RETURN | K_h | K_s | K_f
| K_other.

(** The dictionaries [held_keys] and [last_move_time]: their keys are
    [K_LEFT], [K_RIGHT] and [K_DOWN] from [__init__] on, and every access
    the program makes is to one of the three. *)
Record KeyDict (A : Type) : Type := mkKeyDict {
  at_LEFT : A;
  at_RIGHT : A;
  at_DOWN : A
}.
Arguments mkKeyDict {A}.
Arguments at_LEFT {A}.
Arguments at_RIGHT {A}.
Arguments at_DOWN {A}.

Inductive MoveKey : Type := MK_LEFT | MK_RIGHT | MK_DOWN.

Definition dict_get {A} (d : KeyDict A) (k : MoveKey) : A :=
  match k with
  | MK_LEFT => at_LEFT d
  | MK_RIGHT => at_RIGHT d
  | MK_DOWN => at_DOWN d
  end.

Definition dict_set {A} (d : KeyDict A) (k : MoveKey) (v : A) : KeyDict A :=
  match k with
  | MK_LEFT => mkKeyDict v (at_RIGHT d) (at_DOWN d)
  | MK_RIGHT => mkKeyDict (at_LEFT d) v (at_DOWN d)
  | MK_DOWN => mkKeyDict (at_LEFT d) (at_RIGHT d) v
  end.

(** What one call reads from outside: the tick count, the wall clock,
    the draws of [random.randint(0, len(SHAPES) - 1)], in order, and
    whether [os.remove(SETTINGS_FILE)] and [open(HIGH_SCORE_FILE, 'w')]
    go through. *)
Record Env : Type := mkEnv {
  get_ticks : Z;
  time_time : float;
  randint : nat → Z;
  settings_file_removable : bool;
  high_score_file_writable : bool
}.

(** [range(a, b)] *)
Definition py_range (a b : Z) : list Z :=
  (λ i, a + Z.of_nat i) <$> seq 0 (Z.to_nat (b - a)).

(** [for k in ks: body], on a state that the body may fail to produce. *)
Fixpoint for_each {S K : Type} (body : S → K → option S) (s : S)
    (ks : list K) : option S :=
  match ks with
  | [] => Some s
  | k :: ks' => s' ← body s k; for_each body s' ks'
  end.

(** ** class GameState *)

Module GameState.
Record t : Type := mk {
  settings : GameSettings.t;
  grid : Grid;
  score : Z;
  last_skill_time : float;
  current_tetrimino : Tetrimino.t;
  next_tetrimino : Tetrimino.t;
  falling_speed : Z;
  last_fall_time : Z;
  total_lines_cleared : Z;
  game_over : bool;
  paused : bool;
  held_keys : KeyDict bool;
  last_move_time : KeyDict Z;
  move_delay : Z
}.

(** Assignments to one attribute of [self]. *)
Definition set_settings (self : t) (v : GameSettings.t) : t :=
  mk v (grid self) (score self) (last_skill_time self) (current_tetrimino
    self) (next_tetrimino self) (falling_speed self) (last_fall_time self)
    (total_lines_cleared self) (game_over self) (paused self) (held_keys
    self) (last_move_time self) (move_delay self).
Definition set_grid (self : t) (v : Grid) : t :=
  mk (settings self) v (score self) (last_skill_time self)
    (current_tetrimino self) (next_tetrimino self) (falling_speed self)
    (last_fall_time self) (total_lines_cleared self) (game_over self)
    (paused self) (held_keys self) (last_move_time self) (move_delay self).
Definition set_score (self : t) (v : Z) : t :=
  mk (settings self) (grid self) v (last_skill_time self)
    (current_tetrimino self) (next_tetrimino self) (falling_speed self)
    (last_fall_time self) (total_lines_cleared self) (game_over self)
    (paused self) (held_keys self) (last_move_time self) (move_delay self).
Definition set_last_skill_time (self : t) (v : float) : t :=
  mk (settings self) (grid self) (score self) v (current_tetrimino self)
    (next_tetrimino self) (falling_speed self) (last_fall_time self)
    (total_lines_cleared self) (game_over self) (paused self) (held_keys
    self) (last_move_time self) (move_delay self).
Definition set_current_tetrimino (self : t) (v : Tetrimino.t) : t :=
  mk (settings self) (grid self) (score self) (last_skill_time self) v
    (next_tetrimino self) (falling_speed self) (last_fall_time self)
    (total_lines_cleared self) (game_over self) (paused self) (held_keys
    self) (last_move_time self) (move_delay self).
Definition set_next_tetrimino (self : t) (v : Tetrimino.t) : t :=
  mk (settings self) (grid self) (score self) (last_skill_time self)
    (current_tetrimino self) v (falling_speed self) (last_fall_time self)
    (total_lines_cleared self) (game_over self) (paused self) (held_keys
    self) (last_move_time self) (move_delay self).
Definition set_falling_speed (self : t) (v : Z) : t :=
  mk (settings self) (grid self) (score self) (last_skill_time self)
    (current_tetrimino self) (next_tetrimino self) v (last_fall_time self)
    (total_lines_cleared self) (game_over self) (paused self) (held_keys
    self) (last_move_time self) (move_delay self).
Definition set_last_fall_time (self : t) (v : Z) : t :=
  mk (settings self) (grid self) (score self) (last_skill_time self)
    (current_tetrimino self) (next_tetrimino self) (falling_speed self) v
    (total_lines_cleared self) (game_over self) (paused self) (held_keys
    self) (last_move_time self) (move_delay self).
Definition set_total_lines_cleared (self : t) (v : Z) : t :=
  mk (settings self) (grid self) (score self) (last_skill_time self)
    (current_tetrimino self) (next_tetrimino self) (falling_speed self)
    (last_fall_time self) v (game_over self) (paused self) (held_keys self)
    (last_move_time self) (move_delay self).
Definition set_game_over (self : t) (v : bool) : t :=
  mk (settings self) (grid self) (score self) (last_skill_time self)
    (current_tetrimino self) (next_tetrimino self) (falling_speed self)
    (last_fall_time self) (total_lines_cleared self) v (paused self)
    (held_keys self) (last_move_time self) (move_delay self).
Definition set_paused (self : t) (v : bool) : t :=
  mk (settings self) (grid self) (score self) (last_skill_time self)
    (current_tetrimino self) (next_tetrimino self) (falling_speed self)
    (last_fall_time self) (total_lines_cleared self) (game_over self) v
    (held_keys self) (last_move_time self) (move_delay self).
Definition set_held_keys (self : t) (v : KeyDict bool) : t :=
  mk (settings self) (grid self) (score self) (last_skill_time self)
    (current_tetrimino self) (next_tetrimino self) (falling_speed self)
    (last_fall_time self) (total_lines_cleared self) (game_over self)
    (paused self) v (last_move_time self) (move_delay self).
Definition set_last_move_time (self : t) (v : KeyDict Z) : t :=
  mk (settings self) (grid self) (score self) (last_skill_time self)
    (current_tetrimino self) (next_tetrimino self) (falling_speed self)
    (last_fall_time self) (total_lines_cleared self) (game_over self)
    (paused self) (held_keys self) v (move_delay self).

Definition empty_row : list cell :=
  replicate (Z.to_nat Constants.GRID_WIDTH) Zero.

(** [new_tetrimino], given the value [shape_idx] that [randint] returned. *)
Definition new_tetrimino (shape_idx : Z) : option Tetrimino.t :=
  s ← py_get Constants.SHAPES shape_idx;
  c ← py_get Constants.SHAPE_COLORS shape_idx;
  Tetrimino.init s c.

(** [reset]: the attributes that [__init__] sets afterwards are taken
    from [self]. *)
Definition reset (self : t) (env : Env) : option t :=
  cur ← new_tetrimino (randint env 0%nat);
  nxt ← new_tetrimino (randint env 1%nat);
  Some {| settings := settings self;
          grid := replicate (Z.to_nat Constants.GRID_HEIGHT) empty_row;
          score := 0;
          last_skill_time := of_int (- Constants.SKILL_COOLDOWN);
          current_tetrimino := cur;
          next_tetrimino := nxt;
          falling_speed := 500;
          last_fall_time := get_ticks env;
          total_lines_cleared := 0;
          game_over := false;
          paused := false;
          held_keys := held_keys self;
          last_move_time := last_move_time self;
          move_delay := move_delay self |}.

(** [GameState(settings)] *)
Definition init (settings0 : GameSettings.t) (env : Env) : option t :=
  cur ← new_tetrimino (randint env 0%nat);
  nxt ← new_tetrimino (randint env 1%nat);
  Some {| settings := settings0;
          grid := replicate (Z.to_nat Constants.GRID_HEIGHT) empty_row;
          score := 0;
          last_skill_time := of_int (- Constants.SKILL_COOLDOWN);
          current_tetrimino := cur;
          next_tetrimino := nxt;
          falling_speed := 500;
          last_fall_time := get_ticks env;
          total_lines_cleared := 0;
          game_over := false;
          paused := false;
          held_keys := mkKeyDict false false false;
          last_move_time := mkKeyDict 0 0 0;
          move_delay := Constants.INITIAL_MOVE_DELAY |}.

(** [any(cell == 0 for cell in row)] *)
Definition has_zero (row : list cell) : bool := existsb cell_eq0 row.

(** [clear_lines] returns the new [self] and [lines_cleared]. *)
Definition clear_lines (self : t) : option (t * Z) :=
  let new_grid := List.filter has_zero (grid self) in
  let lines_cleared := Constants.GRID_HEIGHT - Z.of_nat (length new_grid) in
  self1 ←
    (if lines_cleared >? 0 then
       sound ← GameSettings.attr (settings self) line_clear_sound;
       Some (set_score
               (set_settings self
                  (GameSettings.play_sound (settings self) sound))
               (score self + 50 * (2 ^ lines_cleared - 1)))
     else Some self);
  Some (set_grid self1
          (replicate (Z.to_nat lines_cleared) empty_row ++ new_grid),
        lines_cleared).

(** [grid[y][x]] *)
Definition grid_get (grid : Grid) (y x : Z) : option cell :=
  r ← py_get grid y; py_get r x.

(** [grid[y][x] = v] *)
Definition grid_set (grid : Grid) (y x : Z) (v : cell) : option Grid :=
  r ← py_get grid y; r' ← py_set r x v; py_set grid y r'.

(** [any(grid[y][x] != 0 for y in ys for x in xs)], which stops at the
    first block it meets. *)
Fixpoint any_block_row (grid : Grid) (y : Z) (xs : list Z) : option bool :=
  match xs with
  | [] => Some false
  | x :: xs' =>
      c ← grid_get grid y x;
      if negb (cell_eq0 c) then Some true else any_block_row grid y xs'
  end.

Fixpoint any_block (grid : Grid) (ys xs : list Z) : option bool :=
  match ys with
  | [] => Some false
  | y :: ys' =>
      b ← any_block_row grid y xs;
      if b : bool then Some true else any_block grid ys' xs
  end.

(** [for x in xs: grid[y][x] = 0] and [for y in ys: for x in xs: ...] *)
Fixpoint zero_row (grid : Grid) (y : Z) (xs : list Z) : option Grid :=
  match xs with
  | [] => Some grid
  | x :: xs' => g ← grid_set grid y x Zero; zero_row g y xs'
  end.

Fixpoint zero_rows (grid : Grid) (ys xs : list Z) : option Grid :=
  match ys with
  | [] => Some grid
  | y :: ys' => g ← zero_row grid y xs; zero_rows g ys' xs
  end.

(** [l[:-n]] for [n > 0] *)
Definition drop_last {A} (n : nat) (l : list A) : list A :=
  take (length l - n) l.

(** [clear_last_three_rows], with the reading [current_time] of
    [time.time()]; it returns the new [self] and the boolean.  The
    difference of the two readings is a float, compared with the integer
    [SKILL_COOLDOWN]. *)
Definition clear_last_three_rows (self : t) (env : Env) : option (t * bool) :=
  let current_time := time_time env in
  if flt_int (fsub current_time (last_skill_time self))
             Constants.SKILL_COOLDOWN
  then Some (self, false)
  else if Constants.GRID_HEIGHT <? 3 then Some (self, false)
  else
    let ys := py_range (Constants.GRID_HEIGHT - 3) Constants.GRID_HEIGHT in
    let xs := py_range 0 Constants.GRID_WIDTH in
    has_blocks ← any_block (grid self) ys xs;
    if negb has_blocks then Some (self, false)
    else
      g ← zero_rows (grid self) ys xs;
      let new_grid := replicate 3 empty_row ++ drop_last 3 g in
      let self1 := set_grid self new_grid in
      let self2 := set_score self1 (score self1 + 100) in
      let self3 := set_last_skill_time self2 current_time in
      sound ← GameSettings.attr (settings self3) special_skill_sound;
      Some (set_settings self3
              (GameSettings.play_sound (settings self3) sound),
            true).

(** The translation that a held key asks for. *)
Definition key_offset (key : MoveKey) : Z * Z :=
  match key with
  | MK_LEFT => (-1, 0)
  | MK_RIGHT => (1, 0)
  | MK_DOWN => (0, 1)
  end.

(** [self.current_tetrimino.move(self.grid, dx, dy)], result dropped. *)
Definition move_current (self : t) (dx dy : Z) : option t :=
  r ← Tetrimino.move (current_tetrimino self) (grid self) dx dy;
  Some (set_current_tetrimino self r.1).

(** One round of the loop over the held keys in [update]. *)
Definition held_key_step (current_time : Z) (self : t) (key : MoveKey)
    : option t :=
  if dict_get (held_keys self) key then
    let time_since_last := current_time - dict_get (last_move_time self) key in
    let should_move :=
      if dict_get (last_move_time self) key =? 0
      then time_since_last >? move_delay self
      else time_since_last >? GameSettings.repeat_delay (settings self) in
    if should_move then
      self1 ← move_current self (key_offset key).1 (key_offset key).2;
      Some (set_last_move_time self1
              (dict_set (last_move_time self1) key current_time))
    else Some self
  else Some self.

(** The loops of [update] that write the piece into the grid. *)
Fixpoint fix_cols (piece : Tetrimino.t) (grid : Grid) (row : Z)
    (cells : list Z) (col : Z) : option Grid :=
  match cells with
  | [] => Some grid
  | v :: cells' =>
      if truthy v then
        g ← grid_set grid (Tetrimino.y piece + row) (Tetrimino.x piece + col)
              (Filled (Tetrimino.color piece));
        fix_cols piece g row cells' (col + 1)
      else fix_cols piece grid row cells' (col + 1)
  end.

Fixpoint fix_rows (piece : Tetrimino.t) (grid : Grid) (rows : Shape)
    (row : Z) : option Grid :=
  match rows with
  | [] => Some grid
  | r :: rows' =>
      g ← fix_cols piece grid row r 0;
      fix_rows piece g rows' (row + 1)
  end.

Definition fix_current (self : t) : option t :=
  g ← fix_rows (current_tetrimino self) (grid self)
        (Tetrimino.shape (current_tetrimino self)) 0;
  Some (set_grid self g).

(** The lines of [update] that count the cleared lines and raise the
    speed. *)
Definition count_lines (self : t) (lines_cleared : Z) : t :=
  let self1 :=
    set_total_lines_cleared self (total_lines_cleared self + lines_cleared) in
  if total_lines_cleared self1 >=? 10 then
    set_total_lines_cleared
      (set_falling_speed self1 (Z.max 100 (falling_speed self1 - 50)))
      (total_lines_cleared self1 - 10)
  else self1.

(** The end of the locking branch: the game is over when the new
    current piece does not fit. *)
Definition check_game_over (self : t) : option t :=
  b ← Tetrimino.valid_move (current_tetrimino self) (grid self) 0 0;
  if negb b then
    let self1 := set_game_over self true in
    st1 ← GameSettings.music_pause (settings self1);
    sound ← GameSettings.attr st1 game_over_sound;
    Some (set_settings self1 (GameSettings.play_sound st1 sound))
  else Some self.

(** The branch of [update] taken when the piece cannot fall. *)
Definition lock (self : t) (env : Env) : option t :=
  self1 ← fix_current self;
  let self2 := set_last_fall_time self1 (get_ticks env) in
  r ← clear_lines self2;
  let '(self3, lines_cleared) := r in
  let self4 := count_lines self3 lines_cleared in
  let self5 := set_current_tetrimino self4 (next_tetrimino self4) in
  nxt ← new_tetrimino (randint env 0%nat);
  let self6 := set_next_tetrimino self5 nxt in
  check_game_over self6.

(** The automatic fall of [update]. *)
Definition fall (self : t) (env : Env) : option t :=
  let current_time := get_ticks env in
  if current_time - last_fall_time self >? falling_speed self then
    r ← Tetrimino.move (current_tetrimino self) (grid self) 0 1;
    self1 ← (if negb r.2 then lock (set_current_tetrimino self r.1) env
             else Some (set_current_tetrimino self r.1));
    Some (set_last_fall_time self1 current_time)
  else Some self.

Definition update (self : t) (env : Env) : option t :=
  if paused self || game_over self then Some self
  else
    let current_time := get_ticks env in
    self1 ← for_each (held_key_step current_time) self
              [MK_LEFT; MK_RIGHT; MK_DOWN];
    fall self1 env.
End GameState.

(** ** class GameController: the events that reach the game state *)

Module GameController.
(** A mouse event is given by what [_handle_event] makes of it: a click
    on the music or the sound button, or a slider position, already
    converted to the delay handed to [set_repeat_delay]. *)
Inductive Event : Type :=
| KEYDOWN (key : Key)
| KEYUP (key : Key)
| MOUSE_music
| MOUSE_sound
| MOUSE_slider (delay : Z).

Definition move_key (key : Key) : option MoveKey :=
  match key with
  | K_LEFT => Some MK_LEFT
  | K_RIGHT => Some MK_RIGHT
  | K_DOWN => Some MK_DOWN
  | _ => None
  end.

(** The controller and the game state share one settings object. *)
Definition with_settings (gs : GameState.t)
    (f : GameSettings.t → GameSettings.t) : GameState.t :=
  GameState.set_settings gs (f (GameState.settings gs)).

(** [K_ESCAPE] leaves through [sys.exit()]; [K_h] and [K_s] touch a
    file and nothing of the game state. *)
Definition _handle_event (gs : GameState.t) (env : Env) (event : Event)
    : option GameState.t :=
  match event with
  | KEYDOWN K_ESCAPE => None
  | KEYDOWN K_r => GameState.reset gs env
  | KEYDOWN K_RETURN =>
      Some (GameState.set_paused gs (negb (GameState.paused gs)))
  | KEYDOWN K_h => if settings_file_removable env then Some gs else None
  | KEYDOWN K_s => if high_score_file_writable env then Some gs else None
  | KEYDOWN K_f =>
      if negb (GameState.paused gs) then
        r ← GameState.clear_last_three_rows gs env; Some r.1
      else Some gs
  | KEYDOWN key =>
      if negb (GameState.paused gs) then
        match move_key key with
        | Some k =>
            let gs1 :=
              GameState.set_held_keys gs
                (dict_set (GameState.held_keys gs) k true) in
            let gs2 :=
              GameState.set_last_move_time gs1
                (dict_set (GameState.last_move_time gs1) k (get_ticks env)) in
            GameState.move_current gs2
              (GameState.key_offset k).1 (GameState.key_offset k).2
        | None =>
            match key with
            | K_UP =>
                r ← Tetrimino.rotate (GameState.current_tetrimino gs)
                      (GameState.grid gs) (GameState.settings gs);
                Some (GameState.set_settings
                        (GameState.set_current_tetrimino gs r.1) r.2)
            | _ => Some gs
            end
        end
      else Some gs
  | KEYUP key =>
      match move_key key with
      | Some k =>
          Some (GameState.set_held_keys gs
                  (dict_set (GameState.held_keys gs) k false))
      | None => Some gs
      end
  | MOUSE_music =>
      st ← GameSettings.toggle_music (GameState.settings gs);
      Some (GameState.set_settings gs st)
  | MOUSE_sound => Some (with_settings gs GameSettings.toggle_sound)
  | MOUSE_slider delay =>
      Some (with_settings gs (λ st, GameSettings.set_repeat_delay st delay))
  end.

(** What [run] and [_run_game_loop] do to the game state: the reset
    before a game, the events of a frame, the update of a frame. *)
Inductive Step : Type :=
| NewGame
| Handle (event : Event)
| Frame.

Definition step (gs : GameState.t) (env : Env) (st : Step)
    : option GameState.t :=
  match st with
  | NewGame => GameState.reset gs env
  | Handle event => _handle_event gs env event
  | Frame => GameState.update gs env
  end.

(** [random.randint(0, len(SHAPES) - 1)] returns an index of [SHAPES]. *)
Definition draws_ok (env : Env) : Prop :=
  ∀ k, 0 ≤ randint env k ≤ Z.of_nat (length Constants.SHAPES) - 1.

(** The game states that a run of the controller goes through. *)
Inductive reachable : GameState.t → Prop :=
| reachable_init settings env gs :
    draws_ok env →
    GameState.init settings env = Some gs →
    reachable gs
| reachable_step gs env st gs' :
    reachable gs →
    draws_ok env →
    step gs env st = Some gs' →
    reachable gs'.
End GameController.

(** * Vocabulary of the statements *)

(** A grid of [GRID_HEIGHT] rows of [GRID_WIDTH] cells. *)
Definition wf_gridb (g : Grid) : bool :=
  (Z.of_nat (length g) =? Constants.GRID_HEIGHT)
  && forallb (λ r, Z.of_nat (length r) =? Constants.GRID_WIDTH) g.

Definition wf_grid (g : Grid) : Prop := wf_gridb g = true.

(** [shape[row][col]] exists and is true. *)
Definition occupied (s : Shape) (row col : nat) : Prop :=
  ∃ r v, s !! row = Some r ∧ r !! col = Some v ∧ v ≠ 0.

(** The position [(x_pos, y_pos)] is inside the side walls, above the
    floor and, when it is not above the top edge, on an empty cell. *)
Definition cell_ok (g : Grid) (x_pos y_pos : Z) : Prop :=
  0 ≤ x_pos < Constants.GRID_WIDTH ∧
  y_pos < Constants.GRID_HEIGHT ∧
  (0 ≤ y_pos → GameState.grid_get g y_pos x_pos = Some Zero).

(** Every occupied cell of the piece, moved by [(dx, dy)], is [cell_ok]. *)
Definition fits (t : Tetrimino.t) (g : Grid) (dx dy : Z) : Prop :=
  ∀ row col, occupied (Tetrimino.shape t) row col →
    cell_ok g (Tetrimino.x t + Z.of_nat col + dx)
              (Tetrimino.y t + Z.of_nat row + dy).

(** Every occupied cell of the piece is a cell of the grid. *)
Definition in_grid (t : Tetrimino.t) : Prop :=
  ∀ row col, occupied (Tetrimino.shape t) row col →
    0 ≤ Tetrimino.x t + Z.of_nat col < Constants.GRID_WIDTH ∧
    0 ≤ Tetrimino.y t + Z.of_nat row < Constants.GRID_HEIGHT.


(** The occupied positions of a shape, row by row: [cols_from k cells]
    are the columns of the true entries of a row whose first entry is in
    column [k]; [cells_from i rows] the pairs (row, column) for rows
    numbered from [i]. *)
Fixpoint cols_from (k : nat) (cells : list Z) : list nat :=
  match cells with
  | [] => []
  | v :: cells' =>
      if truthy v then k :: cols_from (S k) cells' else cols_from (S k) cells'
  end.

Fixpoint cells_from (i : nat) (rows : Shape) : list (nat * nat) :=
  match rows with
  | [] => []
  | r :: rows' => ((λ j, (i, j)) <$> cols_from 0 r) ++ cells_from (S i) rows'
  end.

Definition occupied_cells (s : Shape) : list (nat * nat) := cells_from 0 s.

(** [cell_ok], [fits] and [in_grid] as tests. *)
Definition cell_okb (g : Grid) (x_pos y_pos : Z) : bool :=
  (0 <=? x_pos) && (x_pos <? Constants.GRID_WIDTH)
  && (y_pos <? Constants.GRID_HEIGHT)
  && (if 0 <=? y_pos then
        match GameState.grid_get g y_pos x_pos with
        | Some Zero => true
        | _ => false
        end
      else true).

Definition fitsb (t : Tetrimino.t) (g : Grid) (dx dy : Z) : bool :=
  forallb (λ rc, cell_okb g (Tetrimino.x t + Z.of_nat rc.2 + dx)
                           (Tetrimino.y t + Z.of_nat rc.1 + dy))
          (occupied_cells (Tetrimino.shape t)).

Definition in_gridb (t : Tetrimino.t) : bool :=
  forallb (λ rc,
             (0 <=? Tetrimino.x t + Z.of_nat rc.2)
             && (Tetrimino.x t + Z.of_nat rc.2 <? Constants.GRID_WIDTH)
             && (0 <=? Tetrimino.y t + Z.of_nat rc.1)
             && (Tetrimino.y t + Z.of_nat rc.1 <? Constants.GRID_HEIGHT))
          (occupied_cells (Tetrimino.shape t)).

(** ** Concrete inputs *)

Definition empty_grid : Grid :=
  replicate (Z.to_nat Constants.GRID_HEIGHT) GameState.empty_row.

(** The pieces as [new_tetrimino] makes them: O is [SHAPES[3]], L is
    [SHAPES[1]], I is [SHAPES[0]]. *)
Definition O_piece : Tetrimino.t :=
  Tetrimino.mk [[1; 1]; [1; 1]] Constants.WHITE 4 0 0.

Definition L_piece : Tetrimino.t :=
  Tetrimino.mk [[1; 1; 1]; [0; 0; 1]] Constants.RED 4 0 0.

Definition I_piece : Tetrimino.t :=
  Tetrimino.mk [[1; 1; 1; 1]] Constants.CYAN 3 0 0.

(** Settings whose sounds and music were loaded, with sound enabled and
    with sound disabled by the sound button. *)
Definition sound_on : GameSettings.t :=
  GameSettings.mk true true false Constants.REPEAT_MOVE_DELAY
    GameSettings.all_sounds true true [].

Definition sound_off : GameSettings.t :=
  GameSettings.mk true false false Constants.REPEAT_MOVE_DELAY
    GameSettings.all_sounds true true [].

(** The settings object of [__init__] before [_init_sounds] is called,
    and as it is left when [line_clear.wav] loads and [rotate.wav] does
    not: two of the statements of [_init_sounds] have returned. *)
Definition fresh_settings : GameSettings.t :=
  GameSettings.mk true true false Constants.REPEAT_MOVE_DELAY [] false false [].

Definition failed_load : GameSettings.t :=
  GameSettings.mk false false false Constants.REPEAT_MOVE_DELAY
    [line_clear_sound] true false [].

(** Every sound that the game asks for was loaded, and the mixer is
    initialised: no sound request can raise. *)
Definition audio_ok (st : GameSettings.t) : bool :=
  GameSettings.mixer_ready st
  && forallb (GameSettings.has st) GameSettings.all_sounds.

(** What [_init_sounds] decides once and no later call changes. *)
Definition same_audio (st st' : GameSettings.t) : Prop :=
  GameSettings.sounds st' = GameSettings.sounds st ∧
  GameSettings.mixer_ready st' = GameSettings.mixer_ready st ∧
  GameSettings.music_loaded st' = GameSettings.music_loaded st.

(** A call that may raise: when it returns, its result satisfies
    [post]; it raises only when [ok] does not hold. *)
Definition behaves {A : Type} (o : option A) (ok : bool) (post : A → Prop)
    : Prop :=
  match o with
  | Some a => post a
  | None => ok = false
  end.

(** A matrix of [R] rows of [C] entries. *)
Definition rectangularb (s : Shape) (R C : nat) : bool :=
  (length s =? R)%nat && forallb (λ r, (length r =? C)%nat) s.

Definition rectangular (s : Shape) (R C : nat) : Prop :=
  rectangularb s R C = true.

(** The left rotation in the words of the specification:
    [new[i][j] = old[j][old_cols-1-i]], for a matrix of [old_cols]
    columns. *)
Definition spec_rotate_left (old : Shape) : Shape :=
  let old_rows := length old in
  let old_cols := length (nth 0 old []) in
  (λ i, (λ j, nth (old_cols - 1 - i) (nth j old []) 0) <$> seq 0 old_rows)
    <$> seq 0 old_cols.

(** Its inverse, the right rotation: [new[i][j] = old[old_rows-1-j][i]]. *)
Definition spec_rotate_right (old : Shape) : Shape :=
  let old_rows := length old in
  let old_cols := length (nth 0 old []) in
  (λ i, (λ j, nth i (nth (old_rows - 1 - j) old []) 0) <$> seq 0 old_rows)
    <$> seq 0 old_cols.

(** [rotate] in the words of the specification: the candidate is the
    left rotation, it is committed when it fits at the current anchor,
    and the operation reports whether it was. *)
Definition spec_rotate (t : Tetrimino.t) (g : Grid) : Tetrimino.t * bool :=
  let candidate := Tetrimino.set_shape t (spec_rotate_left (Tetrimino.shape t)) in
  if fitsb candidate g 0 0 then (candidate, true) else (t, false).

(** An I piece lying on the floor: no room to stand it up. *)
Definition I_on_floor : Tetrimino.t :=
  Tetrimino.mk [[1; 1; 1; 1]] Constants.CYAN 3 19 0.

(** The state that [GameState(sound_on)] builds when the tick count is 0
    and [randint] returns 3 twice: two O pieces over the empty grid. *)
Definition start_env : Env := mkEnv 0 (of_int 0) (λ _, 3) true true.

Definition start_state : GameState.t :=
  GameState.mk sound_on empty_grid 0 (of_int (-45)) O_piece O_piece
    500 0 0 false false (mkKeyDict false false false) (mkKeyDict 0 0 0) 1000.

(** A row all of whose cells hold a block. *)
Definition full_row (r : list cell) : bool := forallb cell_truthy r.

(** The number of full rows of a grid. *)
Definition full_rows (g : Grid) : nat := length (List.filter full_row g).

(** The grid with the block [c] at row [row], column [col]. *)
Definition write_cell (c : cell) (g : Grid) (rc : nat * nat) : Grid :=
  alter (λ r, <[rc.2 := c]> r) rc.1 g.

(** The cell of the grid that the entry [(row, col)] of the shape of
    [t] covers. *)
Definition covers (t : Tetrimino.t) (rc : nat * nat) : nat * nat :=
  (Z.to_nat (Tetrimino.y t + Z.of_nat rc.1),
   Z.to_nat (Tetrimino.x t + Z.of_nat rc.2)).

(** The grid with the piece written into it, cell by cell, each write at
    the row and column counted from the top left corner. *)
Definition write_piece (t : Tetrimino.t) (g : Grid) : Grid :=
  foldl (write_cell (Filled (Tetrimino.color t))) g
        (covers t <$> occupied_cells (Tetrimino.shape t)).

(** The bounds of the cell that entry [(i, j)] of the shape covers. *)
Definition covered_in_grid (t : Tetrimino.t) (i j : nat) : Prop :=
  0 ≤ Tetrimino.x t + Z.of_nat j < Constants.GRID_WIDTH ∧
  0 ≤ Tetrimino.y t + Z.of_nat i < Constants.GRID_HEIGHT.

(** A grid whose two bottom rows are full of white blocks, and the state
    that holds it. *)
Definition white_row : list cell :=
  replicate (Z.to_nat Constants.GRID_WIDTH) (Filled Constants.WHITE).

Definition two_full_grid : Grid :=
  replicate 18 GameState.empty_row ++ [white_row; white_row].

Definition two_full_state : GameState.t :=
  GameState.set_grid start_state two_full_grid.

(** The grid after its full rows are cleared. *)
Definition cleared (g : Grid) : Grid :=
  replicate (full_rows g) GameState.empty_row
  ++ List.filter (λ r, negb (full_row r)) g.

(** The invariant of the game states: a well-formed grid, both pieces
    inside the grid with an anchor that is not above the top edge, the
    preview piece at the height it was made at, a falling speed of at
    least 100 ms. *)
Definition piece_okb (t : Tetrimino.t) : bool :=
  (0 <=? Tetrimino.y t) && in_gridb t.

Definition invb (gs : GameState.t) : bool :=
  wf_gridb (GameState.grid gs)
  && piece_okb (GameState.current_tetrimino gs)
  && piece_okb (GameState.next_tetrimino gs)
  && (Tetrimino.y (GameState.next_tetrimino gs) =? 0)
  && (100 <=? GameState.falling_speed gs).

Definition inv (gs : GameState.t) : Prop := invb gs = true.

Definition piece_ok (t : Tetrimino.t) : Prop := 0 ≤ Tetrimino.y t ∧ in_grid t.

(** The phases of [update]: the loop over the held keys; whether the
    automatic fall is due; whether the piece, being due to fall, has
    landed and is locked. *)
Definition keys_phase (gs : GameState.t) (env : Env) : option GameState.t :=
  for_each (GameState.held_key_step (get_ticks env)) gs
    [MK_LEFT; MK_RIGHT; MK_DOWN].

Definition fall_due (gs : GameState.t) (env : Env) : bool :=
  get_ticks env - GameState.last_fall_time gs >? GameState.falling_speed gs.

Definition lands (gs : GameState.t) (env : Env) : bool :=
  fall_due gs env
  && negb (fitsb (GameState.current_tetrimino gs) (GameState.grid gs) 0 1).

(** What a step that is neither a lock nor a reset leaves as it is. *)
Definition same_board (gs gs' : GameState.t) : Prop :=
  GameState.grid gs' = GameState.grid gs ∧
  GameState.score gs' = GameState.score gs ∧
  GameState.last_skill_time gs' = GameState.last_skill_time gs ∧
  GameState.next_tetrimino gs' = GameState.next_tetrimino gs ∧
  GameState.falling_speed gs' = GameState.falling_speed gs ∧
  GameState.total_lines_cleared gs' = GameState.total_lines_cleared gs ∧
  GameState.game_over gs' = GameState.game_over gs ∧
  GameState.paused gs' = GameState.paused gs.

(** Some cell of the bottom three rows holds a block. *)
Definition bottom_block (g : Grid) : Prop :=
  ∃ y x c,
    Constants.GRID_HEIGHT - 3 ≤ y < Constants.GRID_HEIGHT ∧
    0 ≤ x < Constants.GRID_WIDTH ∧
    GameState.grid_get g y x = Some (Filled c).

(** The state after a row-crush at the clock reading [now]. *)
Definition crushed (gs : GameState.t) (now : float) : GameState.t :=
  GameState.mk
    (GameSettings.play_sound (GameState.settings gs) special_skill_sound)
    (replicate 3 GameState.empty_row
     ++ take (Z.to_nat (Constants.GRID_HEIGHT - 3)) (GameState.grid gs))
    (GameState.score gs + 100)
    now
    (GameState.current_tetrimino gs) (GameState.next_tetrimino gs)
    (GameState.falling_speed gs) (GameState.last_fall_time gs)
    (GameState.total_lines_cleared gs) (GameState.game_over gs)
    (GameState.paused gs) (GameState.held_keys gs)
    (GameState.last_move_time gs) (GameState.move_delay gs).

(** What a move of the current piece leaves as it is; the piece itself
    does not go up. *)
Definition quiet (gs gs' : GameState.t) : Prop :=
  same_board gs gs' ∧
  GameState.last_fall_time gs' = GameState.last_fall_time gs ∧
  Tetrimino.y (GameState.current_tetrimino gs)
  ≤ Tetrimino.y (GameState.current_tetrimino gs').

(** The steps that start a new game. *)
Definition resets (st : GameController.Step) : bool :=
  match st with
  | GameController.NewGame => true
  | GameController.Handle (GameController.KEYDOWN K_r) => true
  | _ => false
  end.

(** The steps that end the run whatever the game state is: the Escape
    key, and the keys H and S when the file operation raises. *)
Definition leaves (env : Env) (st : GameController.Step) : bool :=
  match st with
  | GameController.Handle (GameController.KEYDOWN K_ESCAPE) => true
  | GameController.Handle (GameController.KEYDOWN K_h) =>
      negb (settings_file_removable env)
  | GameController.Handle (GameController.KEYDOWN K_s) =>
      negb (high_score_file_writable env)
  | _ => false
  end.

(** Nothing makes the step raise: the sounds were loaded, the key is not
    Escape and the file operation of H or S goes through. *)
Definition safe (gs : GameState.t) (env : Env) (st : GameController.Step)
    : bool :=
  audio_ok (GameState.settings gs) && negb (leaves env st).

(** A state in which an O piece has come to rest in the gap of two
    rows that are full but for the gap; eight lines are counted so far. *)
Definition gap_row : list cell :=
  replicate 4 (Filled Constants.WHITE) ++ [Zero; Zero]
  ++ replicate 4 (Filled Constants.WHITE).

Definition landing_state : GameState.t :=
  GameState.mk sound_on (replicate 18 GameState.empty_row ++ [gap_row; gap_row])
    0 (of_int (-45)) (Tetrimino.mk [[1; 1]; [1; 1]] Constants.WHITE 4 18 0)
    O_piece 500 0 8 false false
    (mkKeyDict false false false) (mkKeyDict 0 0 0) 1000.

(** A state whose six bottom rows hold blocks. *)
Definition six_rows_state : GameState.t :=
  GameState.set_grid start_state
    (replicate 14 GameState.empty_row ++ replicate 6 gap_row).

Definition landing_env : Env := mkEnv 1000 (of_int 0) (λ _, 3) true true.

(** A state in which the current O piece, just spawned, rests on a block
    in the third row: once it is locked the next O piece has no room. *)
Definition top_out_state : GameState.t :=
  GameState.mk sound_on
    (replicate 2 GameState.empty_row
     ++ [replicate 4 Zero ++ [Filled Constants.RED] ++ replicate 5 Zero]
     ++ replicate 17 GameState.empty_row)
    0 (of_int (-45)) O_piece O_piece 500 0 0 false false
    (mkKeyDict false false false) (mkKeyDict 0 0 0) 1000.

(** The same number in the Standard Library's model of IEEE 754, at
    the parameters of binary64, and some numbers to compare the two
    subtractions on: 0, the doubles nearest to 0.3 and 45.3, 45, -45, a
    time of day of the year 2025, the largest and the smallest positive
    double, the largest negative double, an infinity and NaN. *)
Definition to_binary64 (a : float) : SpecFloat.spec_float :=
  match a with
  | NaN => SpecFloat.S754_nan
  | Infinity negative => SpecFloat.S754_infinity negative
  | Finite m e => SpecFloat.binary_normalize 53 1024 m e false
  end.

Definition float_samples : list float :=
  [ Finite 0 0;
    Finite 5404319552844595 (-54);
    Finite 6375408222496358 (-47);
    of_int 45;
    of_int (-45);
    Finite 7391262907826176 (-22);
    Finite (2 ^ 53 - 1) 971;
    Finite 1 (-1074);
    Finite (- (2 ^ 53 - 1)) 971;
    Infinity false;
    NaN ].

Definition agrees_with_binary64 (a b : float) : bool :=
  match to_binary64 (fsub a b),
        SpecFloat.SFsub 53 1024 (to_binary64 a) (to_binary64 b) with
  | SpecFloat.S754_nan, SpecFloat.S754_nan => true
  | SpecFloat.S754_infinity s, SpecFloat.S754_infinity s' => eqb s s'
  | SpecFloat.S754_zero _, SpecFloat.S754_zero _ => true
  | SpecFloat.S754_finite s m e, SpecFloat.S754_finite s' m' e' =>
      eqb s s' && (m =? m')%positive && (e =? e')
  | _, _ => false
  end
  && eqb (flt_int (fsub a b) Constants.SKILL_COOLDOWN)
         (SpecFloat.SFltb
            (SpecFloat.SFsub 53 1024 (to_binary64 a) (to_binary64 b))
            (to_binary64 (of_int Constants.SKILL_COOLDOWN))).

(** A clock reading that is not negative (and is a number). *)
Definition not_negative (a : float) : Prop :=
  match a with
  | Finite m _ => 0 ≤ m
  | Infinity negative => negative = false
  | NaN => False
  end.

(** A clock reading of 1000 s, for a reset and for a row-crush. *)
Definition later_env : Env := mkEnv 0 (of_int 1000) (λ _, 3) true true.

(** * Vocabulary of the further properties *)

(** The entry of the grid at row [r], column [c], counted from the top
    left corner. *)
Definition cell_at (g : Grid) (r c : nat) : option cell :=
  row ← g !! r; row !! c.

(** The cell at row [r], column [c] is under an occupied entry of the
    piece. *)
Definition covered (t : Tetrimino.t) (r c : nat) : Prop :=
  ∃ row col, occupied (Tetrimino.shape t) row col ∧
             Tetrimino.y t + Z.of_nat row = Z.of_nat r ∧
             Tetrimino.x t + Z.of_nat col = Z.of_nat c.

(** The seven shapes, each with its colour, in the four orientations
    that [rotate] turns it through. *)
Definition turns (s : Shape) : list Shape :=
  [s; Tetrimino.rotated s; Tetrimino.rotated (Tetrimino.rotated s);
   Tetrimino.rotated (Tetrimino.rotated (Tetrimino.rotated s))].

Definition piece_orientations : list (Shape * Color) :=
  sc ← zip Constants.SHAPES Constants.SHAPE_COLORS;
  (λ s, (s, sc.2)) <$> turns sc.1.

(** The piece is one of the seven, in one of its orientations, in its
    own colour. *)
Definition knownb (t : Tetrimino.t) : bool :=
  bool_decide ((Tetrimino.shape t, Tetrimino.color t) ∈ piece_orientations).

(** The number of occupied entries of a shape. *)
Definition blocks (s : Shape) : nat := length (occupied_cells s).

(** The stronger invariant of the game states. *)
Definition inv_plus (gs : GameState.t) : Prop :=
  inv gs ∧
  full_rows (GameState.grid gs) = 0%nat ∧
  knownb (GameState.current_tetrimino gs) = true ∧
  knownb (GameState.next_tetrimino gs) = true ∧
  0 ≤ GameState.total_lines_cleared gs < 10 ∧
  0 ≤ GameState.score gs ∧
  GameState.falling_speed gs ≤ 500 ∧
  (GameState.falling_speed gs) mod 50 = 0.

(** What a step that starts no new game keeps: the score does not go
    down, a game that is over stays over. *)
Definition carries_on (gs gs' : GameState.t) : Prop :=
  GameState.score gs ≤ GameState.score gs' ∧
  (GameState.game_over gs = true → GameState.game_over gs' = true).

(** ** Runs of the controller *)

(** The surroundings in which the tick count is [ticks], the wall clock
    reads [wall], every draw of [randint] gives [idx] and the file
    operations go through. *)
Definition env_of (ticks : Z) (wall : Z) (idx : Z) : Env :=
  mkEnv ticks (of_int wall) (λ _, idx) true true.

(** A run: the steps of a script, each in its surroundings. *)
Definition run (gs : GameState.t) (script : list (Env * GameController.Step))
    : option GameState.t :=
  for_each (λ s es, GameController.step s es.1 es.2) gs script.

(** A script built from tick counts and draws. *)
Definition script_of (l : list (Z * Z * GameController.Step))
    : list (Env * GameController.Step) :=
  (λ e, (env_of e.1.1 0 e.1.2, e.2)) <$> l.

Definition draws_in_range (l : list (Z * Z * GameController.Step)) : bool :=
  forallb (λ e, (0 <=? e.1.2) && (e.1.2 <=? 6)) l.

Definition press (ticks : Z) (key : Key) : Z * Z * GameController.Step :=
  (ticks, 3, GameController.Handle (GameController.KEYDOWN key)).

Definition release (ticks : Z) (key : Key) : Z * Z * GameController.Step :=
  (ticks, 3, GameController.Handle (GameController.KEYUP key)).

Definition frame (ticks : Z) (idx : Z) : Z * Z * GameController.Step :=
  (ticks, idx, GameController.Frame).



(** A game of two I pieces and an O piece.  The first I piece is stood
    up and dropped in the left column; the second is laid across its
    top; the O piece is dropped to the floor and pushed left under the
    second. *)
Definition two_I_state : GameState.t :=
  Eval vm_compute in
    from_option id start_state (GameState.init sound_on (env_of 0 0 0)).

Definition overhang_script : list (Z * Z * GameController.Step) :=
  [press 10 K_UP]
  ++ replicate 3 (press 20 K_LEFT) ++ [release 30 K_LEFT]
  ++ replicate 16 (press 40 K_DOWN) ++ [release 50 K_DOWN]
  ++ [frame 1000 3]
  ++ replicate 3 (press 1020 K_LEFT) ++ [release 1030 K_LEFT]
  ++ replicate 15 (press 1040 K_DOWN) ++ [release 1050 K_DOWN]
  ++ [frame 2000 3]
  ++ replicate 18 (press 2040 K_DOWN) ++ [release 2050 K_DOWN]
  ++ replicate 3 (press 2060 K_LEFT) ++ [release 2070 K_LEFT].

Definition under_overhang_state : GameState.t :=
  Eval vm_compute in
    from_option id start_state (run two_I_state (script_of overhang_script)).

(** The matrix of [R] rows and [C] columns with entry [f i j] at row
    [i], column [j]. *)
Definition mat (R C : nat) (f : nat → nat → Z) : Shape :=
  (λ i, (λ j, f i j) <$> seq 0 C) <$> seq 0 R.

(** One call of [rotate] on the piece and settings that the call before
    left. *)
Definition rotate_again (g : Grid) (r : Tetrimino.t * GameSettings.t)
    : option (Tetrimino.t * GameSettings.t) :=
  Tetrimino.rotate r.1 g r.2.

(** The start state, paused. *)
Definition paused_state : GameState.t := GameState.set_paused start_state true.

(** Every held key has a last-move time other than the 0 that
    [__init__] puts there. *)
Definition stampedb (gs : GameState.t) : bool :=
  forallb (λ k, implb (dict_get (GameState.held_keys gs) k)
                      (negb (dict_get (GameState.last_move_time gs) k =? 0)))
          [MK_LEFT; MK_RIGHT; MK_DOWN].

(** All tick counts of a script are positive. *)
Definition ticking (script : list (Env * GameController.Step)) : bool :=
  forallb (λ es, 0 <? get_ticks es.1) script.

(** The start state after the left arrow is pressed at tick 10. *)
Definition left_held_state : GameState.t :=
  Eval vm_compute in
    from_option id start_state
      (run start_state (script_of [press 10 K_LEFT])).

(** The sounds that the mixer was asked to play, latest first. *)
Definition sounds_played (st : GameSettings.t) : list Sound :=
  omap (λ r, match r with SoundPlay s => Some s | _ => None end)
       (GameSettings.mixer st).

(** The start state with sound disabled. *)
Definition muted_state : GameState.t :=
  GameState.set_settings start_state sound_off.

(** The events that change the board: F and R. *)
Definition board_key (event : GameController.Event) : bool :=
  match event with
  | GameController.KEYDOWN K_f | GameController.KEYDOWN K_r => true
  | _ => false
  end.

(** The start state with the settings of a failed load. *)
Definition silent_state : GameState.t :=
  GameState.set_settings start_state failed_load.
(** * Properties *)

(** ** Calls that may raise *)

Lemma behaves_spec {A} (o : option A) (ok : bool) (post : A → Prop) :
  behaves o ok post
  ↔ (ok = true → ∃ a, o = Some a) ∧ (∀ a, o = Some a → post a).
Proof.
  destruct o as [a|]; simpl.
  - split; [intros H; split; [by eauto|by intros ? [= <-]]|].
    intros [_ H]. by apply H.
  - split; [intros ->; split; [done|done]|].
    intros [H _]. destruct ok; [|done]. by destruct H.
Qed.

Lemma behaves_returns {A} (o : option A) (ok : bool) (post : A → Prop) (a : A) :
  behaves o ok post → o = Some a → post a.
Proof. by intros H ->. Qed.

Lemma behaves_total {A} (o : option A) (ok : bool) (post : A → Prop) :
  behaves o ok post → ok = true → ∃ a, o = Some a ∧ post a.
Proof.
  destruct o as [a|]; simpl; [by eauto|]. by intros -> [=].
Qed.

Lemma behaves_mono {A} (o : option A) (ok : bool) (post post' : A → Prop) :
  (∀ a, post a → post' a) → behaves o ok post → behaves o ok post'.
Proof. destruct o; simpl; auto. Qed.

Lemma behaves_ok {A} (o : option A) (ok ok' : bool) (post : A → Prop) :
  (ok' = true → ok = true) → behaves o ok post → behaves o ok' post.
Proof.
  destruct o; simpl; [auto|]. intros H ->.
  destruct ok'; [by specialize (H eq_refl)|done].
Qed.

Lemma behaves_and {A} (o : option A) (ok : bool) (post post' : A → Prop) :
  behaves o ok post → behaves o ok post' →
  behaves o ok (λ a, post a ∧ post' a).
Proof. destruct o; simpl; auto. Qed.

Lemma behaves_bind {A B} (o : option A) (f : A → option B) (ok : bool)
    (post : A → Prop) (post' : B → Prop) :
  behaves o ok post →
  (∀ a, post a → behaves (f a) ok post') →
  behaves (o ≫= f) ok post'.
Proof. destruct o; simpl; auto. Qed.

(** ** Sound attributes *)

Lemma attr_has (st : GameSettings.t) (s : Sound) :
  GameSettings.has st s = true → GameSettings.attr st s = Some s.
Proof. unfold GameSettings.attr. by intros ->. Qed.

Lemma attr_cases (st : GameSettings.t) (s : Sound) :
  GameSettings.attr st s
  = if GameSettings.has st s then Some s else None.
Proof. done. Qed.

Lemma audio_ok_spec (st : GameSettings.t) :
  audio_ok st = true
  ↔ GameSettings.mixer_ready st = true ∧
    ∀ s, GameSettings.has st s = true.
Proof.
  unfold audio_ok. rewrite andb_true_iff. simpl.
  rewrite !andb_true_iff. split.
  - intros (? & ? & ? & ? & ? & _). split; [done|]. by intros [].
  - intros [? H]. by rewrite !H.
Qed.

Lemma audio_ok_has (st : GameSettings.t) (s : Sound) :
  audio_ok st = true → GameSettings.has st s = true.
Proof. intros H. by apply audio_ok_spec. Qed.

Lemma not_has_audio (st : GameSettings.t) (s : Sound) :
  GameSettings.has st s = false → audio_ok st = false.
Proof.
  intros H. destruct (audio_ok st) eqn:Hok; [|done].
  by rewrite (audio_ok_has _ s Hok) in H.
Qed.

Lemma not_ready_audio (st : GameSettings.t) :
  GameSettings.mixer_ready st = false → audio_ok st = false.
Proof. unfold audio_ok. by intros ->. Qed.

Lemma same_audio_refl (st : GameSettings.t) : same_audio st st.
Proof. done. Qed.

Lemma same_audio_trans (st1 st2 st3 : GameSettings.t) :
  same_audio st1 st2 → same_audio st2 st3 → same_audio st1 st3.
Proof. unfold same_audio. intros (-> & -> & ->) (-> & -> & ->). done. Qed.

Lemma same_audio_ok (st st' : GameSettings.t) :
  same_audio st st' → audio_ok st' = audio_ok st.
Proof.
  intros (Hs & Hr & _). unfold audio_ok, GameSettings.has.
  by rewrite Hs, Hr.
Qed.

Lemma same_audio_has (st st' : GameSettings.t) (s : Sound) :
  same_audio st st' → GameSettings.has st' s = GameSettings.has st s.
Proof. intros (Hs & _). unfold GameSettings.has. by rewrite Hs. Qed.

Lemma play_sound_audio (st : GameSettings.t) (s : Sound) :
  same_audio st (GameSettings.play_sound st s).
Proof.
  unfold GameSettings.play_sound.
  by destruct (GameSettings.sound_enabled st).
Qed.

Lemma play_sound_muted (st : GameSettings.t) (s : Sound) :
  GameSettings.sound_enabled st = false → GameSettings.play_sound st s = st.
Proof. unfold GameSettings.play_sound. by intros ->. Qed.

Lemma play_sound_ready (st : GameSettings.t) (s : Sound) :
  GameSettings.mixer_ready (GameSettings.play_sound st s)
  = GameSettings.mixer_ready st.
Proof. by destruct (play_sound_audio st s) as (_ & ? & _). Qed.

Lemma play_sound_has (st : GameSettings.t) (s s' : Sound) :
  GameSettings.has (GameSettings.play_sound st s) s' = GameSettings.has st s'.
Proof. apply same_audio_has, play_sound_audio. Qed.

Lemma to_mixer_audio (st : GameSettings.t) (r : MixerRequest) :
  same_audio st (GameSettings.to_mixer st r).
Proof. done. Qed.

(** ** Python floats *)

Lemma round_half_even_ge (m k : Z) :
  0 < k → m / 2 ^ k ≤ round_half_even m k.
Proof.
  intros Hk. unfold round_half_even.
  repeat case_match; lia.
Qed.

(** Rounding does not take a value below an integer that it is not
    below: [c <= m * 2^e] gives [not (fround m e < c)]. *)
Lemma fround_ge (m e c : Z) :
  0 ≤ c < 2 ^ 53 →
  (if 0 <=? e then c ≤ m * 2 ^ e else c * 2 ^ (- e) ≤ m) →
  flt_int (fround m e) c = false.
Proof.
  intros Hc Hle.
  assert (Hm : 0 ≤ m).
  { destruct (0 <=? e) eqn:He.
    - apply Z.leb_le in He. assert (0 < 2 ^ e) by (apply Z.pow_pos_nonneg; lia).
      nia.
    - apply Z.leb_gt in He. assert (0 < 2 ^ (- e)) by (apply Z.pow_pos_nonneg; lia).
      nia. }
  unfold fround. rewrite Z.abs_eq by done.
  assert (Hneg : (m <? 0) = false) by (apply Z.ltb_ge; lia).
  destruct (0 <? Z.log2 m - 52) eqn:Hk.
  - apply Z.ltb_lt in Hk. set (k := Z.log2 m - 52) in *.
    assert (Hpos : 0 < m).
    { destruct (decide (m = 0)) as [->|]; [|lia]. simpl in k. lia. }
    assert (Hlog : 2 ^ (52 + k) ≤ m).
    { replace (52 + k) with (Z.log2 m) by lia. by apply Z.log2_spec. }
    assert (H2k : 0 < 2 ^ k) by (apply Z.pow_pos_nonneg; lia).
    assert (Hq : 2 ^ 52 ≤ m / 2 ^ k).
    { apply Z.div_le_lower_bound; [done|].
      rewrite <- Z.pow_add_r by lia. by rewrite Z.add_comm. }
    pose proof (round_half_even_ge m k Hk) as Hr.
    destruct (overflows _ _); simpl; [by rewrite Hneg|].
    destruct (0 <=? e + k) eqn:He'.
    + apply Z.leb_le in He'. apply Z.ltb_ge.
      destruct (decide (e + k = 0)) as [H0|H0].
      * rewrite H0. rewrite Z.pow_0_r, Z.mul_1_r.
        assert (He : (0 <=? e) = false) by (apply Z.leb_gt; lia).
        rewrite He in Hle. replace (- e) with k in Hle by lia.
        assert (c ≤ m / 2 ^ k); [|lia].
        apply Z.div_le_lower_bound; [done|lia].
      * assert (2 ≤ 2 ^ (e + k)).
        { change 2 with (2 ^ 1) at 1. apply Z.pow_le_mono_r; lia. }
        assert (2 ^ 53 = 2 ^ 52 * 2) by done. nia.
    + apply Z.leb_gt in He'. apply Z.ltb_ge.
      assert (He : (0 <=? e) = false) by (apply Z.leb_gt; lia).
      rewrite He in Hle.
      replace (- e) with (- (e + k) + k) in Hle by lia.
      rewrite Z.pow_add_r in Hle by lia.
      assert (c * 2 ^ (- (e + k)) ≤ m / 2 ^ k); [|lia].
      apply Z.div_le_lower_bound; [done|lia].
  - destruct (overflows _ _); simpl; [by rewrite Hneg|].
    destruct (0 <=? e); apply Z.ltb_ge; lia.
Qed.

(** On whole numbers of seconds the subtraction is exact and the
    comparison is that of the integers. *)
Lemma fsub_of_int (a b : Z) :
  Z.abs (a - b) < 2 ^ 53 → fsub (of_int a) (of_int b) = of_int (a - b).
Proof.
  intros Hab. unfold fsub, of_int, fround.
  change (Z.min 0 0) with 0. change (0 - 0) with 0.
  rewrite Z.pow_0_r, !Z.mul_1_r.
  assert (Z.log2 (Z.abs (a - b)) < 53) as Hlog.
  { destruct (decide (Z.abs (a - b) = 0)) as [->|]; [done|].
    apply Z.log2_lt_pow2; lia. }
  assert ((0 <? Z.log2 (Z.abs (a - b)) - 52) = false) as ->
    by (apply Z.ltb_ge; lia).
  unfold overflows. change (0 <=? 0) with true.
  rewrite Z.pow_0_r, Z.mul_1_r.
  assert ((2 ^ 1024 <=? Z.abs (a - b)) = false) as ->; [|done].
  apply Z.leb_gt. eapply Z.lt_trans; [exact Hab|done].
Qed.

Lemma flt_int_of_int (a c : Z) : flt_int (of_int a) c = (a <? c).
Proof. unfold flt_int, of_int. simpl. by rewrite Z.mul_1_r. Qed.

(** A reading that is not negative is at least [c] away from [-c]. *)
Lemma fsub_from_minus (m e c : Z) :
  0 ≤ m → 0 ≤ c < 2 ^ 53 →
  flt_int (fsub (Finite m e) (of_int (- c))) c = false.
Proof.
  intros Hm Hc. unfold fsub, of_int. apply fround_ge; [done|].
  destruct (Z.min_spec e 0) as [[He ->]|[He ->]].
  - assert ((0 <=? e) = false) as -> by (apply Z.leb_gt; lia).
    replace (e - e) with 0 by lia. replace (0 - e) with (- e) by lia.
    assert (0 ≤ 2 ^ (- e)) by (apply Z.pow_nonneg; lia).
    rewrite Z.pow_0_r. nia.
  - replace (0 - 0) with 0 by lia. replace (e - 0) with e by lia.
    change (0 <=? 0) with true. cbv iota.
    assert (0 ≤ 2 ^ e) by (apply Z.pow_nonneg; lia).
    rewrite Z.pow_0_r. nia.
Qed.

(** On the sample numbers the subtraction and the comparison with the
    cooldown are those of IEEE 754 binary64. *)
Lemma fsub_agrees_with_binary64 :
  forallb (λ a, forallb (agrees_with_binary64 a) float_samples) float_samples
  = true.
Proof. vm_compute. reflexivity. Qed.

(** What [_init_sounds] leaves: sound attributes and an initialised
    mixer when its [try] block runs to the end, and sound and music
    disabled when it does not; on a new object the four sounds exist
    then exactly when the four files were loaded. *)
Lemma init_sounds_cases (st : GameSettings.t) (completed : nat) :
  let st' := GameSettings._init_sounds st completed in
  GameSettings.repeat_delay st' = GameSettings.repeat_delay st ∧
  GameSettings.show_help st' = GameSettings.show_help st ∧
  if (8 <=? completed)%nat
     || (7 <=? completed)%nat && negb (GameSettings.music_enabled st)
  then audio_ok st' = true ∧
       GameSettings.sound_enabled st' = GameSettings.sound_enabled st ∧
       GameSettings.music_enabled st' = GameSettings.music_enabled st
  else GameSettings.sound_enabled st' = false ∧
       GameSettings.music_enabled st' = false ∧
       (GameSettings.sounds st = [] → GameSettings.mixer_ready st = false →
        audio_ok st' = true ↔ (5 ≤ completed)%nat).
Proof.
  unfold GameSettings._init_sounds, audio_ok, GameSettings.has.
  destruct (GameSettings.music_enabled st);
    do 9 (destruct completed as [|completed];
          [cbn; split; [done|]; split; [done|];
           repeat split; try done; try lia;
           intros;
           repeat match goal with
                  | H : GameSettings.sounds st = _ |- _ => rewrite H in *
                  | H : GameSettings.mixer_ready st = _ |- _ => rewrite H in *
                  end;
           cbn in *; first [done | lia]|]).
  all: cbn; split; [done|]; split; [done|]; repeat split; done.
Qed.

Lemma failed_load_init :
  GameSettings._init_sounds fresh_settings 2 = failed_load.
Proof. reflexivity. Qed.

(** ** Python lists *)

Lemma py_index_in_range {A} (l : list A) (i : Z) :
  0 ≤ i < Z.of_nat (length l) → py_index l i = Some (Z.to_nat i).
Proof.
  intros Hi. unfold py_index.
  destruct (Z.leb_spec 0 i); [|lia].
  destruct (Z.ltb_spec i (Z.of_nat (length l))); [|lia].
  reflexivity.
Qed.

Lemma py_get_in_range {A} (l : list A) (i : Z) :
  0 ≤ i < Z.of_nat (length l) → py_get l i = l !! Z.to_nat i.
Proof. intros Hi. unfold py_get. by rewrite py_index_in_range. Qed.

Lemma py_get_is_Some {A} (l : list A) (i : Z) :
  0 ≤ i < Z.of_nat (length l) → is_Some (py_get l i).
Proof.
  intros Hi. rewrite py_get_in_range by done.
  apply lookup_lt_is_Some. lia.
Qed.

Lemma py_set_in_range {A} (l : list A) (i : Z) (v : A) :
  0 ≤ i < Z.of_nat (length l) → py_set l i v = Some (<[Z.to_nat i := v]> l).
Proof. intros Hi. unfold py_set. by rewrite py_index_in_range. Qed.

Lemma py_index_lt {A} (l : list A) (i : Z) (k : nat) :
  py_index l i = Some k → (k < length l)%nat.
Proof.
  unfold py_index. intros H.
  destruct (Z.leb_spec 0 i), (Z.ltb_spec i (Z.of_nat (length l)));
    simpl in H; try (inversion H; lia);
    destruct (Z.ltb_spec i 0), (Z.leb_spec 0 (Z.of_nat (length l) + i));
    simpl in H; inversion H; lia.
Qed.

Lemma py_set_length {A} (l l' : list A) (i : Z) (v : A) :
  py_set l i v = Some l' → length l' = length l.
Proof.
  unfold py_set. destruct (py_index l i); simpl; [|done].
  intros [= <-]. apply length_insert.
Qed.

(** ** Well-formed grids *)

Lemma wf_grid_length (g : Grid) :
  wf_grid g → Z.of_nat (length g) = Constants.GRID_HEIGHT.
Proof. unfold wf_grid, wf_gridb. intros [H _]%andb_prop. lia. Qed.

Lemma wf_grid_row (g : Grid) (k : nat) (r : list cell) :
  wf_grid g → g !! k = Some r → Z.of_nat (length r) = Constants.GRID_WIDTH.
Proof.
  unfold wf_grid, wf_gridb. intros [_ H]%andb_prop Hk.
  rewrite forallb_forall in H.
  apply Z.eqb_eq, H, list_elem_of_In, list_elem_of_lookup. eauto.
Qed.

Lemma wf_grid_intro (g : Grid) :
  Z.of_nat (length g) = Constants.GRID_HEIGHT →
  (∀ r, r ∈ g → Z.of_nat (length r) = Constants.GRID_WIDTH) →
  wf_grid g.
Proof.
  intros Hl Hr. unfold wf_grid, wf_gridb. apply andb_true_intro. split.
  - lia.
  - apply forallb_forall. intros r Hin%list_elem_of_In. apply Z.eqb_eq. auto.
Qed.

Lemma grid_get_wf (g : Grid) (y_pos x_pos : Z) :
  wf_grid g →
  0 ≤ y_pos < Constants.GRID_HEIGHT →
  0 ≤ x_pos < Constants.GRID_WIDTH →
  ∃ r c, g !! Z.to_nat y_pos = Some r ∧ r !! Z.to_nat x_pos = Some c ∧
         py_get g y_pos = Some r ∧ py_get r x_pos = Some c ∧
         GameState.grid_get g y_pos x_pos = Some c.
Proof.
  intros Hg Hy Hx. pose proof (wf_grid_length g Hg) as Hl.
  destruct (lookup_lt_is_Some_2 g (Z.to_nat y_pos)) as [r Hr]; [lia|].
  pose proof (wf_grid_row g _ r Hg Hr) as Hlr.
  destruct (lookup_lt_is_Some_2 r (Z.to_nat x_pos)) as [c Hc]; [lia|].
  exists r, c. unfold GameState.grid_get.
  rewrite (py_get_in_range g) by lia. rewrite Hr. simpl.
  rewrite (py_get_in_range r) by lia. auto.
Qed.

(** ** Occupied cells *)

Lemma elem_of_cols_from (cells : list Z) (k j : nat) :
  j ∈ cols_from k cells ↔
  ∃ i v, j = (k + i)%nat ∧ cells !! i = Some v ∧ v ≠ 0.
Proof.
  revert k. induction cells as [|v cells IH]; intros k; simpl.
  - split; [intros H; inversion H | intros (i & w & _ & H & _); done].
  - assert (Hrec : j ∈ cols_from (S k) cells ↔
              ∃ i w, j = (k + S i)%nat ∧ cells !! i = Some w ∧ w ≠ 0).
    { rewrite IH. split; intros (i & w & -> & ? & ?); exists i, w;
        (split; [lia | done]). }
    unfold truthy. destruct (Z.eqb_spec v 0) as [->|Hv]; simpl.
    + rewrite Hrec. split.
      * intros (i & w & -> & ? & ?). by exists (S i), w.
      * intros ([|i] & w & -> & Hl & ?); simpl in Hl; [congruence|].
        by exists i, w.
    + rewrite elem_of_cons, Hrec. split.
      * intros [->|(i & w & -> & ? & ?)].
        -- exists 0%nat, v. split; [lia | done].
        -- by exists (S i), w.
      * intros ([|i] & w & -> & Hl & ?); simpl in Hl.
        -- left. lia.
        -- right. by exists i, w.
Qed.

Lemma elem_of_cells_from (rows : Shape) (i row col : nat) :
  (row, col) ∈ cells_from i rows ↔
  ∃ k, row = (i + k)%nat ∧ occupied rows k col.
Proof.
  revert i. induction rows as [|r rows IH]; intros i; simpl.
  - split; [intros H; inversion H|].
    intros (k & _ & r & v & H & _). done.
  - rewrite elem_of_app, list_elem_of_fmap, IH. split.
    + intros [(j & [= -> ->] & Hj)|(k & -> & r' & v & Hr & Hv)].
      * apply elem_of_cols_from in Hj as (c & v & -> & Hc & Hv).
        exists 0%nat. split; [lia|]. by exists r, v.
      * exists (S k). split; [lia|]. by exists r', v.
    + intros ([|k] & -> & r' & v & Hr & Hc & Hv); simpl in Hr.
      * left. injection Hr as ->. exists col. split; [f_equal; lia|].
        apply elem_of_cols_from. by exists col, v.
      * right. exists k. split; [lia|]. by exists r', v.
Qed.

Lemma occupied_cells_spec (s : Shape) (row col : nat) :
  (row, col) ∈ occupied_cells s ↔ occupied s row col.
Proof.
  unfold occupied_cells. rewrite elem_of_cells_from. split.
  - by intros (k & -> & H).
  - intros H. by exists row.
Qed.

Lemma cell_okb_spec (g : Grid) (x_pos y_pos : Z) :
  cell_okb g x_pos y_pos = true ↔ cell_ok g x_pos y_pos.
Proof.
  unfold cell_okb, cell_ok.
  rewrite !andb_true_iff, Z.leb_le, !Z.ltb_lt.
  destruct (Z.leb_spec 0 y_pos) as [Hy|Hy].
  - destruct (GameState.grid_get g y_pos x_pos) as [[|c]|];
      intuition (try lia; congruence).
  - intuition lia.
Qed.

Lemma fitsb_spec (t : Tetrimino.t) (g : Grid) (dx dy : Z) :
  fitsb t g dx dy = true ↔ fits t g dx dy.
Proof.
  unfold fitsb, fits. rewrite forallb_forall. split.
  - intros H row col Hocc. apply cell_okb_spec.
    apply (H (row, col)), list_elem_of_In, occupied_cells_spec, Hocc.
  - intros H [row col] Hin%list_elem_of_In%occupied_cells_spec.
    apply cell_okb_spec, H, Hin.
Qed.

Lemma in_gridb_spec (t : Tetrimino.t) :
  in_gridb t = true ↔ in_grid t.
Proof.
  unfold in_gridb, in_grid. rewrite forallb_forall. split.
  - intros H row col Hocc.
    apply occupied_cells_spec, list_elem_of_In in Hocc.
    specialize (H (row, col) Hocc). simpl in H.
    rewrite !andb_true_iff, !Z.leb_le, !Z.ltb_lt in H. lia.
  - intros H [row col] Hin%list_elem_of_In%occupied_cells_spec. simpl.
    specialize (H row col Hin).
    rewrite !andb_true_iff, !Z.leb_le, !Z.ltb_lt. lia.
Qed.

(** ** [Tetrimino.valid_move] *)

(** The two tests that [valid_move] makes on one occupied cell amount to
    [cell_okb]; [k] stands for the rest of the loop. *)
Lemma valid_move_cell (g : Grid) (x_pos y_pos : Z) (k : option bool) :
  wf_grid g →
  (if (x_pos <? 0) || (x_pos >=? Constants.GRID_WIDTH)
      || (y_pos >=? Constants.GRID_HEIGHT)
   then Some false
   else if y_pos >=? 0 then
     r ← py_get g y_pos;
     c ← py_get r x_pos;
     if cell_truthy c then Some false else k
   else k)
  = if cell_okb g x_pos y_pos then k else Some false.
Proof.
  intros Hg. unfold cell_okb.
  rewrite !Z.geb_leb.
  destruct (Z.ltb_spec x_pos 0), (Z.leb_spec 0 x_pos); try lia; simpl; [done|].
  destruct (Z.leb_spec Constants.GRID_WIDTH x_pos),
    (Z.ltb_spec x_pos Constants.GRID_WIDTH); try lia; simpl; [done|].
  destruct (Z.leb_spec Constants.GRID_HEIGHT y_pos),
    (Z.ltb_spec y_pos Constants.GRID_HEIGHT); try lia; simpl; [done|].
  destruct (Z.leb_spec 0 y_pos); [|done].
  destruct (grid_get_wf g y_pos x_pos Hg) as (r & c & _ & _ & Hr & Hc & Hrc);
    [lia..|].
  rewrite Hrc, Hr. simpl. rewrite Hc. simpl. by destruct c.
Qed.

Lemma valid_move_cols_eq (t : Tetrimino.t) (g : Grid) (dx dy : Z)
    (i : nat) (cells : list Z) (k : nat) :
  wf_grid g →
  Tetrimino.valid_move_cols t g dx dy (Z.of_nat i) cells (Z.of_nat k)
  = Some (forallb (λ j, cell_okb g (Tetrimino.x t + Z.of_nat j + dx)
                                   (Tetrimino.y t + Z.of_nat i + dy))
                  (cols_from k cells)).
Proof.
  intros Hg. revert k. induction cells as [|v cells IH]; intros k; [done|].
  cbn [Tetrimino.valid_move_cols cols_from].
  replace (Z.of_nat k + 1) with (Z.of_nat (S k)) by lia.
  destruct (truthy v); [|apply IH].
  cbv zeta. rewrite valid_move_cell by done. cbn [forallb].
  destruct (cell_okb _ _ _); [apply IH | done].
Qed.

Lemma forallb_fmap {A B} (f : A → B) (p : B → bool) (l : list A) :
  forallb p (f <$> l) = forallb (p ∘ f) l.
Proof. induction l as [|a l IH]; [done|]. simpl. f_equal. exact IH. Qed.

Lemma valid_move_rows_eq (t : Tetrimino.t) (g : Grid) (dx dy : Z)
    (rows : Shape) (i : nat) :
  wf_grid g →
  Tetrimino.valid_move_rows t g dx dy rows (Z.of_nat i)
  = Some (forallb (λ rc, cell_okb g (Tetrimino.x t + Z.of_nat rc.2 + dx)
                                    (Tetrimino.y t + Z.of_nat rc.1 + dy))
                  (cells_from i rows)).
Proof.
  intros Hg. revert i. induction rows as [|r rows IH]; intros i; [done|].
  cbn [Tetrimino.valid_move_rows cells_from].
  change 0 with (Z.of_nat 0) at 1.
  rewrite (valid_move_cols_eq t g dx dy i r 0 Hg). simpl.
  rewrite forallb_app, forallb_fmap. unfold compose. simpl.
  destruct (forallb _ (cols_from 0 r)); simpl; [|done].
  replace (Z.of_nat i + 1) with (Z.of_nat (S i)) by lia. apply IH.
Qed.

(** On a well-formed grid [valid_move] returns, and returns [fitsb]. *)
Lemma valid_move_eq (t : Tetrimino.t) (g : Grid) (dx dy : Z) :
  wf_grid g → Tetrimino.valid_move t g dx dy = Some (fitsb t g dx dy).
Proof.
  intros Hg. unfold Tetrimino.valid_move, fitsb, occupied_cells.
  apply (valid_move_rows_eq t g dx dy (Tetrimino.shape t) 0 Hg).
Qed.

Lemma fitsb_set_pos (t : Tetrimino.t) (g : Grid) (dx dy : Z) :
  fitsb (Tetrimino.set_pos t (Tetrimino.x t + dx) (Tetrimino.y t + dy)) g 0 0
  = fitsb t g dx dy.
Proof.
  unfold fitsb. simpl.
  induction (occupied_cells (Tetrimino.shape t)) as [|[row col] l IH];
    [done|].
  simpl. rewrite IH. do 2 f_equal; lia.
Qed.

Lemma set_shape_restore (t : Tetrimino.t) (s : Shape) :
  Tetrimino.set_shape (Tetrimino.set_shape t s) (Tetrimino.shape t) = t.
Proof. by destruct t. Qed.

(** ** [Tetrimino.move] *)

(** C6.  For every piece, every grid of [GRID_HEIGHT] by [GRID_WIDTH]
    cells and every offset, [valid_move] returns a boolean [b] that is
    true exactly when every occupied cell, moved by the offset, has its
    horizontal position in [0, W), its vertical position below [H] and,
    unless its vertical position is negative, lands on an empty cell;
    [move] returns [b], commits the translation when [b] is true and
    leaves the piece as it is otherwise; and after a committed move
    [valid_move(grid, 0, 0)] is true of the piece. *)
Theorem move_commits_iff_valid (t : Tetrimino.t) (g : Grid) (dx dy : Z) :
  wf_grid g →
  ∃ b : bool,
    Tetrimino.valid_move t g dx dy = Some b ∧
    (b = true ↔ fits t g dx dy) ∧
    Tetrimino.move t g dx dy
    = Some (if b
            then Tetrimino.set_pos t (Tetrimino.x t + dx) (Tetrimino.y t + dy)
            else t,
            b) ∧
    (if b
     then Tetrimino.valid_move
            (Tetrimino.set_pos t (Tetrimino.x t + dx) (Tetrimino.y t + dy))
            g 0 0 = Some true
     else True).
Proof.
  intros Hg. exists (fitsb t g dx dy).
  pose proof (valid_move_eq t g dx dy Hg) as Hv.
  split; [done|]. split; [apply fitsb_spec|]. split.
  - unfold Tetrimino.move. rewrite Hv. simpl. by destruct (fitsb t g dx dy).
  - destruct (fitsb t g dx dy) eqn:Hb; [|done].
    rewrite valid_move_eq by done. by rewrite fitsb_set_pos, Hb.
Qed.

Lemma move_commits_iff_valid_witness :
  wf_grid empty_grid ∧
  ∃ b : bool,
    Tetrimino.valid_move O_piece empty_grid 0 1 = Some b ∧
    (b = true ↔ fits O_piece empty_grid 0 1) ∧
    Tetrimino.move O_piece empty_grid 0 1
    = Some (if b
            then Tetrimino.set_pos O_piece (Tetrimino.x O_piece + 0)
                   (Tetrimino.y O_piece + 1)
            else O_piece,
            b) ∧
    (if b
     then Tetrimino.valid_move
            (Tetrimino.set_pos O_piece (Tetrimino.x O_piece + 0)
               (Tetrimino.y O_piece + 1))
            empty_grid 0 0 = Some true
     else True).
Proof.
  split; [reflexivity|].
  apply (move_commits_iff_valid O_piece empty_grid 0 1). reflexivity.
Defined.

(** ** The rotated shape *)

Lemma rectangular_spec (s : Shape) (R C : nat) :
  rectangular s R C ↔ length s = R ∧ ∀ r, r ∈ s → length r = C.
Proof.
  unfold rectangular, rectangularb.
  rewrite andb_true_iff, Nat.eqb_eq, forallb_forall.
  split; intros [Hl Hr]; (split; [done|]); intros r Hin.
  - apply Nat.eqb_eq, Hr, list_elem_of_In, Hin.
  - apply Nat.eqb_eq, Hr, list_elem_of_In, Hin.
Qed.

Lemma zip_star_rect (rows : Shape) (C : nat) :
  rows ≠ [] →
  (∀ r, r ∈ rows → length r = C) →
  zip_star rows = (λ i, (λ r, nth i r 0) <$> rows) <$> seq 0 C.
Proof.
  induction rows as [|r rows IH]; [done|]. intros _ Hlen.
  assert (Hr : length r = C) by (apply Hlen; left).
  destruct rows as [|r2 rows].
  - simpl. apply list_eq. intros i. rewrite !list_lookup_fmap.
    destruct (decide (i < C)%nat) as [Hi|Hi].
    + rewrite lookup_seq_lt by done. simpl.
      destruct (lookup_lt_is_Some_2 r i) as [a Ha]; [lia|].
      rewrite Ha. simpl. by rewrite (nth_lookup_Some _ _ _ _ Ha).
    + rewrite lookup_seq_ge by lia. rewrite lookup_ge_None_2 by lia. done.
  - change (zip_star (r :: r2 :: rows))
      with (zip_with cons r (zip_star (r2 :: rows))).
    rewrite IH; [|done|intros r' Hin; apply Hlen; by right].
    apply list_eq. intros i. rewrite lookup_zip_with, !list_lookup_fmap.
    destruct (decide (i < C)%nat) as [Hi|Hi].
    + rewrite lookup_seq_lt by done. simpl.
      destruct (lookup_lt_is_Some_2 r i) as [a Ha]; [lia|].
      rewrite Ha. simpl. by rewrite (nth_lookup_Some _ _ _ _ Ha).
    + rewrite lookup_seq_ge by lia. rewrite lookup_ge_None_2 by lia. done.
Qed.

Lemma nth_fmap_seq {A} (f : nat → A) (n k : nat) (d : A) :
  (k < n)%nat → nth k (f <$> seq 0 n) d = f k.
Proof.
  intros Hk. apply nth_lookup_Some.
  rewrite list_lookup_fmap, lookup_seq_lt by done. done.
Qed.

Lemma rectangular_first_row (s : Shape) (R C : nat) :
  rectangular s R C → (0 < R)%nat → length (nth 0 s []) = C.
Proof.
  intros [Hl Hr]%rectangular_spec HR.
  destruct s as [|r s]; simpl in *; [lia|]. apply Hr. left.
Qed.

(** What the code computes is the right rotation:
    [new[i][j] = old[old_rows-1-j][i]]. *)
Lemma rotated_is_right (s : Shape) (R C : nat) :
  rectangular s R C → (0 < R)%nat →
  Tetrimino.rotated s = spec_rotate_right s.
Proof.
  intros Hrect HR. pose proof (rectangular_first_row s R C Hrect HR) as HC.
  apply rectangular_spec in Hrect as [Hl Hr].
  unfold Tetrimino.rotated, spec_rotate_right. rewrite HC, Hl.
  rewrite (zip_star_rect (reverse s) C).
  - apply list_fmap_ext. intros _ i _.
    apply list_eq. intros j. rewrite !list_lookup_fmap.
    destruct (decide (j < R)%nat) as [Hj|Hj].
    + rewrite lookup_seq_lt by done. simpl.
      rewrite reverse_lookup by lia.
      destruct (lookup_lt_is_Some_2 s (length s - S j)) as [r Hrow]; [lia|].
      rewrite Hrow. simpl. do 2 f_equal.
      symmetry. replace (R - 1 - j)%nat with (length s - S j)%nat by lia.
      by apply nth_lookup_Some.
    + rewrite lookup_seq_ge by lia.
      rewrite lookup_ge_None_2; [done|]. rewrite length_reverse. lia.
  - intros Hnil. apply (f_equal length) in Hnil.
    rewrite length_reverse in Hnil. simpl in Hnil. lia.
  - intros r Hin. apply Hr. by rewrite <- elem_of_reverse.
Qed.

Lemma spec_rotate_right_rect (s : Shape) (R C : nat) :
  rectangular s R C → (0 < R)%nat → rectangular (spec_rotate_right s) C R.
Proof.
  intros Hrect HR. pose proof (rectangular_first_row s R C Hrect HR) as HC.
  apply rectangular_spec in Hrect as [Hl Hr]. apply rectangular_spec.
  unfold spec_rotate_right. rewrite HC, Hl. split.
  - by rewrite length_fmap, length_seq.
  - intros r (i & -> & _)%list_elem_of_fmap.
    by rewrite length_fmap, length_seq.
Qed.

(** The left rotation of the specification undoes it. *)
Lemma spec_rotate_left_right (s : Shape) (R C : nat) :
  rectangular s R C → (0 < R)%nat → (0 < C)%nat →
  spec_rotate_left (spec_rotate_right s) = s.
Proof.
  intros Hrect HR HC'.
  pose proof (rectangular_first_row s R C Hrect HR) as HC.
  pose proof (spec_rotate_right_rect s R C Hrect HR) as Hrect'.
  pose proof (rectangular_first_row _ C R Hrect' HC') as HR'.
  apply rectangular_spec in Hrect as [Hl Hr].
  apply rectangular_spec in Hrect' as [Hl' _].
  unfold spec_rotate_left. rewrite HR', Hl'.
  apply list_eq. intros i. rewrite list_lookup_fmap.
  destruct (decide (i < R)%nat) as [Hi|Hi].
  - rewrite lookup_seq_lt by done. simpl.
    destruct (lookup_lt_is_Some_2 s i) as [r Hrow]; [lia|].
    rewrite Hrow. f_equal.
    assert (Hlr : length r = C) by (apply Hr, list_elem_of_lookup; eauto).
    apply list_eq. intros j. rewrite list_lookup_fmap.
    destruct (decide (j < C)%nat) as [Hj|Hj].
    + rewrite lookup_seq_lt by done. simpl.
      unfold spec_rotate_right. rewrite HC, Hl.
      rewrite (nth_fmap_seq _ C j) by done.
      rewrite (nth_fmap_seq _ R (R - 1 - i)) by lia.
      replace (R - 1 - (R - 1 - i))%nat with i by lia.
      rewrite (nth_lookup_Some _ _ _ _ Hrow).
      destruct (lookup_lt_is_Some_2 r j) as [v Hv]; [lia|].
      by rewrite Hv, (nth_lookup_Some _ _ _ _ Hv).
    + rewrite lookup_seq_ge by lia. by rewrite lookup_ge_None_2 by lia.
  - rewrite lookup_seq_ge by lia. by rewrite lookup_ge_None_2 by lia.
Qed.

(** ** [Tetrimino.rotate] *)

Lemma rotate_eq (t : Tetrimino.t) (g : Grid) (st : GameSettings.t) :
  wf_grid g →
  let candidate := Tetrimino.set_shape t (Tetrimino.rotated (Tetrimino.shape t)) in
  Tetrimino.rotate t g st
  = if fitsb candidate g 0 0 then
      if GameSettings.has st rotate_sound
      then Some (candidate, GameSettings.play_sound st rotate_sound)
      else None
    else Some (t, st).
Proof.
  intros Hg candidate. unfold Tetrimino.rotate.
  fold candidate. rewrite valid_move_eq by done. simpl.
  destruct (fitsb candidate g 0 0); simpl.
  - unfold GameSettings.attr. by destruct (GameSettings.has st rotate_sound).
  - unfold candidate. by rewrite set_shape_restore.
Qed.

Lemma rotate_behaves (t : Tetrimino.t) (g : Grid) (st : GameSettings.t) :
  wf_grid g →
  let candidate := Tetrimino.set_shape t (Tetrimino.rotated (Tetrimino.shape t)) in
  behaves (Tetrimino.rotate t g st) (GameSettings.has st rotate_sound)
    (λ r, r = (if fitsb candidate g 0 0 then candidate else t,
               if fitsb candidate g 0 0
               then GameSettings.play_sound st rotate_sound else st)).
Proof.
  intros Hg candidate. rewrite rotate_eq by done. fold candidate.
  destruct (fitsb candidate g 0 0); [|done].
  by destruct (GameSettings.has st rotate_sound).
Qed.

(** C1, as the code has it.  [rotate] computes its candidate shape by a
    quarter turn of the shape matrix (the candidate is the left rotation
    of the matrix or the matrix whose left rotation is the current one),
    and checks the candidate at the current anchor, no other offset being
    tried: if some occupied cell of the candidate is out of bounds or on
    a settled block the piece is as before and the settings are not
    touched, otherwise the candidate is the new shape.  The method
    returns no value.  When the rotation is applied it reads the
    attribute [rotate_sound] of the settings, which raises
    [AttributeError] if [_init_sounds] never set it, and hands the sound
    to [play_sound]: the mixer hears of it only when sound is enabled. *)
Theorem rotate_checks_candidate (t : Tetrimino.t) (g : Grid)
    (st : GameSettings.t) (R C : nat) :
  wf_grid g →
  rectangular (Tetrimino.shape t) R C → (0 < R)%nat → (0 < C)%nat →
  let candidate := Tetrimino.set_shape t (Tetrimino.rotated (Tetrimino.shape t)) in
  rectangular (Tetrimino.shape candidate) C R ∧
  (Tetrimino.shape candidate = spec_rotate_left (Tetrimino.shape t) ∨
   spec_rotate_left (Tetrimino.shape candidate) = Tetrimino.shape t) ∧
  Tetrimino.x candidate = Tetrimino.x t ∧
  Tetrimino.y candidate = Tetrimino.y t ∧
  ∃ applied : bool,
    (applied = true ↔ fits candidate g 0 0) ∧
    Tetrimino.rotate t g st
    = if applied then
        if GameSettings.has st rotate_sound then
          Some (candidate,
                if GameSettings.sound_enabled st
                then GameSettings.to_mixer st (SoundPlay rotate_sound)
                else st)
        else None
      else Some (t, st).
Proof.
  intros Hg Hrect HR HC candidate.
  pose proof (rotated_is_right _ R C Hrect HR) as Hright.
  split; [|split; [|split; [done|split; [done|]]]].
  - simpl. rewrite Hright. by apply spec_rotate_right_rect.
  - right. simpl. rewrite Hright. by apply (spec_rotate_left_right _ R C).
  - exists (fitsb candidate g 0 0). split; [apply fitsb_spec|].
    by rewrite rotate_eq.
Qed.

Lemma rotate_checks_candidate_witness :
  wf_grid empty_grid ∧
  rectangular (Tetrimino.shape L_piece) 2 3 ∧
  let candidate :=
    Tetrimino.set_shape L_piece (Tetrimino.rotated (Tetrimino.shape L_piece)) in
  (∃ applied : bool,
    (applied = true ↔ fits candidate empty_grid 0 0) ∧
    Tetrimino.rotate L_piece empty_grid sound_off
    = if applied then
        if GameSettings.has sound_off rotate_sound then
          Some (candidate,
                if GameSettings.sound_enabled sound_off
                then GameSettings.to_mixer sound_off (SoundPlay rotate_sound)
                else sound_off)
        else None
      else Some (L_piece, sound_off)) ∧
  (∃ applied : bool,
    (applied = true ↔ fits candidate empty_grid 0 0) ∧
    Tetrimino.rotate L_piece empty_grid failed_load
    = if applied then
        if GameSettings.has failed_load rotate_sound then
          Some (candidate,
                if GameSettings.sound_enabled failed_load
                then GameSettings.to_mixer failed_load (SoundPlay rotate_sound)
                else failed_load)
        else None
      else Some (L_piece, failed_load)).
Proof.
  split; [reflexivity|]. split; [reflexivity|]. split.
  - apply (rotate_checks_candidate L_piece empty_grid sound_off 2 3);
      [reflexivity | reflexivity | lia | lia].
  - apply (rotate_checks_candidate L_piece empty_grid failed_load 2 3);
      [reflexivity | reflexivity | lia | lia].
Defined.

(** C1, as the specification has it, fails on the L piece at its spawn
    position on the empty grid.  The left rotation fits there, so
    [spec_rotate] commits it; [rotate] leaves another shape, the right
    rotation.  With sound disabled by the sound button [rotate] hands
    back the settings as they were both when the rotation is applied (the
    L piece) and when it is rejected (an I piece on the floor): no sound
    tells the two apart.  And with settings whose [rotate.wav] did not
    load the applied rotation raises, while the rejected one returns. *)
Lemma rotate_left_counterexample :
  spec_rotate L_piece empty_grid
  = (Tetrimino.set_shape L_piece [[1; 1]; [1; 0]; [1; 0]], true) ∧
  Tetrimino.rotate L_piece empty_grid sound_on
  = Some (Tetrimino.set_shape L_piece [[0; 1]; [0; 1]; [1; 1]],
          GameSettings.to_mixer sound_on (SoundPlay rotate_sound)) ∧
  (¬ ∃ st', Tetrimino.rotate L_piece empty_grid sound_on
            = Some ((spec_rotate L_piece empty_grid).1, st')) ∧
  Tetrimino.rotate L_piece empty_grid sound_off
  = Some (Tetrimino.set_shape L_piece [[0; 1]; [0; 1]; [1; 1]], sound_off) ∧
  Tetrimino.rotate I_on_floor empty_grid sound_off
  = Some (I_on_floor, sound_off) ∧
  Tetrimino.rotate L_piece empty_grid failed_load = None ∧
  Tetrimino.rotate I_on_floor empty_grid failed_load
  = Some (I_on_floor, failed_load).
Proof.
  split; [reflexivity|]. split; [reflexivity|].
  split; [|repeat split; reflexivity].
  intros [st' H]. vm_compute in H. discriminate H.
Qed.

(** ** Frames of [valid_move], [move] and [rotate] *)

Lemma move_eq (t : Tetrimino.t) (g : Grid) (dx dy : Z) :
  wf_grid g →
  Tetrimino.move t g dx dy
  = Some (if fitsb t g dx dy
          then Tetrimino.set_pos t (Tetrimino.x t + dx) (Tetrimino.y t + dy)
          else t,
          fitsb t g dx dy).
Proof.
  intros Hg. unfold Tetrimino.move. rewrite valid_move_eq by done. simpl.
  by destruct (fitsb t g dx dy).
Qed.

Lemma move_current_eq (gs : GameState.t) (dx dy : Z) :
  wf_grid (GameState.grid gs) →
  GameState.move_current gs dx dy
  = Some (GameState.set_current_tetrimino gs
            (if fitsb (GameState.current_tetrimino gs) (GameState.grid gs) dx dy
             then Tetrimino.set_pos (GameState.current_tetrimino gs)
                    (Tetrimino.x (GameState.current_tetrimino gs) + dx)
                    (Tetrimino.y (GameState.current_tetrimino gs) + dy)
             else GameState.current_tetrimino gs)).
Proof.
  intros Hg. unfold GameState.move_current. by rewrite move_eq.
Qed.

Lemma set_current_same (gs : GameState.t) :
  GameState.set_current_tetrimino gs (GameState.current_tetrimino gs) = gs.
Proof. by destruct gs. Qed.

Lemma check_game_over_eq (gs : GameState.t) :
  wf_grid (GameState.grid gs) →
  GameState.check_game_over gs
  = if fitsb (GameState.current_tetrimino gs) (GameState.grid gs) 0 0
    then Some gs
    else if GameSettings.mixer_ready (GameState.settings gs)
            && GameSettings.has (GameState.settings gs) game_over_sound
    then Some (GameState.set_settings (GameState.set_game_over gs true)
                 (GameSettings.play_sound
                    (GameSettings.to_mixer (GameState.settings gs) MusicPause)
                    game_over_sound))
    else None.
Proof.
  intros Hg. unfold GameState.check_game_over.
  rewrite valid_move_eq by done. simpl.
  destruct (fitsb _ _ 0 0); simpl; [done|].
  unfold GameSettings.music_pause.
  destruct (GameSettings.mixer_ready _); simpl; [|done].
  unfold GameSettings.attr, GameSettings.has. simpl.
  by destruct (existsb _ _).
Qed.

Lemma check_game_over_behaves (gs : GameState.t) :
  wf_grid (GameState.grid gs) →
  behaves (GameState.check_game_over gs) (audio_ok (GameState.settings gs))
    (λ gs',
       GameState.grid gs' = GameState.grid gs ∧
       GameState.current_tetrimino gs' = GameState.current_tetrimino gs ∧
       GameState.next_tetrimino gs' = GameState.next_tetrimino gs).
Proof.
  intros Hg. rewrite check_game_over_eq by done.
  destruct (fitsb _ _ 0 0); [done|].
  destruct (GameSettings.mixer_ready _) eqn:Hr; simpl;
    [|by apply not_ready_audio].
  destruct (GameSettings.has _ _) eqn:Hh; simpl; [done|].
  by apply (not_has_audio _ game_over_sound).
Qed.

(** C10.  On a grid of [GRID_HEIGHT] by [GRID_WIDTH] cells:
    [valid_move] returns a boolean and nothing else (the embedding has
    no piece and no grid come back from it, the method assigning to
    neither); a [move] that returns false gives back the piece as it
    was, position and shape; [rotate] gives back a piece with the
    anchor, the colour and the rotation counter it had.  In the game
    state the three calls leave the grid as it is: the validity test at
    the end of a lock changes neither grid nor pieces, the move of the
    current piece changes at most the current piece, and the handler of
    the rotate key changes at most the shape of the current piece and
    the mixer.  The calls that ask for a sound return unless the sound
    was never loaded (for the game-over sound: or the mixer never
    initialised); the frame holds whenever they return. *)
Theorem checks_and_rejections_frame (gs : GameState.t) (env : Env)
    (t : Tetrimino.t) (g : Grid) (st : GameSettings.t) (dx dy : Z) :
  wf_grid g →
  wf_grid (GameState.grid gs) →
  (∃ b : bool, Tetrimino.valid_move t g dx dy = Some b) ∧
  (∃ t' b, Tetrimino.move t g dx dy = Some (t', b) ∧ (b = true ∨ t' = t)) ∧
  behaves (Tetrimino.rotate t g st) (GameSettings.has st rotate_sound)
    (λ r,
       Tetrimino.x r.1 = Tetrimino.x t ∧
       Tetrimino.y r.1 = Tetrimino.y t ∧
       Tetrimino.color r.1 = Tetrimino.color t ∧
       Tetrimino.rotation r.1 = Tetrimino.rotation t) ∧
  behaves (GameState.check_game_over gs) (audio_ok (GameState.settings gs))
    (λ gs',
       GameState.grid gs' = GameState.grid gs ∧
       GameState.current_tetrimino gs' = GameState.current_tetrimino gs ∧
       GameState.next_tetrimino gs' = GameState.next_tetrimino gs) ∧
  (∃ gs', GameState.move_current gs dx dy = Some gs' ∧
     GameState.grid gs' = GameState.grid gs ∧
     (fits (GameState.current_tetrimino gs) (GameState.grid gs) dx dy ∨
      gs' = gs)) ∧
  behaves
    (GameController._handle_event gs env (GameController.KEYDOWN K_UP))
    (GameSettings.has (GameState.settings gs) rotate_sound)
    (λ gs',
       GameState.grid gs' = GameState.grid gs ∧
       GameState.score gs' = GameState.score gs ∧
       GameState.next_tetrimino gs' = GameState.next_tetrimino gs ∧
       Tetrimino.x (GameState.current_tetrimino gs')
       = Tetrimino.x (GameState.current_tetrimino gs) ∧
       Tetrimino.y (GameState.current_tetrimino gs')
       = Tetrimino.y (GameState.current_tetrimino gs) ∧
       Tetrimino.color (GameState.current_tetrimino gs')
       = Tetrimino.color (GameState.current_tetrimino gs)).
Proof.
  intros Hg Hgs.
  split; [|split; [|split; [|split; [|split]]]].
  - exists (fitsb t g dx dy). by apply valid_move_eq.
  - eexists _, _. split; [by apply move_eq|].
    destruct (fitsb t g dx dy); auto.
  - eapply behaves_mono; [|by apply rotate_behaves]. intros r ->.
    by destruct (fitsb _ g 0 0).
  - by apply check_game_over_behaves.
  - eexists. split; [by apply move_current_eq|]. split; [done|].
    destruct (fitsb _ _ dx dy) eqn:Hb.
    + left. by apply fitsb_spec.
    + right. apply set_current_same.
  - simpl. destruct (GameState.paused gs); simpl; [done|].
    rewrite rotate_eq by done.
    destruct (fitsb _ _ 0 0); [|done].
    by destruct (GameSettings.has _ rotate_sound).
Qed.

Lemma checks_and_rejections_frame_witness :
  wf_grid empty_grid ∧
  wf_grid (GameState.grid start_state) ∧
  ∃ t' b, Tetrimino.move O_piece empty_grid (-5) 0 = Some (t', b) ∧
          (b = true ∨ t' = O_piece).
Proof.
  split; [reflexivity|]. split; [reflexivity|].
  apply (checks_and_rejections_frame start_state start_env O_piece
           empty_grid sound_on (-5) 0); reflexivity.
Defined.

Lemma start_state_init :
  GameState.init sound_on start_env = Some start_state.
Proof. reflexivity. Qed.

(** ** Writing the piece into the grid *)

Lemma wf_grid_alter (g : Grid) (f : list cell → list cell) (k : nat) :
  wf_grid g → (∀ r, length (f r) = length r) → wf_grid (alter f k g).
Proof.
  intros Hg Hf. apply wf_grid_intro.
  - rewrite length_alter. by apply wf_grid_length.
  - intros r (i & Hi)%list_elem_of_lookup.
    destruct (decide (i = k)) as [->|Hne].
    + rewrite list_lookup_alter_eq in Hi.
      destruct (g !! k) as [r0|] eqn:Hr0; simpl in Hi; [|done].
      injection Hi as <-. rewrite Hf. by apply (wf_grid_row g k).
    + rewrite list_lookup_alter_ne in Hi by done. by apply (wf_grid_row g i).
Qed.

Lemma grid_set_in_range (g : Grid) (y_pos x_pos : Z) (c : cell) :
  wf_grid g →
  0 ≤ y_pos < Constants.GRID_HEIGHT →
  0 ≤ x_pos < Constants.GRID_WIDTH →
  GameState.grid_set g y_pos x_pos c
  = Some (write_cell c g (Z.to_nat y_pos, Z.to_nat x_pos)).
Proof.
  intros Hg Hy Hx.
  destruct (grid_get_wf g y_pos x_pos Hg Hy Hx)
    as (r & c0 & Hr & Hc & Hpr & _ & _).
  pose proof (wf_grid_length g Hg). pose proof (wf_grid_row g _ r Hg Hr).
  unfold GameState.grid_set. rewrite Hpr. simpl.
  rewrite py_set_in_range by lia. simpl.
  rewrite py_set_in_range by lia. f_equal.
  unfold write_cell. simpl.
  apply list_eq. intros i. destruct (decide (i = Z.to_nat y_pos)) as [->|Hne].
  - rewrite list_lookup_insert_eq by lia.
    by rewrite list_lookup_alter_eq, Hr.
  - rewrite list_lookup_insert_ne by done.
    by rewrite list_lookup_alter_ne.
Qed.

Lemma wf_grid_write_cell (g : Grid) (c : cell) (rc : nat * nat) :
  wf_grid g → wf_grid (write_cell c g rc).
Proof.
  intros Hg. apply wf_grid_alter; [done|]. intros r. apply length_insert.
Qed.

Lemma wf_grid_write_cells (g : Grid) (c : cell) (l : list (nat * nat)) :
  wf_grid g → wf_grid (foldl (write_cell c) g l).
Proof.
  revert g. induction l as [|rc l IH]; intros g Hg; [done|].
  simpl. apply IH. by apply wf_grid_write_cell.
Qed.

Lemma fix_cols_eq (t : Tetrimino.t) (i : nat) (cells : list Z) (k : nat)
    (g : Grid) :
  wf_grid g →
  (∀ j, j ∈ cols_from k cells → covered_in_grid t i j) →
  GameState.fix_cols t g (Z.of_nat i) cells (Z.of_nat k)
  = Some (foldl (write_cell (Filled (Tetrimino.color t))) g
            (covers t <$> ((λ j, (i, j)) <$> cols_from k cells))).
Proof.
  revert k g. induction cells as [|v cells IH]; intros k g Hg Hin; [done|].
  cbn [GameState.fix_cols cols_from] in *.
  replace (Z.of_nat k + 1) with (Z.of_nat (S k)) by lia.
  destruct (truthy v); [|by apply IH].
  destruct (Hin k) as [Hx Hy]; [left|].
  rewrite grid_set_in_range by done. simpl.
  rewrite IH; [done|by apply wf_grid_write_cell|].
  intros j Hj. apply Hin. by right.
Qed.

Lemma fix_rows_eq (t : Tetrimino.t) (rows : Shape) (i : nat) (g : Grid) :
  wf_grid g →
  (∀ rc, rc ∈ cells_from i rows → covered_in_grid t rc.1 rc.2) →
  GameState.fix_rows t g rows (Z.of_nat i)
  = Some (foldl (write_cell (Filled (Tetrimino.color t))) g
            (covers t <$> cells_from i rows)).
Proof.
  revert i g. induction rows as [|r rows IH]; intros i g Hg Hin; [done|].
  cbn [GameState.fix_rows cells_from] in *.
  change 0 with (Z.of_nat 0) at 1.
  rewrite fix_cols_eq; [|done|].
  - simpl. replace (Z.of_nat i + 1) with (Z.of_nat (S i)) by lia.
    rewrite IH.
    + by rewrite fmap_app, foldl_app.
    + by apply wf_grid_write_cells.
    + intros rc Hrc. apply Hin, elem_of_app. by right.
  - intros j Hj. apply (Hin (i, j)), elem_of_app. left.
    apply list_elem_of_fmap. eauto.
Qed.

(** A piece inside the grid is written without any index leaving the
    grid: the Python writes are the writes of [write_piece]. *)
Lemma fix_current_eq (gs : GameState.t) :
  wf_grid (GameState.grid gs) →
  in_grid (GameState.current_tetrimino gs) →
  GameState.fix_current gs
  = Some (GameState.set_grid gs
            (write_piece (GameState.current_tetrimino gs) (GameState.grid gs))).
Proof.
  intros Hg Hin. unfold GameState.fix_current.
  change 0 with (Z.of_nat 0).
  rewrite fix_rows_eq; [done..|].
  intros [row col] Hrc%occupied_cells_spec. by apply Hin.
Qed.

Lemma wf_grid_write_piece (t : Tetrimino.t) (g : Grid) :
  wf_grid g → wf_grid (write_piece t g).
Proof. apply wf_grid_write_cells. Qed.

(** ** [GameState.clear_lines] *)

Lemma has_zero_full (r : list cell) :
  GameState.has_zero r = negb (full_row r).
Proof.
  unfold GameState.has_zero, full_row.
  induction r as [|c r IH]; [done|]. simpl. rewrite IH. by destruct c.
Qed.

Lemma filter_has_zero (g : Grid) :
  List.filter GameState.has_zero g = List.filter (λ r, negb (full_row r)) g.
Proof. apply List.filter_ext. intros r. apply has_zero_full. Qed.

Lemma filter_lengths {A} (p : A → bool) (l : list A) :
  (length (List.filter p l) + length (List.filter (λ a, negb (p a)) l)
   = length l)%nat.
Proof.
  induction l as [|a l IH]; [done|]. simpl.
  destruct (p a); simpl; lia.
Qed.

Lemma lines_cleared_eq (g : Grid) :
  Z.of_nat (length g) = Constants.GRID_HEIGHT →
  Constants.GRID_HEIGHT - Z.of_nat (length (List.filter GameState.has_zero g))
  = Z.of_nat (full_rows g).
Proof.
  intros Hl. rewrite filter_has_zero. unfold full_rows.
  pose proof (filter_lengths full_row g). lia.
Qed.

Lemma clear_lines_eq (gs : GameState.t) :
  Z.of_nat (length (GameState.grid gs)) = Constants.GRID_HEIGHT →
  let n := full_rows (GameState.grid gs) in
  GameState.clear_lines gs
  = if (Z.of_nat n >? 0)
       && negb (GameSettings.has (GameState.settings gs) line_clear_sound)
    then None
    else
      Some (GameState.set_grid
              (if Z.of_nat n >? 0 then
                 GameState.set_score
                   (GameState.set_settings gs
                      (GameSettings.play_sound (GameState.settings gs)
                         line_clear_sound))
                   (GameState.score gs + 50 * (2 ^ Z.of_nat n - 1))
               else gs)
              (replicate n GameState.empty_row
               ++ List.filter (λ r, negb (full_row r)) (GameState.grid gs)),
            Z.of_nat n).
Proof.
  intros Hl n. unfold GameState.clear_lines.
  rewrite lines_cleared_eq by done. fold n.
  rewrite Nat2Z.id, filter_has_zero.
  destruct (Z.of_nat n >? 0); simpl; [|done].
  unfold GameSettings.attr.
  by destruct (GameSettings.has _ line_clear_sound).
Qed.

Lemma clear_lines_removes_full_rows_aux (gs : GameState.t) :
  Z.of_nat (length (GameState.grid gs)) = Constants.GRID_HEIGHT →
  let n := full_rows (GameState.grid gs) in
  behaves (GameState.clear_lines gs)
    ((n =? 0)%nat
     || GameSettings.has (GameState.settings gs) line_clear_sound)
    (λ r,
       r.2 = Z.of_nat n ∧
       GameState.grid r.1
       = replicate n GameState.empty_row
         ++ List.filter (λ r, negb (full_row r)) (GameState.grid gs) ∧
       Z.of_nat (length (GameState.grid r.1)) = Constants.GRID_HEIGHT ∧
       Forall (λ r, r = replicate (Z.to_nat Constants.GRID_WIDTH) Zero)
         (take n (GameState.grid r.1))).
Proof.
  intros Hl n. rewrite clear_lines_eq by done. fold n.
  destruct (_ && _) eqn:Hraise.
  - apply andb_true_iff in Hraise as [Hn Hh]. simpl.
    apply negb_true_iff in Hh. rewrite Hh, orb_false_r.
    apply Nat.eqb_neq. lia.
  - simpl. split; [done|]. split; [done|]. split.
    + rewrite length_app, length_replicate.
      pose proof (filter_lengths full_row (GameState.grid gs)).
      unfold n, full_rows. lia.
    + rewrite take_app_length' by (by rewrite length_replicate).
      apply Forall_forall. intros r Hr%elem_of_replicate. apply Hr.
Qed.

(** C2.  On a grid of [GRID_HEIGHT] rows, [clear_lines] returns the
    number [n] of rows all of whose cells are occupied, and leaves the
    grid made of [n] empty rows followed by the rows that were not full,
    in the order they had: again [GRID_HEIGHT] rows.  (The call returns
    unless a row is full and the line-clear sound was never loaded.) *)
Theorem clear_lines_removes_full_rows (gs : GameState.t) :
  Z.of_nat (length (GameState.grid gs)) = Constants.GRID_HEIGHT →
  let n := full_rows (GameState.grid gs) in
  behaves (GameState.clear_lines gs)
    ((n =? 0)%nat
     || GameSettings.has (GameState.settings gs) line_clear_sound)
    (λ r,
       r.2 = Z.of_nat n ∧
       GameState.grid r.1
       = replicate n GameState.empty_row
         ++ List.filter (λ r, negb (full_row r)) (GameState.grid gs) ∧
       Z.of_nat (length (GameState.grid r.1)) = Constants.GRID_HEIGHT ∧
       Forall (λ r, r = replicate (Z.to_nat Constants.GRID_WIDTH) Zero)
         (take n (GameState.grid r.1))).
Proof. apply clear_lines_removes_full_rows_aux. Qed.

Lemma clear_lines_removes_full_rows_witness :
  Z.of_nat (length (GameState.grid two_full_state)) = Constants.GRID_HEIGHT ∧
  ∃ r, GameState.clear_lines two_full_state = Some r ∧
       r.2 = 2 ∧ GameState.grid r.1 = empty_grid.
Proof.
  split; [reflexivity|].
  destruct (behaves_total _ _ _
              (clear_lines_removes_full_rows two_full_state eq_refl) eq_refl)
    as (r & Hr & Hn & Hg & _).
  exists r. split; [exact Hr|]. split; [exact Hn | exact Hg].
Defined.

Lemma wf_grid_cleared (g : Grid) : wf_grid g → wf_grid (cleared g).
Proof.
  intros Hg. apply wf_grid_intro.
  - unfold cleared. rewrite length_app, length_replicate.
    pose proof (filter_lengths full_row g). pose proof (wf_grid_length g Hg).
    unfold full_rows. lia.
  - intros r [Hr|Hr]%elem_of_app.
    + apply elem_of_replicate in Hr as [-> _]. reflexivity.
    + apply list_elem_of_In, filter_In in Hr as [Hr _].
      apply list_elem_of_In, list_elem_of_lookup in Hr as [i Hi].
      by apply (wf_grid_row g i).
Qed.

(** ** New pieces *)

Lemma new_tetrimino_ok (shape_idx : Z) :
  0 ≤ shape_idx ≤ Z.of_nat (length Constants.SHAPES) - 1 →
  ∃ t, GameState.new_tetrimino shape_idx = Some t ∧
       piece_okb t = true ∧ Tetrimino.y t = 0.
Proof.
  simpl. intros H.
  assert (shape_idx = 0 ∨ shape_idx = 1 ∨ shape_idx = 2 ∨ shape_idx = 3 ∨
          shape_idx = 4 ∨ shape_idx = 5 ∨ shape_idx = 6) as Hc by lia.
  destruct Hc as [->|[->|[->|[->|[->|[->| ->]]]]]];
    (eexists; split; [reflexivity | split; reflexivity]).
Qed.

(** ** The locking branch of [update] *)

(** The speed after [lines_cleared] more lines, and the lines that are
    left to count. *)
Lemma count_lines_fields (gs : GameState.t) (lines_cleared : Z) :
  let total := GameState.total_lines_cleared gs + lines_cleared in
  GameState.falling_speed (GameState.count_lines gs lines_cleared)
  = (if total >=? 10 then Z.max 100 (GameState.falling_speed gs - 50)
     else GameState.falling_speed gs) ∧
  GameState.total_lines_cleared (GameState.count_lines gs lines_cleared)
  = (if total >=? 10 then total - 10 else total).
Proof.
  unfold GameState.count_lines. simpl.
  by destruct (_ >=? 10).
Qed.

Lemma lock_fields (gs : GameState.t) (env : Env) :
  wf_grid (GameState.grid gs) →
  in_grid (GameState.current_tetrimino gs) →
  GameController.draws_ok env →
  let g1 := write_piece (GameState.current_tetrimino gs) (GameState.grid gs) in
  let n := Z.of_nat (full_rows g1) in
  let total := GameState.total_lines_cleared gs + n in
  behaves (GameState.lock gs env) (audio_ok (GameState.settings gs))
    (λ gs',
    GameState.grid gs' = cleared g1 ∧
    GameState.score gs'
    = (if n >? 0 then GameState.score gs + 50 * (2 ^ n - 1)
       else GameState.score gs) ∧
    GameState.falling_speed gs'
    = (if total >=? 10 then Z.max 100 (GameState.falling_speed gs - 50)
       else GameState.falling_speed gs) ∧
    GameState.total_lines_cleared gs'
    = (if total >=? 10 then total - 10 else total) ∧
    GameState.current_tetrimino gs' = GameState.next_tetrimino gs ∧
    GameState.new_tetrimino (randint env 0%nat)
    = Some (GameState.next_tetrimino gs') ∧
    GameState.game_over gs'
    = (if fitsb (GameState.next_tetrimino gs) (cleared g1) 0 0
       then GameState.game_over gs else true) ∧
    GameState.paused gs' = GameState.paused gs ∧
    GameState.last_skill_time gs' = GameState.last_skill_time gs ∧
    GameState.held_keys gs' = GameState.held_keys gs ∧
    GameState.last_move_time gs' = GameState.last_move_time gs ∧
    GameState.move_delay gs' = GameState.move_delay gs ∧
    same_audio (GameState.settings gs) (GameState.settings gs')).
Proof.
  intros Hg Hin Henv g1 n total.
  destruct (new_tetrimino_ok (randint env 0%nat) (Henv 0%nat))
    as (nxt & Hnxt & _).
  unfold GameState.lock. rewrite fix_current_eq by done.
  cbn [mbind option_bind]. fold g1. rewrite clear_lines_eq;
    [|simpl; by apply wf_grid_length, wf_grid_write_piece].
  cbv zeta.
  cbn [GameState.grid GameState.set_grid GameState.set_last_fall_time
       GameState.settings].
  fold g1. fold n.
  destruct (GameSettings.has (GameState.settings gs) line_clear_sound) eqn:Hl;
    destruct (n >? 0) eqn:Hn; cbn [andb negb mbind option_bind];
    try (by apply (not_has_audio _ line_clear_sound)).
  all: rewrite Hnxt; cbn [mbind option_bind].
  all: rewrite check_game_over_eq;
    [|unfold GameState.count_lines; simpl;
      destruct (_ >=? 10); simpl; apply wf_grid_cleared;
      by apply wf_grid_write_piece].
  all: unfold GameState.count_lines; simpl; fold total;
    destruct (total >=? 10); simpl; fold g1; fold (cleared g1);
    destruct (fitsb (GameState.next_tetrimino gs) (cleared g1) 0 0) eqn:Hf;
    simpl; rewrite ?Hf.
  all: try (repeat split; first [done | apply play_sound_audio]).
  all: rewrite ?play_sound_ready, ?play_sound_has.
  all: destruct (GameSettings.mixer_ready (GameState.settings gs)) eqn:Hr;
    simpl; [|by apply not_ready_audio].
  all: destruct (GameSettings.has (GameState.settings gs) game_over_sound)
    eqn:Hh; simpl; [|by apply (not_has_audio _ game_over_sound)].
  all: rewrite ?Hf; repeat split; try done.
  all: repeat first [ apply same_audio_refl
                    | apply play_sound_audio
                    | eapply same_audio_trans; [|apply play_sound_audio]
                    | eapply same_audio_trans; [|apply to_mixer_audio] ].
Qed.

(** ** The invariant *)

Lemma piece_okb_spec (t : Tetrimino.t) : piece_okb t = true ↔ piece_ok t.
Proof.
  unfold piece_okb, piece_ok.
  by rewrite andb_true_iff, Z.leb_le, in_gridb_spec.
Qed.

Lemma inv_spec (gs : GameState.t) :
  inv gs ↔
  wf_grid (GameState.grid gs) ∧
  piece_ok (GameState.current_tetrimino gs) ∧
  piece_ok (GameState.next_tetrimino gs) ∧
  Tetrimino.y (GameState.next_tetrimino gs) = 0 ∧
  100 ≤ GameState.falling_speed gs.
Proof.
  unfold inv, invb.
  rewrite !andb_true_iff, !piece_okb_spec, Z.leb_le, Z.eqb_eq.
  unfold wf_grid. tauto.
Qed.

Lemma inv_fields (gs gs' : GameState.t) :
  GameState.grid gs' = GameState.grid gs →
  GameState.current_tetrimino gs' = GameState.current_tetrimino gs →
  GameState.next_tetrimino gs' = GameState.next_tetrimino gs →
  GameState.falling_speed gs' = GameState.falling_speed gs →
  inv gs → inv gs'.
Proof. unfold inv, invb. by intros -> -> -> ->. Qed.

Lemma fits_piece_ok (t : Tetrimino.t) (g : Grid) (dx dy : Z) :
  fits t g dx dy → 0 ≤ Tetrimino.y t + dy →
  piece_ok (Tetrimino.set_pos t (Tetrimino.x t + dx) (Tetrimino.y t + dy)).
Proof.
  intros Hf Hy. split; [done|]. intros row col Hocc.
  destruct (Hf row col Hocc) as (Hx & Hh & _). simpl. lia.
Qed.

Lemma fits_here_piece_ok (t : Tetrimino.t) (g : Grid) :
  fits t g 0 0 → 0 ≤ Tetrimino.y t → piece_ok t.
Proof.
  intros Hf Hy. split; [done|]. intros row col Hocc.
  destruct (Hf row col Hocc) as (Hx & Hh & _). lia.
Qed.

Lemma same_board_refl (gs : GameState.t) : same_board gs gs.
Proof. by repeat split. Qed.

Lemma same_board_trans (gs1 gs2 gs3 : GameState.t) :
  same_board gs1 gs2 → same_board gs2 gs3 → same_board gs1 gs3.
Proof.
  unfold same_board. intros H1 H2.
  destruct H1 as (?&?&?&?&?&?&?&?), H2 as (?&?&?&?&?&?&?&?).
  repeat split; congruence.
Qed.

Lemma quiet_refl (gs : GameState.t) : quiet gs gs.
Proof. split; [apply same_board_refl|]. split; [done|lia]. Qed.

Lemma quiet_trans (gs1 gs2 gs3 : GameState.t) :
  quiet gs1 gs2 → quiet gs2 gs3 → quiet gs1 gs3.
Proof.
  intros (Hb1 & Hf1 & Hy1) (Hb2 & Hf2 & Hy2).
  split; [by apply (same_board_trans _ gs2)|]. split; [congruence|lia].
Qed.

Lemma same_board_inv (gs gs' : GameState.t) :
  same_board gs gs' →
  piece_ok (GameState.current_tetrimino gs') →
  inv gs → inv gs'.
Proof.
  intros (Hg & _ & _ & Hn & Hs & _) Hp (? & ? & ? & ? & ?)%inv_spec.
  apply inv_spec. rewrite Hg, Hn, Hs. done.
Qed.

(** A move of the current piece to the side or downwards. *)
Lemma move_current_ok (gs : GameState.t) (dx dy : Z) :
  inv gs → 0 ≤ dy →
  ∃ gs', GameState.move_current gs dx dy = Some gs' ∧
         inv gs' ∧ quiet gs gs' ∧
         GameState.settings gs' = GameState.settings gs.
Proof.
  intros Hinv Hdy. pose proof Hinv as (Hg & [Hy Hc] & _)%inv_spec.
  rewrite move_current_eq by done. eexists. split; [done|].
  assert (same_board gs (GameState.set_current_tetrimino gs
            (if fitsb (GameState.current_tetrimino gs) (GameState.grid gs) dx dy
             then Tetrimino.set_pos (GameState.current_tetrimino gs)
                    (Tetrimino.x (GameState.current_tetrimino gs) + dx)
                    (Tetrimino.y (GameState.current_tetrimino gs) + dy)
             else GameState.current_tetrimino gs))) as Hsame
    by by repeat split.
  split; [|split; [split; [done|split; [done|]]|done]].
  - apply (same_board_inv gs); [done| |done]. simpl.
    destruct (fitsb _ _ dx dy) eqn:Hf; [|done].
    apply fitsb_spec in Hf. apply (fits_piece_ok _ _ _ _ Hf). lia.
  - simpl. destruct (fitsb _ _ dx dy); simpl; lia.
Qed.

Lemma held_key_step_ok (now : Z) (gs : GameState.t) (key : MoveKey) :
  inv gs →
  ∃ gs', GameState.held_key_step now gs key = Some gs' ∧
         inv gs' ∧ quiet gs gs' ∧
         GameState.settings gs' = GameState.settings gs.
Proof.
  intros Hinv. unfold GameState.held_key_step.
  destruct (dict_get (GameState.held_keys gs) key);
    [|exists gs; by auto using quiet_refl].
  match goal with |- context [if ?c then _ else Some gs] => destruct c end;
    [|exists gs; by auto using quiet_refl].
  destruct (move_current_ok gs (GameState.key_offset key).1
              (GameState.key_offset key).2 Hinv)
    as (gs1 & -> & Hinv1 & Hq & Hst); [by destruct key|].
  cbn [mbind option_bind]. eexists. split; [done|].
  split; [|split; [|done]].
  - by apply (inv_fields gs1).
  - apply (quiet_trans _ gs1); [done|]. split; [by repeat split|].
    split; [done|simpl; lia].
Qed.

Lemma keys_phase_ok (gs : GameState.t) (env : Env) :
  inv gs →
  ∃ gs', keys_phase gs env = Some gs' ∧
         inv gs' ∧ quiet gs gs' ∧
         GameState.settings gs' = GameState.settings gs.
Proof.
  intros Hinv. unfold keys_phase.
  generalize [MK_LEFT; MK_RIGHT; MK_DOWN]. intros ks.
  revert gs Hinv. induction ks as [|k ks IH]; intros gs Hinv.
  - exists gs. by auto using quiet_refl.
  - simpl.
    destruct (held_key_step_ok (get_ticks env) gs k Hinv)
      as (gs1 & -> & Hinv1 & Hq1 & Hst1).
    simpl. destruct (IH gs1 Hinv1) as (gs2 & -> & Hinv2 & Hq2 & Hst2).
    exists gs2. split; [done|]. split; [done|].
    split; [by apply (quiet_trans _ gs1)|congruence].
Qed.

(** ** [GameState.clear_last_three_rows] *)

Lemma elem_of_py_range (a b i : Z) : i ∈ py_range a b ↔ a ≤ i < b.
Proof.
  unfold py_range. rewrite list_elem_of_fmap. split.
  - intros (k & -> & Hk%elem_of_seq). lia.
  - intros Hi. exists (Z.to_nat (i - a)). split; [lia|].
    apply elem_of_seq. lia.
Qed.

Lemma any_block_row_spec (g : Grid) (y : Z) (xs : list Z) :
  wf_grid g →
  0 ≤ y < Constants.GRID_HEIGHT →
  (∀ x, x ∈ xs → 0 ≤ x < Constants.GRID_WIDTH) →
  ∃ b : bool,
    GameState.any_block_row g y xs = Some b ∧
    (b = true ↔ ∃ x c, x ∈ xs ∧ GameState.grid_get g y x = Some (Filled c)).
Proof.
  intros Hg Hy. induction xs as [|x xs IH]; intros Hxs.
  - exists false. split; [done|]. split; [done|].
    intros (x & c & Hx & _). inversion Hx.
  - destruct (grid_get_wf g y x Hg Hy) as (_ & c & _ & _ & _ & _ & Hc);
      [apply Hxs; left|].
    simpl. rewrite Hc. simpl. destruct c as [|c]; simpl.
    + destruct IH as (b & -> & Hb); [intros x' Hx'; apply Hxs; by right|].
      exists b. split; [done|]. rewrite Hb. split.
      * intros (x' & c' & Hx' & Hc'). exists x', c'. split; [by right|done].
      * intros (x' & c' & [->|Hx']%elem_of_cons & Hc'); [congruence|].
        by exists x', c'.
    + exists true. split; [done|]. split; [|done].
      intros _. exists x, c. split; [left|done].
Qed.

Lemma any_block_spec (g : Grid) (ys xs : list Z) :
  wf_grid g →
  (∀ y, y ∈ ys → 0 ≤ y < Constants.GRID_HEIGHT) →
  (∀ x, x ∈ xs → 0 ≤ x < Constants.GRID_WIDTH) →
  ∃ b : bool,
    GameState.any_block g ys xs = Some b ∧
    (b = true ↔
     ∃ y x c, y ∈ ys ∧ x ∈ xs ∧ GameState.grid_get g y x = Some (Filled c)).
Proof.
  intros Hg Hys Hxs. induction ys as [|y ys IH].
  - exists false. split; [done|]. split; [done|].
    intros (y & _ & _ & Hy & _). inversion Hy.
  - destruct (any_block_row_spec g y xs Hg) as (b1 & Hb1 & Hiff1);
      [apply Hys; left|done|].
    simpl. rewrite Hb1. simpl. destruct b1.
    + exists true. split; [done|]. split; [|done]. intros _.
      destruct Hiff1 as [(x & c & Hx & Hc) _]; [done|].
      exists y, x, c. split; [left|done].
    + destruct IH as (b & -> & Hb); [intros y' Hy'; apply Hys; by right|].
      exists b. split; [done|]. rewrite Hb. split.
      * intros (y' & x & c & Hy' & Hx). exists y', x, c. split; [by right|done].
      * intros (y' & x & c & [->|Hy']%elem_of_cons & Hx & Hc).
        -- assert (false = true); [|done]. apply Hiff1. eauto.
        -- by exists y', x, c.
Qed.

Lemma zero_row_spec (g : Grid) (y : Z) (xs : list Z) :
  wf_grid g →
  0 ≤ y < Constants.GRID_HEIGHT →
  (∀ x, x ∈ xs → 0 ≤ x < Constants.GRID_WIDTH) →
  ∃ g', GameState.zero_row g y xs = Some g' ∧ wf_grid g' ∧
        ∀ k, k ≠ Z.to_nat y → g' !! k = g !! k.
Proof.
  intros Hg Hy. revert g Hg. induction xs as [|x xs IH]; intros g Hg Hxs.
  - by exists g.
  - simpl. rewrite grid_set_in_range; [|done..|apply Hxs; left].
    simpl.
    destruct (IH (write_cell Zero g (Z.to_nat y, Z.to_nat x)))
      as (g' & -> & Hg' & Hk);
      [by apply wf_grid_write_cell|intros x' Hx'; apply Hxs; by right|].
    exists g'. split; [done|]. split; [done|].
    intros k Hne. rewrite Hk by done. unfold write_cell. simpl.
    by rewrite list_lookup_alter_ne.
Qed.

Lemma zero_rows_spec (g : Grid) (ys xs : list Z) :
  wf_grid g →
  (∀ y, y ∈ ys → 0 ≤ y < Constants.GRID_HEIGHT) →
  (∀ x, x ∈ xs → 0 ≤ x < Constants.GRID_WIDTH) →
  ∃ g', GameState.zero_rows g ys xs = Some g' ∧ wf_grid g' ∧
        ∀ k, (∀ y, y ∈ ys → k ≠ Z.to_nat y) → g' !! k = g !! k.
Proof.
  intros Hg Hys Hxs. revert g Hg. induction ys as [|y ys IH]; intros g Hg.
  - by exists g.
  - simpl. destruct (zero_row_spec g y xs Hg) as (g1 & -> & Hg1 & Hk1);
      [apply Hys; left|done|].
    simpl. destruct (IH (λ y' Hy', Hys y' (list_elem_of_further _ _ _ Hy')) g1 Hg1)
      as (g' & -> & Hg' & Hk).
    exists g'. split; [done|]. split; [done|].
    intros k Hne. rewrite Hk, Hk1; [done| |].
    + apply Hne. left.
    + intros y' Hy'. apply Hne. by right.
Qed.

Lemma take_top_unchanged (g g' : Grid) :
  wf_grid g → wf_grid g' →
  (∀ k, (∀ y, y ∈ py_range (Constants.GRID_HEIGHT - 3) Constants.GRID_HEIGHT →
              k ≠ Z.to_nat y) → g' !! k = g !! k) →
  GameState.drop_last 3 g' = take (Z.to_nat (Constants.GRID_HEIGHT - 3)) g.
Proof.
  intros Hg Hg' Hk. unfold GameState.drop_last.
  pose proof (wf_grid_length g' Hg') as Hl.
  replace (length g' - 3)%nat with (Z.to_nat (Constants.GRID_HEIGHT - 3)) by lia.
  apply list_eq. intros k.
  destruct (decide (k < Z.to_nat (Constants.GRID_HEIGHT - 3))%nat) as [Hlt|Hge].
  - rewrite !lookup_take_lt by done. apply Hk.
    intros y Hy%elem_of_py_range. lia.
  - by rewrite !lookup_take_ge by lia.
Qed.

(** The grid after a row-crush. *)
Lemma wf_grid_crushed (g : Grid) :
  wf_grid g →
  wf_grid (replicate 3 GameState.empty_row
           ++ take (Z.to_nat (Constants.GRID_HEIGHT - 3)) g).
Proof.
  intros Hg. apply wf_grid_intro.
  - rewrite length_app, length_replicate, length_take.
    pose proof (wf_grid_length _ Hg).
    unfold Constants.GRID_HEIGHT in *. lia.
  - intros r [Hr|Hr]%elem_of_app.
    + apply elem_of_replicate in Hr as [-> _]. reflexivity.
    + apply list_elem_of_lookup in Hr as [i Hi].
      apply lookup_take_Some in Hi as [Hi _].
      by apply (wf_grid_row _ i r Hg).
Qed.

Lemma clear_last_three_rows_eq (gs : GameState.t) (env : Env) :
  wf_grid (GameState.grid gs) →
  ∃ fired : bool,
    (fired = true ↔
     flt_int (fsub (time_time env) (GameState.last_skill_time gs))
       Constants.SKILL_COOLDOWN = false ∧
     bottom_block (GameState.grid gs)) ∧
    GameState.clear_last_three_rows gs env
    = if fired then
        if GameSettings.has (GameState.settings gs) special_skill_sound
        then Some (crushed gs (time_time env), true)
        else None
      else Some (gs, false).
Proof.
  intros Hg. unfold GameState.clear_last_three_rows.
  destruct (flt_int _ _) eqn:Hcool.
  { exists false. split; [|done]. split; [done|]. by intros [? _]. }
  change (Constants.GRID_HEIGHT <? 3) with false. cbv iota.
  assert (Hys : ∀ y, y ∈ py_range (Constants.GRID_HEIGHT - 3)
                       Constants.GRID_HEIGHT → 0 ≤ y < Constants.GRID_HEIGHT).
  { intros y Hy%elem_of_py_range. unfold Constants.GRID_HEIGHT in *. lia. }
  assert (Hxs : ∀ x, x ∈ py_range 0 Constants.GRID_WIDTH →
                     0 ≤ x < Constants.GRID_WIDTH).
  { by intros x Hx%elem_of_py_range. }
  destruct (any_block_spec (GameState.grid gs) _ _ Hg Hys Hxs)
    as (b & Hb & Hiff).
  cbv zeta. rewrite Hb. cbn [mbind option_bind].
  assert (b = true ↔ bottom_block (GameState.grid gs)) as Hbb.
  { rewrite Hiff. unfold bottom_block. split.
    - intros (y & x & c & Hy%elem_of_py_range & Hx%elem_of_py_range & Hc).
      by exists y, x, c.
    - intros (y & x & c & Hy & Hx & Hc). exists y, x, c.
      by rewrite !elem_of_py_range. }
  destruct b; cbn [negb].
  - destruct (zero_rows_spec (GameState.grid gs) _ _ Hg Hys Hxs)
      as (g' & -> & Hg' & Hk).
    cbn [mbind option_bind]. exists true. split; [tauto|].
    rewrite (take_top_unchanged (GameState.grid gs) g') by done.
    cbn [GameState.settings GameState.set_last_skill_time
         GameState.set_score GameState.set_grid].
    unfold GameSettings.attr.
    by destruct (GameSettings.has _ special_skill_sound).
  - exists false. split; [|done]. split; [done|].
    intros [_ Hbl]. by apply Hbb.
Qed.


Lemma clear_last_three_rows_inv (gs : GameState.t) (env : Env) :
  inv gs →
  behaves (GameState.clear_last_three_rows gs env)
    (audio_ok (GameState.settings gs))
    (λ r, inv r.1 ∧
          GameState.falling_speed r.1 = GameState.falling_speed gs ∧
          GameState.current_tetrimino r.1 = GameState.current_tetrimino gs).
Proof.
  intros Hinv. pose proof Hinv as (Hg & Hrest)%inv_spec.
  destruct (clear_last_three_rows_eq gs env Hg) as (fired & _ & ->).
  destruct fired; [|done].
  destruct (GameSettings.has _ special_skill_sound) eqn:Hh;
    [|by apply (not_has_audio _ special_skill_sound)].
  simpl. split; [|done]. apply inv_spec. split; [|by apply Hrest].
  by apply wf_grid_crushed.
Qed.

(** ** [GameState.update] and the steps of the controller *)

Lemma fall_eq (gs : GameState.t) (env : Env) :
  wf_grid (GameState.grid gs) →
  GameState.fall gs env
  = if fall_due gs env then
      if fitsb (GameState.current_tetrimino gs) (GameState.grid gs) 0 1 then
        Some (GameState.set_last_fall_time
                (GameState.set_current_tetrimino gs
                   (Tetrimino.set_pos (GameState.current_tetrimino gs)
                      (Tetrimino.x (GameState.current_tetrimino gs) + 0)
                      (Tetrimino.y (GameState.current_tetrimino gs) + 1)))
                (get_ticks env))
      else
        gs' ← GameState.lock gs env;
        Some (GameState.set_last_fall_time gs' (get_ticks env))
    else Some gs.
Proof.
  intros Hg. unfold GameState.fall, fall_due.
  destruct (_ >? _); [|done].
  rewrite move_eq by done. cbn [mbind option_bind fst snd].
  destruct (fitsb _ _ 0 1); cbn [negb]; [done|].
  by rewrite set_current_same.
Qed.

Lemma update_eq (gs : GameState.t) (env : Env) :
  GameState.update gs env
  = if GameState.paused gs || GameState.game_over gs then Some gs
    else gs1 ← keys_phase gs env; GameState.fall gs1 env.
Proof. reflexivity. Qed.

Lemma lock_inv (gs : GameState.t) (env : Env) :
  inv gs → GameController.draws_ok env →
  behaves (GameState.lock gs env) (audio_ok (GameState.settings gs))
    (λ gs', inv gs' ∧
            100 ≤ GameState.falling_speed gs' ≤ GameState.falling_speed gs ∧
            Tetrimino.y (GameState.current_tetrimino gs') = 0).
Proof.
  intros (Hg & [Hy Hc] & Hn & Hyn & Hs)%inv_spec Henv.
  eapply behaves_mono; [|by apply lock_fields].
  intros gs' (Hgrid & _ & Hspeed & _ & Hcur & Hnew & _).
  destruct (new_tetrimino_ok _ (Henv 0%nat)) as (nxt & Hnxt & Hok & Hy0).
  rewrite Hnxt in Hnew. injection Hnew as Hnew. subst nxt.
  assert (100 ≤ GameState.falling_speed gs' ≤ GameState.falling_speed gs)
    as Hsp by (rewrite Hspeed; destruct (_ >=? 10); lia).
  split; [|split; [done|by rewrite Hcur]].
  apply inv_spec. rewrite Hgrid, Hcur.
  split; [by apply wf_grid_cleared, wf_grid_write_piece|].
  split; [done|]. split; [by apply piece_okb_spec|]. split; [done|lia].
Qed.

Lemma fall_ok (gs : GameState.t) (env : Env) :
  inv gs → GameController.draws_ok env →
  behaves (GameState.fall gs env) (audio_ok (GameState.settings gs))
    (λ gs', inv gs' ∧
            GameState.falling_speed gs' ≤ GameState.falling_speed gs ∧
            (Tetrimino.y (GameState.current_tetrimino gs)
             ≤ Tetrimino.y (GameState.current_tetrimino gs') ∨
             Tetrimino.y (GameState.current_tetrimino gs') = 0)).
Proof.
  intros Hinv Henv. pose proof Hinv as (Hg & [Hy Hc] & _)%inv_spec.
  rewrite fall_eq by done.
  destruct (fall_due gs env); [|simpl; split; [done|lia]].
  destruct (fitsb _ _ 0 1) eqn:Hf.
  - simpl. split; [|lia].
    apply inv_spec. apply inv_spec in Hinv as (? & ? & ? & ? & ?). simpl.
    split; [done|]. split; [|done].
    apply fitsb_spec in Hf. apply (fits_piece_ok _ _ _ _ Hf). lia.
  - eapply behaves_bind; [by apply lock_inv|].
    intros gs' (Hinv' & Hsp & Hy'). simpl.
    split; [by apply (inv_fields gs')|]. split; [lia|by right].
Qed.

Lemma update_ok (gs : GameState.t) (env : Env) :
  inv gs → GameController.draws_ok env →
  behaves (GameState.update gs env) (audio_ok (GameState.settings gs))
    (λ gs', inv gs' ∧
            GameState.falling_speed gs' ≤ GameState.falling_speed gs ∧
            (Tetrimino.y (GameState.current_tetrimino gs)
             ≤ Tetrimino.y (GameState.current_tetrimino gs') ∨
             Tetrimino.y (GameState.current_tetrimino gs') = 0)).
Proof.
  intros Hinv Henv. rewrite update_eq.
  destruct (_ || _); [simpl; split; [done|lia]|].
  destruct (keys_phase_ok gs env Hinv)
    as (gs1 & -> & Hinv1 & ((_&_&_&_&Hs&_) & _ & Hy1) & Hst).
  cbn [mbind option_bind]. rewrite <- Hst.
  eapply behaves_mono; [|by apply fall_ok].
  intros gs' (Hinv' & Hsp & Hy'). split; [done|]. split; lia.
Qed.

Lemma reset_ok (gs : GameState.t) (env : Env) :
  GameController.draws_ok env →
  ∃ gs', GameState.reset gs env = Some gs' ∧ inv gs' ∧
         Tetrimino.y (GameState.current_tetrimino gs') = 0.
Proof.
  intros Henv. unfold GameState.reset.
  destruct (new_tetrimino_ok _ (Henv 0%nat)) as (cur & -> & Hcur & Hy0).
  destruct (new_tetrimino_ok _ (Henv 1%nat)) as (nxt & -> & Hnxt & Hy1).
  cbn [mbind option_bind]. eexists. split; [done|]. split; [|done].
  unfold inv, invb. cbn [GameState.grid GameState.current_tetrimino
    GameState.next_tetrimino GameState.falling_speed].
  rewrite Hcur, Hnxt, Hy1. reflexivity.
Qed.

Lemma init_ok (settings : GameSettings.t) (env : Env) (gs : GameState.t) :
  GameController.draws_ok env →
  GameState.init settings env = Some gs → inv gs.
Proof.
  intros Henv. unfold GameState.init.
  destruct (new_tetrimino_ok _ (Henv 0%nat)) as (cur & -> & Hcur & Hy0).
  destruct (new_tetrimino_ok _ (Henv 1%nat)) as (nxt & -> & Hnxt & Hy1).
  cbn [mbind option_bind]. intros [= <-].
  unfold inv, invb. cbn [GameState.grid GameState.current_tetrimino
    GameState.next_tetrimino GameState.falling_speed].
  rewrite Hcur, Hnxt, Hy1. reflexivity.
Qed.

Lemma rotate_current_ok (gs : GameState.t) :
  inv gs →
  behaves (Tetrimino.rotate (GameState.current_tetrimino gs)
             (GameState.grid gs) (GameState.settings gs))
    (audio_ok (GameState.settings gs))
    (λ r,
       inv (GameState.set_settings
              (GameState.set_current_tetrimino gs r.1) r.2) ∧
       Tetrimino.y r.1 = Tetrimino.y (GameState.current_tetrimino gs)).
Proof.
  intros Hinv. pose proof Hinv as (Hg & [Hy Hc] & Hn & Hyn & Hs)%inv_spec.
  eapply behaves_ok; [apply (audio_ok_has _ rotate_sound)|].
  eapply behaves_mono; [|by apply rotate_behaves]. intros r ->. simpl.
  split; [|by destruct (fitsb _ _ 0 0)].
  apply inv_spec. simpl. split; [done|]. split; [|done].
  destruct (fitsb _ _ 0 0) eqn:Hf; [|done].
  apply fitsb_spec in Hf. by apply (fits_here_piece_ok _ _ Hf).
Qed.

Lemma safe_audio (gs : GameState.t) (env : Env) (st : GameController.Step) :
  safe gs env st = true → audio_ok (GameState.settings gs) = true.
Proof. unfold safe. by intros [? _]%andb_true_iff. Qed.

Lemma leaves_unsafe (gs : GameState.t) (env : Env) (st : GameController.Step) :
  leaves env st = true → safe gs env st = false.
Proof. unfold safe. intros ->. apply andb_false_r. Qed.

Lemma toggle_music_behaves (st : GameSettings.t) :
  behaves (GameSettings.toggle_music st) (audio_ok st)
    (λ st', same_audio st st' ∧
            GameSettings.sound_enabled st' = GameSettings.sound_enabled st ∧
            GameSettings.repeat_delay st' = GameSettings.repeat_delay st).
Proof.
  unfold GameSettings.toggle_music, GameSettings.music_pause. simpl.
  destruct (GameSettings.music_enabled st); simpl.
  - destruct (GameSettings.mixer_ready st) eqn:Hr; simpl; [done|].
    by apply not_ready_audio.
  - by destruct (_ && _).
Qed.

Lemma handle_event_ok (gs : GameState.t) (env : Env)
    (event : GameController.Event) :
  inv gs → GameController.draws_ok env →
  behaves (GameController._handle_event gs env event)
    (safe gs env (GameController.Handle event))
    (λ gs', inv gs' ∧
         (resets (GameController.Handle event) = true ∨
          GameState.falling_speed gs' ≤ GameState.falling_speed gs) ∧
         (Tetrimino.y (GameState.current_tetrimino gs)
          ≤ Tetrimino.y (GameState.current_tetrimino gs') ∨
          Tetrimino.y (GameState.current_tetrimino gs') = 0)).
Proof.
  intros Hinv Henv.
  set (post := λ gs', inv gs' ∧
         (resets (GameController.Handle event) = true ∨
          GameState.falling_speed gs' ≤ GameState.falling_speed gs) ∧
         (Tetrimino.y (GameState.current_tetrimino gs)
          ≤ Tetrimino.y (GameState.current_tetrimino gs') ∨
          Tetrimino.y (GameState.current_tetrimino gs') = 0)).
  assert (Hsame : post gs).
  { split; [done|]. split; [right|left]; lia. }
  assert (Hmove : ∀ k ok, behaves
            (GameState.move_current
              (GameState.set_last_move_time
                 (GameState.set_held_keys gs
                    (dict_set (GameState.held_keys gs) k true))
                 (dict_set (GameState.last_move_time gs) k (get_ticks env)))
              (GameState.key_offset k).1 (GameState.key_offset k).2)
            ok post).
  { intros k ok.
    destruct (move_current_ok
                 (GameState.set_last_move_time
                    (GameState.set_held_keys gs
                       (dict_set (GameState.held_keys gs) k true))
                    (dict_set (GameState.last_move_time gs) k (get_ticks env)))
                 (GameState.key_offset k).1 (GameState.key_offset k).2)
      as (gs' & -> & Hinv' & ((_&_&_&_&Hs&_) & _ & Hy') & _);
      [by apply (inv_fields gs) | by destruct k | ].
    split; [done|]. simpl in *. split; [right|left]; lia. }
  destruct event as [key|key| | |delay].
  - destruct key;
      cbn [GameController._handle_event GameController.move_key];
      try (destruct (GameState.paused gs) eqn:Hp; cbn [negb];
           [exact Hsame|]);
      try apply Hmove.
    + by apply leaves_unsafe.
    + eapply behaves_bind;
        [eapply behaves_ok; [apply safe_audio|by apply rotate_current_ok]|].
      intros r [Hinv' Hy']. split; [done|].
      simpl. split; [right|left]; lia.
    + destruct (reset_ok gs env Henv) as (gs' & -> & Hinv' & Hy').
      split; [done|]. split; [by left|by right].
    + split; [by apply (inv_fields gs)|].
      simpl. split; [right|left]; lia.
    + destruct (settings_file_removable env) eqn:Hf; [exact Hsame|].
      apply leaves_unsafe. simpl. by rewrite Hf.
    + destruct (high_score_file_writable env) eqn:Hf; [exact Hsame|].
      apply leaves_unsafe. simpl. by rewrite Hf.
    + eapply behaves_bind;
        [eapply behaves_ok;
           [apply safe_audio|by apply clear_last_three_rows_inv]|].
      intros r (Hinv' & Hs & Hc). split; [done|].
      rewrite Hs, Hc. split; [right|left]; lia.
    + exact Hsame.
  - cbn [GameController._handle_event].
    destruct (GameController.move_key key); [|exact Hsame].
    split; [by apply (inv_fields gs)|].
    simpl. split; [right|left]; lia.
  - cbn [GameController._handle_event].
    eapply behaves_bind;
      [eapply behaves_ok; [apply safe_audio|apply toggle_music_behaves]|].
    intros st' _. split; [by apply (inv_fields gs)|].
    simpl. split; [right|left]; lia.
  - split; [by apply (inv_fields gs)|].
    simpl. split; [right|left]; lia.
  - split; [by apply (inv_fields gs)|].
    simpl. split; [right|left]; lia.
Qed.

Lemma step_ok (gs : GameState.t) (env : Env) (st : GameController.Step) :
  inv gs → GameController.draws_ok env →
  behaves (GameController.step gs env st) (safe gs env st)
    (λ gs', inv gs' ∧
         (resets st = true ∨
          GameState.falling_speed gs' ≤ GameState.falling_speed gs) ∧
         (Tetrimino.y (GameState.current_tetrimino gs)
          ≤ Tetrimino.y (GameState.current_tetrimino gs') ∨
          Tetrimino.y (GameState.current_tetrimino gs') = 0)).
Proof.
  intros Hinv Henv. destruct st as [|event|]; simpl.
  - destruct (reset_ok gs env Henv) as (gs' & -> & Hinv' & Hy').
    split; [done|]. split; [by left|by right].
  - by apply handle_event_ok.
  - eapply behaves_ok; [apply safe_audio|].
    eapply behaves_mono; [|by apply update_ok].
    intros gs' (Hinv' & Hs & Hy'). by auto.
Qed.

Lemma reachable_inv (gs : GameState.t) :
  GameController.reachable gs → inv gs.
Proof.
  induction 1 as [settings env gs Henv Hinit|gs env st gs' _ IH Henv Hstep].
  - by apply (init_ok settings env).
  - by destruct (behaves_returns _ _ _ _ (step_ok gs env st IH Henv) Hstep).
Qed.

(** ** Scoring and speed *)

(** C3.  At a lock the score grows by [50 * (2^n - 1)] when [n >= 1]
    rows are full after the piece is written, which is the number of
    lines cleared: by 50, 150, 350, 750 for 1, 2, 3, 4 lines; and by
    nothing when no row is full.  (The lock returns unless a sound it
    asks for was never loaded.) *)
Theorem lock_awards_points (gs : GameState.t) (env : Env) :
  inv gs → GameController.draws_ok env →
  let n :=
    Z.of_nat (full_rows (write_piece (GameState.current_tetrimino gs)
                           (GameState.grid gs))) in
  behaves (GameState.lock gs env) (audio_ok (GameState.settings gs))
    (λ gs',
    GameState.score gs' - GameState.score gs
    = (if n =? 0 then 0 else 50 * (2 ^ n - 1)) ∧
    GameState.score gs' - GameState.score gs
    = match n with
      | 0 => 0
      | 1 => 50
      | 2 => 150
      | 3 => 350
      | 4 => 750
      | _ => 50 * (2 ^ n - 1)
      end).
Proof.
  intros (Hg & [_ Hc] & _)%inv_spec Henv n.
  eapply behaves_mono; [|by apply lock_fields].
  intros gs' (_ & Hscore & _). fold n in Hscore.
  assert (GameState.score gs' - GameState.score gs
          = (if n =? 0 then 0 else 50 * (2 ^ n - 1))) as Heq.
  { rewrite Hscore. destruct (Z.gtb_spec n 0), (Z.eqb_spec n 0); lia. }
  split; [done|]. rewrite Heq.
  destruct n as [|[[[|[]|]|[[]|[]|]|]|[[]|[]|]|]|]; try done.
Qed.

Lemma lock_awards_points_witness :
  inv landing_state ∧
  ∃ gs', GameState.lock landing_state landing_env = Some gs' ∧
         GameState.score gs' - GameState.score landing_state = 150.
Proof.
  split; [reflexivity|].
  destruct (behaves_total _ _ _
              (lock_awards_points landing_state landing_env eq_refl
                 ltac:(intros k; simpl; lia)) eq_refl)
    as (gs' & Hlock & _ & Hscore).
  exists gs'. split; [exact Hlock | exact Hscore].
Defined.

(** C4.  At a lock the lines cleared are added to the running total.
    When the total has reached 10 the falling speed becomes
    [max(100, speed - 50)], 50 ms less but not below 100 ms, and the
    total loses exactly 10, the rest being carried; otherwise speed and
    total stay.  Three locks of four lines each in a new game leave the
    total at 2 after one speed-up to 450 ms.  The speed of a game state
    never goes up in a step that is not a reset.  (A lock returns unless
    a sound it asks for was never loaded; a step returns unless,
    besides, it is the Escape key or an H or S key whose file operation
    raises.) *)
Theorem speed_up_every_ten_lines (gs : GameState.t) (env : Env)
    (st : GameController.Step) :
  inv gs → GameController.draws_ok env →
  let n :=
    Z.of_nat (full_rows (write_piece (GameState.current_tetrimino gs)
                           (GameState.grid gs))) in
  let total := GameState.total_lines_cleared gs + n in
  behaves (GameState.lock gs env) (audio_ok (GameState.settings gs))
    (λ gs',
     (if total >=? 10
      then GameState.falling_speed gs'
           = Z.max 100 (GameState.falling_speed gs - 50) ∧
           GameState.total_lines_cleared gs' = total - 10
      else GameState.falling_speed gs' = GameState.falling_speed gs ∧
           GameState.total_lines_cleared gs' = total) ∧
     100 ≤ GameState.falling_speed gs' ≤ GameState.falling_speed gs ∧
     (if (total >=? 10) && (150 <=? GameState.falling_speed gs)
      then GameState.falling_speed gs' = GameState.falling_speed gs - 50
      else True)) ∧
  behaves (GameController.step gs env st) (safe gs env st)
    (λ gs'',
     if resets st then GameState.falling_speed gs'' = 500
     else GameState.falling_speed gs'' ≤ GameState.falling_speed gs) ∧
  (let s3 :=
     GameState.count_lines
       (GameState.count_lines (GameState.count_lines start_state 4) 4) 4 in
   GameState.total_lines_cleared s3 = 2 ∧ GameState.falling_speed s3 = 450).
Proof.
  intros Hinv Henv n total.
  pose proof Hinv as (Hg & [_ Hc] & _ & _ & Hs)%inv_spec.
  split; [|split; [|done]].
  - eapply behaves_mono; [|by apply lock_fields].
    intros gs' (_ & _ & Hspeed & Htotal & _).
    fold n in Hspeed, Htotal. fold total in Hspeed, Htotal.
    rewrite Hspeed, Htotal.
    destruct (total >=? 10); simpl.
    + split; [done|]. split; [lia|].
      destruct (Z.leb_spec 150 (GameState.falling_speed gs)); [lia|done].
    + split; [done|]. split; [lia|done].
  - pose proof (step_ok gs env st Hinv Henv) as Hok.
    destruct (GameController.step gs env st) as [gs''|] eqn:Hstep;
      [|exact Hok].
    destruct Hok as (_ & Hsp & _). simpl.
    destruct (resets st) eqn:Hr.
    + destruct st as [|[[]| | | |]|]; try discriminate Hr; simpl in Hstep;
        unfold GameState.reset in Hstep;
        destruct (GameState.new_tetrimino _); simpl in Hstep;
        try discriminate Hstep;
        destruct (GameState.new_tetrimino _); simpl in Hstep;
        try discriminate Hstep;
        by injection Hstep as <-.
    + by destruct Hsp.
Qed.

Lemma speed_up_every_ten_lines_witness :
  inv landing_state ∧
  ∃ gs', GameState.lock landing_state landing_env = Some gs' ∧
         GameState.falling_speed gs' = 450 ∧
         GameState.total_lines_cleared gs' = 0.
Proof.
  split; [reflexivity|].
  destruct (speed_up_every_ten_lines landing_state landing_env
              GameController.Frame eq_refl ltac:(intros k; simpl; lia))
    as (Hlock & _).
  destruct (behaves_total _ _ _ Hlock eq_refl) as (gs' & Heq & Hrule & _).
  exists gs'. split; [exact Heq | exact Hrule].
Defined.

(** ** Game over *)

Lemma update_halted (s : GameState.t) (envs : list Env) :
  GameState.paused s || GameState.game_over s = true →
  for_each GameState.update s envs = Some s.
Proof.
  intros Hh. induction envs as [|env envs IH]; [done|].
  simpl. rewrite update_eq, Hh. exact IH.
Qed.

(** C7.  A state that is paused or over is left as it is, whole, by
    every later call of [update], however many.  In a state that is
    neither, [update] sets [game_over] exactly when the piece, after the
    held keys are served, is due to fall, cannot fall and is locked, and
    the piece promoted from the preview is not valid at offset (0, 0) on
    the grid with the locked piece written and the full rows cleared.
    ([update] returns unless the lock asks for a sound that was never
    loaded.) *)
Theorem game_over_after_lock (gs : GameState.t) (env : Env) :
  inv gs → GameController.draws_ok env →
  GameState.paused gs = false → GameState.game_over gs = false →
  (∀ (s : GameState.t) (envs : list Env),
     GameState.paused s || GameState.game_over s = true →
     for_each GameState.update s envs = Some s) ∧
  ∃ gs1,
    keys_phase gs env = Some gs1 ∧
    behaves (GameState.update gs env) (audio_ok (GameState.settings gs))
      (λ gs',
    (GameState.game_over gs' = true ↔
     lands gs1 env = true ∧
     Tetrimino.valid_move (GameState.current_tetrimino gs')
       (GameState.grid gs') 0 0 = Some false) ∧
    (if lands gs1 env
     then GameState.current_tetrimino gs' = GameState.next_tetrimino gs1 ∧
          GameState.grid gs'
          = cleared (write_piece (GameState.current_tetrimino gs1)
                       (GameState.grid gs1))
     else GameState.grid gs' = GameState.grid gs ∧
          GameState.score gs' = GameState.score gs)).
Proof.
  intros Hinv Henv Hp Ho. split; [apply update_halted|].
  rewrite update_eq, Hp, Ho. cbn [orb].
  destruct (keys_phase_ok gs env Hinv)
    as (gs1 & -> & Hinv1 & ((Hg1&Hsc1&_&_&_&_&Ho1&_) & _) & Hst).
  cbn [mbind option_bind]. exists gs1. split; [done|].
  pose proof Hinv1 as (Hwf & [_ Hc] & _)%inv_spec.
  rewrite fall_eq by done. unfold lands.
  rewrite Ho in Ho1.
  destruct (fall_due gs1 env); cbn [andb].
  2:{ simpl. split; [|done].
      rewrite Ho1. split; [done|]. by intros [? _]. }
  destruct (fitsb _ _ 0 1); cbn [negb].
  { simpl. split; [|done].
    rewrite Ho1. split; [done|]. by intros [? _]. }
  rewrite <- Hst.
  eapply behaves_bind; [by apply lock_fields|].
  intros gs2 (Hgrid & _ & _ & _ & Hcur & _ & Hover & _).
  cbn [behaves GameState.set_last_fall_time GameState.game_over GameState.grid
       GameState.current_tetrimino].
  rewrite Hover, Hcur, Hgrid, Ho1.
  rewrite valid_move_eq by (by apply wf_grid_cleared, wf_grid_write_piece).
  split; [|done].
  destruct (fitsb _ _ 0 0); split; try done.
  - by intros [_ ?].
Qed.

Lemma game_over_after_lock_witness :
  inv top_out_state ∧
  ∃ gs', GameState.update top_out_state landing_env = Some gs' ∧
         GameState.game_over gs' = true.
Proof.
  split; [reflexivity|].
  destruct (game_over_after_lock top_out_state landing_env eq_refl
              ltac:(intros k; simpl; lia) eq_refl eq_refl)
    as (_ & gs1 & Hk & Hu).
  destruct (behaves_total _ _ _ Hu eq_refl) as (gs' & Heq & _).
  exists gs'. split; [exact Heq|].
  vm_compute in Heq. injection Heq as <-. reflexivity.
Defined.

(** ** [GameState.reset] *)

(** C8, as the code has it.  [reset] leaves the grid empty, the score
    at 0, the falling speed at 500 ms, the count of lines at 0, both
    flags cleared, the pieces that two calls of [new_tetrimino] make as
    current and preview piece, and the time of last use of the
    row-crush at minus the cooldown, -45, whatever the present time: the
    cooldown is over at every clock reading that is not negative. *)
Theorem reset_reinitializes (gs : GameState.t) (env : Env) :
  GameController.draws_ok env →
  ∃ gs' cur nxt,
    GameState.reset gs env = Some gs' ∧
    GameState.new_tetrimino (randint env 0%nat) = Some cur ∧
    GameState.new_tetrimino (randint env 1%nat) = Some nxt ∧
    GameState.current_tetrimino gs' = cur ∧
    GameState.next_tetrimino gs' = nxt ∧
    GameState.grid gs'
    = replicate (Z.to_nat Constants.GRID_HEIGHT)
        (replicate (Z.to_nat Constants.GRID_WIDTH) Zero) ∧
    GameState.score gs' = 0 ∧
    GameState.falling_speed gs' = 500 ∧
    GameState.total_lines_cleared gs' = 0 ∧
    GameState.game_over gs' = false ∧
    GameState.paused gs' = false ∧
    GameState.last_skill_time gs' = of_int (- Constants.SKILL_COOLDOWN) ∧
    ∀ now : float,
      not_negative now →
      flt_int (fsub now (GameState.last_skill_time gs'))
        Constants.SKILL_COOLDOWN = false.
Proof.
  intros Henv. unfold GameState.reset.
  destruct (new_tetrimino_ok _ (Henv 0%nat)) as (cur & -> & _).
  destruct (new_tetrimino_ok _ (Henv 1%nat)) as (nxt & -> & _).
  cbn [mbind option_bind]. eexists _, cur, nxt.
  repeat (split; [reflexivity|]).
  intros now Hnow. cbn [GameState.last_skill_time].
  destruct now as [m e|negative|]; [|by simpl in *; subst|done].
  by apply fsub_from_minus.
Qed.

Lemma reset_reinitializes_witness :
  GameController.draws_ok later_env ∧
  ∃ gs', GameState.reset landing_state later_env = Some gs' ∧
         GameState.grid gs' = empty_grid ∧
         GameState.last_skill_time gs' = of_int (-45).
Proof.
  assert (GameController.draws_ok later_env) as Henv
    by (intros k; simpl; lia).
  split; [exact Henv|].
  destruct (reset_reinitializes landing_state later_env Henv)
    as (gs' & cur & nxt & Hr & _ & _ & _ & _ & Hg & _ & _ & _ & _ & _ & Ht & _).
  exists gs'. split; [exact Hr|]. split; [exact Hg | exact Ht].
Defined.

(** C8, as the specification has it, fails: after a reset at the clock
    reading 1000 s the time of last use is -45 s, a negative number, not
    1000 s minus the cooldown, which is 955 s. *)
Lemma reset_cooldown_counterexample :
  ∃ gs', GameState.reset landing_state later_env = Some gs' ∧
         GameState.last_skill_time gs' = of_int (-45) ∧
         fsub (time_time later_env) (of_int Constants.SKILL_COOLDOWN)
         = of_int 955 ∧
         flt_int (GameState.last_skill_time gs') 0 = true ∧
         flt_int (fsub (time_time later_env) (of_int Constants.SKILL_COOLDOWN))
           0 = false.
Proof.
  eexists. split; [reflexivity|]. repeat split; reflexivity.
Qed.

(** ** The lock never leaves the grid *)

(** C9.  In every game state that a run of the controller reaches, the
    anchor of the current piece has [y >= 0], and every occupied cell of
    the piece has [0 <= y + row < GRID_HEIGHT] and
    [0 <= x + col < GRID_WIDTH]; so the loop that locks the piece
    succeeds and writes each cell at the row and column counted from the
    top left corner, no index being negative or past the end.  Every
    step from such a state returns (unless it is the Escape key, an H or
    S key whose file operation raises, or a request for a sound that was
    never loaded), and after it the piece is not higher than before
    unless it is a new piece, at [y = 0]. *)
Theorem lock_writes_inside_grid (gs : GameState.t) :
  GameController.reachable gs →
  0 ≤ Tetrimino.y (GameState.current_tetrimino gs) ∧
  (∀ row col,
     occupied (Tetrimino.shape (GameState.current_tetrimino gs)) row col →
     0 ≤ Tetrimino.y (GameState.current_tetrimino gs) + Z.of_nat row
       < Constants.GRID_HEIGHT ∧
     0 ≤ Tetrimino.x (GameState.current_tetrimino gs) + Z.of_nat col
       < Constants.GRID_WIDTH) ∧
  wf_grid (GameState.grid gs) ∧
  GameState.fix_current gs
  = Some (GameState.set_grid gs
            (write_piece (GameState.current_tetrimino gs) (GameState.grid gs))) ∧
  ∀ (env : Env) (st : GameController.Step),
    GameController.draws_ok env →
    behaves (GameController.step gs env st) (safe gs env st)
      (λ gs',
         Tetrimino.y (GameState.current_tetrimino gs)
         ≤ Tetrimino.y (GameState.current_tetrimino gs') ∨
         Tetrimino.y (GameState.current_tetrimino gs') = 0).
Proof.
  intros Hinv%reachable_inv.
  pose proof Hinv as (Hg & [Hy Hc] & _)%inv_spec.
  split; [done|]. split; [|split; [done|split]].
  - intros row col Hocc. destruct (Hc row col Hocc). done.
  - by apply fix_current_eq.
  - intros env st Henv.
    eapply behaves_mono; [|by apply step_ok].
    by intros gs' (_ & _ & Hy').
Qed.

Lemma lock_writes_inside_grid_witness :
  GameController.reachable start_state ∧
  GameState.fix_current start_state
  = Some (GameState.set_grid start_state
            (write_piece (GameState.current_tetrimino start_state)
               (GameState.grid start_state))).
Proof.
  assert (GameController.reachable start_state) as Hr.
  { apply (GameController.reachable_init sound_on start_env).
    - intros k. simpl. lia.
    - reflexivity. }
  split; [exact Hr|].
  apply (lock_writes_inside_grid start_state Hr).
Defined.


(** The row-crush at the rounding boundary.  The doubles nearest to 0.3
    and to 45.3 differ by less than 45, and their difference as Python
    computes it is 45.0: a second row-crush at the reading 45.3 after
    one at 0.3 fires. *)
Lemma row_crush_rounds_the_elapsed_time :
  let t1 := Finite 5404319552844595 (-54) in
  let t2 := Finite 6375408222496358 (-47) in
  6375408222496358 * 2 ^ 7 - 5404319552844595 < 45 * 2 ^ 54 ∧
  fsub t2 t1 = Finite 6333186975989760 (-47) ∧
  6333186975989760 = 45 * 2 ^ 47 ∧
  (r1 ← GameState.clear_last_three_rows six_rows_state
          (mkEnv 0 t1 (λ _, 3) true true);
   r2 ← GameState.clear_last_three_rows r1.1
          (mkEnv 0 t2 (λ _, 3) true true);
   Some (r1.2, r2.2, GameState.score r2.1))
  = Some (true, true, 200).
Proof.
  split; [vm_compute; reflexivity|]. split; [vm_compute; reflexivity|].
  split; [vm_compute; reflexivity|]. vm_compute. reflexivity.
Qed.

(** * Further properties *)

(** ** What the lock writes *)

Lemma cell_at_write_cell (g : Grid) (c : cell) (rc : nat * nat) (r k : nat) :
  wf_grid g →
  (Z.of_nat rc.1 < Constants.GRID_HEIGHT) →
  (Z.of_nat rc.2 < Constants.GRID_WIDTH) →
  cell_at (write_cell c g rc) r k
  = if decide ((r, k) = rc) then Some c else cell_at g r k.
Proof.
  intros Hg Hr Hc. destruct rc as [r0 k0].
  cbn [fst snd] in Hr, Hc.
  pose proof (wf_grid_length g Hg) as Hl.
  destruct (lookup_lt_is_Some_2 g r0) as [row Hrow]; [lia|].
  pose proof (wf_grid_row g r0 row Hg Hrow) as Hlr.
  unfold cell_at, write_cell. cbn [fst snd].
  case_decide as Heq.
  - injection Heq as -> ->.
    rewrite list_lookup_alter_eq, Hrow. simpl.
    by rewrite list_lookup_insert_eq by lia.
  - destruct (decide (r = r0)) as [->|Hne].
    + rewrite list_lookup_alter_eq, Hrow. simpl.
      rewrite list_lookup_insert_ne; [done|congruence].
    + by rewrite list_lookup_alter_ne.
Qed.

Lemma cell_at_write_cells (c : cell) (l : list (nat * nat)) (g : Grid)
    (r k : nat) :
  wf_grid g →
  (∀ rc, rc ∈ l → Z.of_nat rc.1 < Constants.GRID_HEIGHT ∧
                  Z.of_nat rc.2 < Constants.GRID_WIDTH) →
  cell_at (foldl (write_cell c) g l) r k
  = if decide ((r, k) ∈ l) then Some c else cell_at g r k.
Proof.
  revert g. induction l as [|rc l IH]; intros g Hg Hl.
  - cbn [foldl]. destruct (decide ((r, k) ∈ [])) as [H|_]; [inversion H|done].
  - cbn [foldl]. destruct (Hl rc) as [Hr Hc]; [left|].
    rewrite IH; [|by apply wf_grid_write_cell|intros ??; apply Hl; by right].
    rewrite cell_at_write_cell by done.
    destruct (decide ((r, k) ∈ l)) as [Hin|Hnin];
      destruct (decide ((r, k) = rc)) as [Heq|Hne];
      destruct (decide ((r, k) ∈ rc :: l)) as [Hin'|Hnin']; try done.
    + exfalso. apply Hnin'. by right.
    + exfalso. apply Hnin'. by right.
    + exfalso. apply Hnin'. subst rc. left.
    + apply elem_of_cons in Hin' as [?|?]; congruence.
Qed.

Lemma elem_of_covers (t : Tetrimino.t) (r k : nat) :
  piece_ok t →
  (r, k) ∈ covers t <$> occupied_cells (Tetrimino.shape t) ↔ covered t r k.
Proof.
  intros [Hy Hin]. rewrite list_elem_of_fmap. split.
  - intros ([row col] & Heq & Hocc%occupied_cells_spec).
    destruct (Hin row col Hocc). unfold covers in Heq. simpl in Heq.
    injection Heq as -> ->. exists row, col. split; [done|]. lia.
  - intros (row & col & Hocc & Hr & Hc). exists (row, col).
    split; [|by apply occupied_cells_spec].
    unfold covers. simpl. f_equal; lia.
Qed.

Lemma cell_at_write_piece (t : Tetrimino.t) (g : Grid) (r k : nat) :
  wf_grid g → piece_ok t →
  (covered t r k →
   cell_at (write_piece t g) r k = Some (Filled (Tetrimino.color t))) ∧
  (¬ covered t r k → cell_at (write_piece t g) r k = cell_at g r k).
Proof.
  intros Hg Hok. unfold write_piece.
  rewrite cell_at_write_cells; [|done|].
  - case_decide as Hin; rewrite (elem_of_covers t r k Hok) in Hin;
      split; intros; done.
  - intros rc ([row col] & -> & Hocc%occupied_cells_spec)%list_elem_of_fmap.
    destruct Hok as [Hy Hin]. destruct (Hin row col Hocc).
    unfold covers. simpl. lia.
Qed.

(** X1.  The loop that locks the piece, run in a state of the
    invariant, changes the grid and nothing else; in the grid every cell
    under an occupied entry of the piece holds the colour of the piece
    afterwards, and every other cell holds what it held. *)
Theorem lock_loop_writes_the_piece (gs : GameState.t) :
  inv gs →
  ∃ g1,
    GameState.fix_current gs = Some (GameState.set_grid gs g1) ∧
    wf_grid g1 ∧
    ∀ r k : nat,
      (covered (GameState.current_tetrimino gs) r k →
       cell_at g1 r k
       = Some (Filled (Tetrimino.color (GameState.current_tetrimino gs)))) ∧
      (¬ covered (GameState.current_tetrimino gs) r k →
       cell_at g1 r k = cell_at (GameState.grid gs) r k).
Proof.
  intros (Hg & Hok & _)%inv_spec. eexists. split; [|split].
  - apply fix_current_eq; [done|apply Hok].
  - by apply wf_grid_write_piece.
  - intros r k. by apply cell_at_write_piece.
Qed.

Lemma lock_loop_writes_the_piece_witness :
  inv landing_state ∧
  ∃ g1,
    GameState.fix_current landing_state
    = Some (GameState.set_grid landing_state g1) ∧
    wf_grid g1.
Proof.
  split; [reflexivity|].
  destruct (lock_loop_writes_the_piece landing_state) as (g1 & Hf & Hw & _);
    [reflexivity|].
  exists g1. split; [exact Hf | exact Hw].
Defined.

(** ** The pieces in play *)

Lemma orientations_closed :
  forallb (λ sc : Shape * Color,
             bool_decide ((Tetrimino.rotated sc.1, sc.2) ∈ piece_orientations))
          piece_orientations = true.
Proof. vm_compute. reflexivity. Qed.

Lemma orientations_small :
  forallb (λ sc : Shape * Color,
             (length sc.1 <=? 4)%nat && (0 <? length sc.1)%nat
             && (blocks sc.1 =? 4)%nat
             && (rectangularb sc.1 (length sc.1) (length (nth 0 sc.1 []))))
          piece_orientations = true.
Proof. vm_compute. reflexivity. Qed.

Lemma knownb_elem (t : Tetrimino.t) :
  knownb t = true ↔
  In (Tetrimino.shape t, Tetrimino.color t) piece_orientations.
Proof.
  unfold knownb. rewrite bool_decide_eq_true. apply list_elem_of_In.
Qed.

Lemma known_rotated (t : Tetrimino.t) :
  knownb t = true →
  knownb (Tetrimino.set_shape t (Tetrimino.rotated (Tetrimino.shape t))) = true.
Proof.
  intros Hk%knownb_elem.
  pose proof orientations_closed as Hc. rewrite forallb_forall in Hc.
  apply Hc in Hk. exact Hk.
Qed.

Lemma known_small (t : Tetrimino.t) :
  knownb t = true →
  (0 < length (Tetrimino.shape t) ≤ 4)%nat ∧
  blocks (Tetrimino.shape t) = 4%nat.
Proof.
  intros Hk%knownb_elem.
  pose proof orientations_small as Hc. rewrite forallb_forall in Hc.
  apply Hc in Hk. simpl in Hk.
  rewrite !andb_true_iff, Nat.leb_le, Nat.ltb_lt, Nat.eqb_eq in Hk. lia.
Qed.

Lemma new_tetrimino_known (shape_idx : Z) (t : Tetrimino.t) :
  0 ≤ shape_idx ≤ Z.of_nat (length Constants.SHAPES) - 1 →
  GameState.new_tetrimino shape_idx = Some t →
  knownb t = true.
Proof.
  simpl. intros H.
  assert (shape_idx = 0 ∨ shape_idx = 1 ∨ shape_idx = 2 ∨ shape_idx = 3 ∨
          shape_idx = 4 ∨ shape_idx = 5 ∨ shape_idx = 6) as Hc by lia.
  destruct Hc as [->|[->|[->|[->|[->|[->| ->]]]]]];
    intros [= <-]; vm_compute; reflexivity.
Qed.

(** ** Full rows *)

Lemma filter_none {A} (p : A → bool) (l : list A) :
  (∀ a, a ∈ l → p a = false) → List.filter p l = [].
Proof.
  induction l as [|a l IH]; intros H; [done|]. simpl.
  rewrite (H a) by left. apply IH. intros b Hb. apply H. by right.
Qed.

Lemma filter_none_inv {A} (p : A → bool) (l : list A) (a : A) :
  List.filter p l = [] → a ∈ l → p a = false.
Proof.
  intros Hf Ha. destruct (p a) eqn:Hp; [|done].
  assert (In a (List.filter p l)) as Hin
    by (apply filter_In; split; [by apply list_elem_of_In|done]).
  rewrite Hf in Hin. destruct Hin.
Qed.

Lemma filter_length_le {A} (p : A → bool) (l : list A) :
  (length (List.filter p l) ≤ length l)%nat.
Proof. pose proof (filter_lengths p l). lia. Qed.

Lemma full_rows_0 (g : Grid) :
  full_rows g = 0%nat ↔ ∀ r, r ∈ g → full_row r = false.
Proof.
  unfold full_rows. split.
  - intros H%length_zero_iff_nil r Hr. by apply (filter_none_inv _ g).
  - intros H. by rewrite filter_none.
Qed.

(** Outside a window of [R] rows two grids agree; the first has no full
    row: the second has at most [R]. *)
Lemma full_rows_window (g g' : Grid) (a R : nat) :
  (∀ k, (k < a ∨ a + R ≤ k)%nat → g' !! k = g !! k) →
  full_rows g = 0%nat →
  (full_rows g' ≤ R)%nat.
Proof.
  intros Hsame Hnone. rewrite full_rows_0 in Hnone. unfold full_rows.
  rewrite <- (take_drop a g'), <- (take_drop R (drop a g')).
  rewrite !List.filter_app, !length_app.
  rewrite (filter_none full_row (take a g')).
  2:{ intros r (k & Hk)%list_elem_of_lookup.
      apply lookup_take_Some in Hk as [Hk Hlt].
      apply Hnone, list_elem_of_lookup. exists k. rewrite <- Hsame; [done|lia]. }
  rewrite (filter_none full_row (drop R (drop a g'))).
  2:{ intros r (k & Hk)%list_elem_of_lookup.
      rewrite !lookup_drop in Hk.
      apply Hnone, list_elem_of_lookup. exists (a + (R + k))%nat.
      rewrite <- Hsame; [done|lia]. }
  simpl. pose proof (filter_length_le full_row (take R (drop a g'))).
  rewrite length_take in *. lia.
Qed.

Lemma write_cells_other_row (c : cell) (l : list (nat * nat)) (g : Grid)
    (k : nat) :
  (∀ rc, rc ∈ l → rc.1 ≠ k) →
  foldl (write_cell c) g l !! k = g !! k.
Proof.
  revert g. induction l as [|rc l IH]; intros g Hl; [done|].
  cbn [foldl]. rewrite IH by (intros ??; apply Hl; by right).
  unfold write_cell. apply list_lookup_alter_ne. apply Hl. left.
Qed.

Lemma occupied_row_lt (s : Shape) (row col : nat) :
  occupied s row col → (row < length s)%nat.
Proof. intros (r & v & Hr & _). by apply lookup_lt_Some in Hr. Qed.

(** A lock fills at most as many rows as the piece has. *)
Lemma full_rows_write_piece (t : Tetrimino.t) (g : Grid) :
  piece_ok t → full_rows g = 0%nat →
  (full_rows (write_piece t g) ≤ length (Tetrimino.shape t))%nat.
Proof.
  intros [Hy Hin] Hnone.
  apply (full_rows_window g _ (Z.to_nat (Tetrimino.y t))); [|done].
  intros k Hk. unfold write_piece. apply write_cells_other_row.
  intros rc ([row col] & -> & Hocc%occupied_cells_spec)%list_elem_of_fmap.
  pose proof (occupied_row_lt _ _ _ Hocc). unfold covers. simpl. lia.
Qed.

Lemma full_row_empty_row : full_row GameState.empty_row = false.
Proof. reflexivity. Qed.

Lemma full_rows_cleared (g : Grid) : full_rows (cleared g) = 0%nat.
Proof.
  apply full_rows_0. intros r [Hr|Hr]%elem_of_app.
  - apply elem_of_replicate in Hr as [-> _]. reflexivity.
  - apply list_elem_of_In, filter_In in Hr as [_ Hr].
    by apply negb_true_iff.
Qed.

Lemma full_rows_crushed (g : Grid) (n m : nat) :
  full_rows g = 0%nat →
  full_rows (replicate n GameState.empty_row ++ take m g) = 0%nat.
Proof.
  rewrite !full_rows_0. intros Hg r [Hr|Hr]%elem_of_app.
  - apply elem_of_replicate in Hr as [-> _]. reflexivity.
  - apply Hg. apply list_elem_of_lookup in Hr as [k Hk].
    apply lookup_take_Some in Hk as [Hk _].
    apply list_elem_of_lookup. eauto.
Qed.

(** ** The stronger invariant *)

Lemma knownb_same (t t' : Tetrimino.t) :
  Tetrimino.shape t' = Tetrimino.shape t →
  Tetrimino.color t' = Tetrimino.color t →
  knownb t = true → knownb t' = true.
Proof. unfold knownb. by intros -> ->. Qed.

Lemma inv_plus_quiet (gs gs' : GameState.t) :
  inv_plus gs → inv gs' → same_board gs gs' →
  knownb (GameState.current_tetrimino gs') = true →
  inv_plus gs'.
Proof.
  intros (_ & Hf & _ & Hn & Ht & Hs & Hsp & Hm) Hinv
    (Hg & Hsc & _ & Hnx & Hspd & Htot & _) Hk.
  unfold inv_plus. rewrite Hg, Hsc, Hnx, Hspd, Htot. done.
Qed.

Lemma inv_plus_fields (gs gs' : GameState.t) :
  GameState.grid gs' = GameState.grid gs →
  GameState.current_tetrimino gs' = GameState.current_tetrimino gs →
  GameState.next_tetrimino gs' = GameState.next_tetrimino gs →
  GameState.falling_speed gs' = GameState.falling_speed gs →
  GameState.total_lines_cleared gs' = GameState.total_lines_cleared gs →
  GameState.score gs' = GameState.score gs →
  inv_plus gs → inv_plus gs'.
Proof.
  intros Hg Hc Hn Hs Ht Hsc (Hinv & Hrest).
  split; [by apply (inv_fields gs)|].
  by rewrite Hg, Hc, Hn, Hs, Ht, Hsc.
Qed.

Lemma move_current_plus (gs : GameState.t) (dx dy : Z) :
  inv_plus gs → 0 ≤ dy →
  ∃ gs', GameState.move_current gs dx dy = Some gs' ∧
         inv_plus gs' ∧ quiet gs gs' ∧
         GameState.settings gs' = GameState.settings gs.
Proof.
  intros Hplus Hdy. pose proof Hplus as (Hinv & _ & Hk & _).
  destruct (move_current_ok gs dx dy Hinv Hdy) as (gs' & Hm & Hinv' & Hq & Hst).
  exists gs'. split; [done|]. split; [|done].
  apply (inv_plus_quiet gs); [done|done|apply Hq|].
  apply inv_spec in Hinv as (Hg & _).
  rewrite move_current_eq in Hm by done. injection Hm as <-. simpl.
  by destruct (fitsb _ _ dx dy).
Qed.

Lemma held_key_step_plus (now : Z) (gs : GameState.t) (key : MoveKey) :
  inv_plus gs →
  ∃ gs', GameState.held_key_step now gs key = Some gs' ∧
         inv_plus gs' ∧ quiet gs gs' ∧
         GameState.settings gs' = GameState.settings gs.
Proof.
  intros Hplus. unfold GameState.held_key_step.
  destruct (dict_get (GameState.held_keys gs) key);
    [|exists gs; by auto using quiet_refl].
  match goal with |- context [if ?c then _ else Some gs] => destruct c end;
    [|exists gs; by auto using quiet_refl].
  destruct (move_current_plus gs (GameState.key_offset key).1
              (GameState.key_offset key).2 Hplus)
    as (gs1 & -> & Hplus1 & Hq & Hst); [by destruct key|].
  cbn [mbind option_bind]. eexists. split; [done|].
  split; [|split; [|done]].
  - pose proof Hplus1 as (Hinv1 & _ & Hk1 & _).
    apply (inv_plus_quiet gs1); [done| |by repeat split|done].
    by apply (inv_fields gs1).
  - apply (quiet_trans _ gs1); [done|]. split; [by repeat split|].
    split; [done|simpl; lia].
Qed.

Lemma keys_phase_plus (gs : GameState.t) (env : Env) :
  inv_plus gs →
  ∃ gs', keys_phase gs env = Some gs' ∧
         inv_plus gs' ∧ quiet gs gs' ∧
         GameState.settings gs' = GameState.settings gs.
Proof.
  intros Hplus. unfold keys_phase.
  generalize [MK_LEFT; MK_RIGHT; MK_DOWN]. intros ks.
  revert gs Hplus. induction ks as [|k ks IH]; intros gs Hplus.
  - exists gs. by auto using quiet_refl.
  - simpl.
    destruct (held_key_step_plus (get_ticks env) gs k Hplus)
      as (gs1 & -> & Hplus1 & Hq1 & Hst1).
    simpl. destruct (IH gs1 Hplus1) as (gs2 & -> & Hplus2 & Hq2 & Hst2).
    exists gs2. split; [done|]. split; [done|].
    split; [by apply (quiet_trans _ gs1)|congruence].
Qed.

(** At most four lines are cleared at a lock. *)
Lemma lock_lines_le (gs : GameState.t) :
  inv_plus gs →
  (full_rows (write_piece (GameState.current_tetrimino gs) (GameState.grid gs))
   ≤ 4)%nat.
Proof.
  intros (Hinv & Hf & Hk & _).
  apply inv_spec in Hinv as (_ & Hok & _).
  pose proof (full_rows_write_piece _ _ Hok Hf).
  pose proof (known_small _ Hk). lia.
Qed.

Lemma lock_plus (gs : GameState.t) (env : Env) :
  inv_plus gs → GameController.draws_ok env →
  behaves (GameState.lock gs env) (audio_ok (GameState.settings gs))
    (λ gs', inv_plus gs' ∧
         GameState.score gs ≤ GameState.score gs' ≤ GameState.score gs + 750 ∧
         (GameState.game_over gs = true → GameState.game_over gs' = true)).
Proof.
  intros Hplus Henv. pose proof (lock_lines_le gs Hplus) as Hn.
  destruct Hplus as (Hinv & Hf & Hk & Hkn & Ht & Hs & Hsp & Hm).
  pose proof Hinv as (Hg & [_ Hc] & _)%inv_spec.
  eapply behaves_mono;
    [|exact (behaves_and _ _ _ _ (lock_inv gs env Hinv Henv)
               (lock_fields gs env Hg Hc Henv))].
  intros gs' [(Hinv' & Hsp' & _)
    (Hgrid & Hscore & Hspeed & Htotal & Hcur & Hnew & Hover & _)].
  set (n := Z.of_nat (full_rows (write_piece (GameState.current_tetrimino gs)
                                    (GameState.grid gs)))) in *.
  assert (0 ≤ n ≤ 4) as Hn4 by (unfold n; lia).
  assert (GameState.score gs ≤ GameState.score gs' ≤ GameState.score gs + 750)
    as Hsc.
  { rewrite Hscore. destruct (Z.gtb_spec n 0); [|lia].
    assert (n = 1 ∨ n = 2 ∨ n = 3 ∨ n = 4) as [->|[->|[->| ->]]] by lia;
      simpl; lia. }
  split; [|split; [done|]].
  - split; [done|]. split; [rewrite Hgrid; apply full_rows_cleared|].
    split; [by rewrite Hcur|].
    split; [by apply (new_tetrimino_known (randint env 0%nat))|].
    split; [rewrite Htotal; destruct (Z.geb_spec
              (GameState.total_lines_cleared gs + n) 10); lia|].
    split; [lia|]. split; [lia|].
    rewrite Hspeed. destruct (_ >=? 10); [|done].
    apply inv_spec in Hinv as (_ & _ & _ & _ & H100).
    destruct (Z.max_spec 100 (GameState.falling_speed gs - 50)) as [[_ ->]|[_ ->]];
      [|done].
    apply Z.mod_divide in Hm as [q Hq]; [|lia].
    apply Z.mod_divide; [lia|]. exists (q - 1). lia.
  - rewrite Hover. intros ->. by destruct (fitsb _ _ 0 0).
Qed.

Lemma carries_on_refl (gs : GameState.t) : carries_on gs gs.
Proof. split; [lia|done]. Qed.

Lemma carries_on_trans (gs1 gs2 gs3 : GameState.t) :
  carries_on gs1 gs2 → carries_on gs2 gs3 → carries_on gs1 gs3.
Proof. intros [? ?] [? ?]. split; [lia|auto]. Qed.

Lemma same_board_carries_on (gs gs' : GameState.t) :
  same_board gs gs' → carries_on gs gs'.
Proof.
  intros (_ & Hs & _ & _ & _ & _ & Ho & _). split; [lia|congruence].
Qed.

Lemma fall_plus (gs : GameState.t) (env : Env) :
  inv_plus gs → GameController.draws_ok env →
  behaves (GameState.fall gs env) (audio_ok (GameState.settings gs))
    (λ gs', inv_plus gs' ∧ carries_on gs gs').
Proof.
  intros Hplus Henv. pose proof Hplus as (Hinv & Hrest).
  pose proof Hinv as (Hg & [Hy Hc] & _)%inv_spec.
  rewrite fall_eq by done.
  destruct (fall_due gs env); [|simpl; by auto using carries_on_refl].
  destruct (fitsb _ _ 0 1) eqn:Hf.
  - simpl. split; [|by apply same_board_carries_on].
    apply (inv_plus_quiet gs); [done| |by repeat split|simpl; apply Hrest].
    apply inv_spec. apply inv_spec in Hinv as (? & ? & ? & ? & ?). simpl.
    split; [done|]. split; [|done].
    apply fitsb_spec in Hf. apply (fits_piece_ok _ _ _ _ Hf). lia.
  - eapply behaves_bind; [by apply lock_plus|].
    intros gs1 (Hplus1 & Hsc & Ho). simpl.
    split; [|split; [simpl; lia|done]].
    apply (inv_plus_quiet gs1); [done| |by repeat split|simpl; apply Hplus1].
    apply (inv_fields gs1); try done. apply Hplus1.
Qed.

Lemma update_plus (gs : GameState.t) (env : Env) :
  inv_plus gs → GameController.draws_ok env →
  behaves (GameState.update gs env) (audio_ok (GameState.settings gs))
    (λ gs', inv_plus gs' ∧ carries_on gs gs').
Proof.
  intros Hplus Henv. rewrite update_eq.
  destruct (_ || _); [simpl; by auto using carries_on_refl|].
  destruct (keys_phase_plus gs env Hplus)
    as (gs1 & -> & Hplus1 & [Hb _] & Hst).
  cbn [mbind option_bind]. rewrite <- Hst.
  eapply behaves_mono; [|by apply fall_plus].
  intros gs' [Hplus' Hc]. split; [done|].
  apply (carries_on_trans _ gs1); [by apply same_board_carries_on|done].
Qed.

Lemma reset_plus (gs : GameState.t) (env : Env) :
  GameController.draws_ok env →
  ∃ gs', GameState.reset gs env = Some gs' ∧ inv_plus gs'.
Proof.
  intros Henv. destruct (reset_ok gs env Henv) as (gs' & Hr & Hinv & _).
  exists gs'. split; [done|]. unfold GameState.reset in Hr.
  destruct (GameState.new_tetrimino (randint env 0%nat)) as [cur|] eqn:Hcur;
    [|done].
  destruct (GameState.new_tetrimino (randint env 1%nat)) as [nxt|] eqn:Hnxt;
    [|done].
  injection Hr as <-. split; [done|]. simpl.
  split; [reflexivity|].
  split; [by apply (new_tetrimino_known (randint env 0%nat))|].
  split; [by apply (new_tetrimino_known (randint env 1%nat))|].
  repeat split; lia.
Qed.

Lemma init_plus (settings : GameSettings.t) (env : Env) (gs : GameState.t) :
  GameController.draws_ok env →
  GameState.init settings env = Some gs → inv_plus gs.
Proof.
  intros Henv Hi. pose proof (init_ok settings env gs Henv Hi) as Hinv.
  unfold GameState.init in Hi.
  destruct (GameState.new_tetrimino (randint env 0%nat)) as [cur|] eqn:Hcur;
    [|done].
  destruct (GameState.new_tetrimino (randint env 1%nat)) as [nxt|] eqn:Hnxt;
    [|done].
  injection Hi as <-. split; [done|]. simpl.
  split; [reflexivity|].
  split; [by apply (new_tetrimino_known (randint env 0%nat))|].
  split; [by apply (new_tetrimino_known (randint env 1%nat))|].
  repeat split; lia.
Qed.

Lemma crush_plus (gs : GameState.t) (env : Env) :
  inv_plus gs →
  behaves (GameState.clear_last_three_rows gs env)
    (audio_ok (GameState.settings gs))
    (λ r, inv_plus r.1 ∧ carries_on gs r.1).
Proof.
  intros Hplus. pose proof Hplus as (Hinv & Hf & Hk & Hkn & Ht & Hs & Hsp & Hm).
  pose proof (clear_last_three_rows_inv gs env Hinv) as Hok.
  pose proof Hinv as (Hg & _)%inv_spec.
  destruct (clear_last_three_rows_eq gs env Hg) as (fired & _ & Heq).
  rewrite Heq in Hok |- *.
  destruct fired; [|simpl; by auto using carries_on_refl].
  destruct (GameSettings.has _ special_skill_sound); [|exact Hok].
  destruct Hok as (Hinv' & _). simpl.
  split; [|split; [simpl; lia|done]].
  split; [done|]. cbn [crushed GameState.grid GameState.current_tetrimino
    GameState.next_tetrimino GameState.total_lines_cleared GameState.score
    GameState.falling_speed].
  split; [by apply full_rows_crushed|]. repeat split; try done; lia.
Qed.

Lemma rotate_current_plus (gs : GameState.t) :
  inv_plus gs →
  behaves (Tetrimino.rotate (GameState.current_tetrimino gs)
             (GameState.grid gs) (GameState.settings gs))
    (audio_ok (GameState.settings gs))
    (λ r, inv_plus (GameState.set_settings
                      (GameState.set_current_tetrimino gs r.1) r.2)).
Proof.
  intros Hplus. pose proof Hplus as (Hinv & Hrest).
  pose proof Hinv as (Hg & _)%inv_spec.
  eapply behaves_mono;
    [|exact (behaves_and _ _ _ _ (rotate_current_ok gs Hinv)
               (behaves_ok _ _ _ _ (audio_ok_has _ rotate_sound)
                  (rotate_behaves _ _ (GameState.settings gs) Hg)))].
  intros r [[Hinv' _] ->].
  apply (inv_plus_quiet gs); [done|done|by repeat split|]. simpl.
  destruct (fitsb _ _ 0 0); [apply known_rotated|]; apply Hrest.
Qed.

Lemma handle_event_plus (gs : GameState.t) (env : Env)
    (event : GameController.Event) :
  inv_plus gs → GameController.draws_ok env →
  behaves (GameController._handle_event gs env event)
    (safe gs env (GameController.Handle event))
    (λ gs', inv_plus gs' ∧
         (resets (GameController.Handle event) = true ∨ carries_on gs gs')).
Proof.
  intros Hplus Henv. pose proof Hplus as (Hinv & Hrest).
  set (post := λ gs', inv_plus gs' ∧
         (resets (GameController.Handle event) = true ∨ carries_on gs gs')).
  assert (Hsame : post gs).
  { split; [done|]. by auto using carries_on_refl. }
  assert (Hfields : ∀ gs1, same_board gs gs1 →
            GameState.current_tetrimino gs1 = GameState.current_tetrimino gs →
            post gs1).
  { intros gs1 Hb Hc. split.
    - apply (inv_plus_quiet gs); [done| |done|rewrite Hc; apply Hrest].
      apply (inv_fields gs); [apply Hb|done|apply Hb|apply Hb|done].
    - right. by apply same_board_carries_on. }
  assert (Hmove : ∀ k ok, behaves
            (GameState.move_current
              (GameState.set_last_move_time
                 (GameState.set_held_keys gs
                    (dict_set (GameState.held_keys gs) k true))
                 (dict_set (GameState.last_move_time gs) k (get_ticks env)))
              (GameState.key_offset k).1 (GameState.key_offset k).2)
            ok post).
  { intros k ok.
    destruct (move_current_plus
                 (GameState.set_last_move_time
                    (GameState.set_held_keys gs
                       (dict_set (GameState.held_keys gs) k true))
                    (dict_set (GameState.last_move_time gs) k (get_ticks env)))
                 (GameState.key_offset k).1 (GameState.key_offset k).2)
      as (gs' & -> & Hplus' & [Hb _] & _); [|by destruct k|].
    - apply (inv_plus_quiet gs); [done| |by repeat split|apply Hrest].
      by apply (inv_fields gs).
    - split; [done|]. right.
      apply same_board_carries_on.
      apply (same_board_trans _ (GameState.set_last_move_time
                 (GameState.set_held_keys gs
                    (dict_set (GameState.held_keys gs) k true))
                 (dict_set (GameState.last_move_time gs) k (get_ticks env))));
        [by repeat split|done]. }
  destruct event as [key|key| | |delay].
  - destruct key;
      cbn [GameController._handle_event GameController.move_key];
      try (destruct (GameState.paused gs) eqn:Hp; cbn [negb];
           [exact Hsame|]);
      try apply Hmove.
    + by apply leaves_unsafe.
    + eapply behaves_bind;
        [eapply behaves_ok; [apply safe_audio|by apply rotate_current_plus]|].
      intros r Hplus'. split; [done|].
      right. by apply same_board_carries_on.
    + destruct (reset_plus gs env Henv) as (gs' & -> & Hplus').
      split; [done|by left].
    + split; [by apply (inv_plus_fields gs)|].
      right. split; [simpl; lia|done].
    + destruct (settings_file_removable env) eqn:Hf; [exact Hsame|].
      apply leaves_unsafe. simpl. by rewrite Hf.
    + destruct (high_score_file_writable env) eqn:Hf; [exact Hsame|].
      apply leaves_unsafe. simpl. by rewrite Hf.
    + eapply behaves_bind;
        [eapply behaves_ok; [apply safe_audio|by apply crush_plus]|].
      intros r [Hplus' Hc]. split; [done|by right].
    + exact Hsame.
  - cbn [GameController._handle_event].
    destruct (GameController.move_key key); [|exact Hsame].
    by apply Hfields.
  - cbn [GameController._handle_event].
    eapply behaves_bind;
      [eapply behaves_ok; [apply safe_audio|apply toggle_music_behaves]|].
    intros st' _. by apply Hfields.
  - by apply Hfields.
  - by apply Hfields.
Qed.

Lemma step_plus (gs : GameState.t) (env : Env) (st : GameController.Step) :
  inv_plus gs → GameController.draws_ok env →
  behaves (GameController.step gs env st) (safe gs env st)
    (λ gs', inv_plus gs' ∧ (resets st = true ∨ carries_on gs gs')).
Proof.
  intros Hplus Henv. destruct st as [|event|]; simpl.
  - destruct (reset_plus gs env Henv) as (gs' & -> & Hplus').
    split; [done|by left].
  - by apply handle_event_plus.
  - eapply behaves_ok; [apply safe_audio|].
    eapply behaves_mono; [|by apply update_plus].
    intros gs' [Hplus' Hc]. by auto.
Qed.

Lemma reachable_plus (gs : GameState.t) :
  GameController.reachable gs → inv_plus gs.
Proof.
  induction 1 as [settings env gs Henv Hinit|gs env st gs' _ IH Henv Hstep].
  - by apply (init_plus settings env).
  - by destruct (behaves_returns _ _ _ _ (step_plus gs env st IH Henv) Hstep).
Qed.

(** ** Invariants of the reachable states *)

Lemma start_state_reachable : GameController.reachable start_state.
Proof.
  apply (GameController.reachable_init sound_on start_env).
  - intros k. simpl. lia.
  - reflexivity.
Qed.

(** X2.  In every game state that a run reaches the grid has
    [GRID_HEIGHT] rows of [GRID_WIDTH] cells, and none of its rows is
    full: [clear_lines] has removed every full row before the lock
    returns, and the row-crush and the reset make none. *)
Theorem reachable_grid_has_no_full_row (gs : GameState.t) :
  GameController.reachable gs →
  Z.of_nat (length (GameState.grid gs)) = Constants.GRID_HEIGHT ∧
  (∀ r, r ∈ GameState.grid gs →
        Z.of_nat (length r) = Constants.GRID_WIDTH ∧ Zero ∈ r).
Proof.
  intros (Hinv & Hf & _)%reachable_plus.
  apply inv_spec in Hinv as (Hg & _).
  split; [by apply wf_grid_length|]. intros r Hr.
  pose proof Hr as (k & Hk)%list_elem_of_lookup.
  split; [exact (wf_grid_row (GameState.grid gs) k r Hg Hk)|].
  rewrite full_rows_0 in Hf. specialize (Hf r Hr).
  unfold full_row in Hf. clear -Hf.
  induction r as [|c r IH]; [done|].
  destruct c as [|col]; [left|].
  right. apply IH. exact Hf.
Qed.

Lemma reachable_grid_has_no_full_row_witness :
  GameController.reachable start_state ∧
  Z.of_nat (length (GameState.grid start_state)) = Constants.GRID_HEIGHT.
Proof.
  split; [exact start_state_reachable|].
  apply (reachable_grid_has_no_full_row start_state start_state_reachable).
Defined.

(** X3.  In every reachable state the current piece and the preview
    piece are each one of the seven shapes in one of the four
    orientations that [rotate] produces, carrying the colour of that
    shape: a matrix of at most four rows with exactly four occupied
    entries. *)
Theorem reachable_pieces_are_tetrominoes (gs : GameState.t) :
  GameController.reachable gs →
  ∀ t, t = GameState.current_tetrimino gs ∨ t = GameState.next_tetrimino gs →
    (Tetrimino.shape t, Tetrimino.color t) ∈ piece_orientations ∧
    (0 < length (Tetrimino.shape t) ≤ 4)%nat ∧
    blocks (Tetrimino.shape t) = 4%nat.
Proof.
  intros (_ & _ & Hc & Hn & _)%reachable_plus t Ht.
  assert (knownb t = true) as Hk by (by destruct Ht as [-> | ->]).
  split; [|by apply known_small].
  by apply knownb_elem, list_elem_of_In in Hk.
Qed.

Lemma reachable_pieces_are_tetrominoes_witness :
  GameController.reachable start_state ∧
  blocks (Tetrimino.shape (GameState.current_tetrimino start_state)) = 4%nat.
Proof.
  split; [exact start_state_reachable|].
  apply (reachable_pieces_are_tetrominoes start_state start_state_reachable).
  by left.
Defined.





(** X6.  The falling speed of a reachable state is a multiple of 50 ms
    between 100 ms and 500 ms. *)
Theorem reachable_speed_in_steps_of_fifty (gs : GameState.t) :
  GameController.reachable gs →
  100 ≤ GameState.falling_speed gs ≤ 500 ∧
  (GameState.falling_speed gs) mod 50 = 0.
Proof.
  intros (Hinv & _ & _ & _ & _ & _ & H500 & Hm)%reachable_plus.
  apply inv_spec in Hinv as (_ & _ & _ & _ & H100). done.
Qed.

Lemma reachable_speed_in_steps_of_fifty_witness :
  GameController.reachable start_state ∧
  100 ≤ GameState.falling_speed start_state ≤ 500.
Proof.
  split; [exact start_state_reachable|].
  apply (reachable_speed_in_steps_of_fifty start_state start_state_reachable).
Defined.


Lemma run_reachable (script : list (Env * GameController.Step))
    (gs gs' : GameState.t) :
  GameController.reachable gs →
  (∀ es, es ∈ script → GameController.draws_ok es.1) →
  run gs script = Some gs' →
  GameController.reachable gs'.
Proof.
  unfold run. revert gs. induction script as [|es script IH]; intros gs Hr Hd.
  - by intros [= <-].
  - simpl. destruct (GameController.step gs es.1 es.2) as [gs1|] eqn:Hs; [|done].
    simpl. apply IH; [|intros ??; apply Hd; by right].
    apply (GameController.reachable_step gs es.1 es.2); [done| |done].
    apply Hd. left.
Qed.

Lemma script_of_draws (l : list (Z * Z * GameController.Step)) :
  draws_in_range l = true →
  ∀ es, es ∈ script_of l → GameController.draws_ok es.1.
Proof.
  unfold draws_in_range, script_of. rewrite forallb_forall.
  intros Hl es (e & -> & He%list_elem_of_In)%list_elem_of_fmap k.
  specialize (Hl e He). simpl.
  rewrite andb_true_iff, !Z.leb_le in Hl. lia.
Qed.



Lemma two_I_state_reachable : GameController.reachable two_I_state.
Proof.
  apply (GameController.reachable_init sound_on (env_of 0 0 0)).
  - intros k. simpl. lia.
  - reflexivity.
Qed.

Lemma under_overhang_state_reachable :
  GameController.reachable under_overhang_state.
Proof.
  apply (run_reachable (script_of overhang_script) two_I_state).
  - exact two_I_state_reachable.
  - by apply script_of_draws.
  - vm_compute. reflexivity.
Qed.

(** X8.  The row-crush shifts the settled blocks without looking at the
    current piece.  There is a reachable state, neither paused nor over,
    whose current piece is valid at offset (0, 0), in which the F key
    fires the row-crush and leaves the piece on top of settled blocks:
    [valid_move(grid, 0, 0)] is false of it and the game is not over. *)
Theorem row_crush_can_bury_the_piece :
  ∃ (gs : GameState.t) (env : Env) (gs' : GameState.t),
    GameController.reachable gs ∧
    GameState.paused gs = false ∧
    GameState.game_over gs = false ∧
    Tetrimino.valid_move (GameState.current_tetrimino gs) (GameState.grid gs)
      0 0 = Some true ∧
    GameController._handle_event gs env (GameController.KEYDOWN K_f)
    = Some gs' ∧
    GameController.reachable gs' ∧
    GameState.score gs' = GameState.score gs + 100 ∧
    GameState.current_tetrimino gs' = GameState.current_tetrimino gs ∧
    GameState.game_over gs' = false ∧
    Tetrimino.valid_move (GameState.current_tetrimino gs') (GameState.grid gs')
      0 0 = Some false.
Proof.
  destruct (GameController._handle_event under_overhang_state
              (env_of 2100 100 3) (GameController.KEYDOWN K_f))
    as [gs'|] eqn:Hc; [|by vm_compute in Hc].
  exists under_overhang_state, (env_of 2100 100 3), gs'.
  split; [exact under_overhang_state_reachable|].
  split; [reflexivity|]. split; [reflexivity|]. split; [reflexivity|].
  split; [exact Hc|]. split.
  - apply (GameController.reachable_step under_overhang_state
             (env_of 2100 100 3)
             (GameController.Handle (GameController.KEYDOWN K_f)));
      [exact under_overhang_state_reachable|intros k; simpl; lia|exact Hc].
  - vm_compute in Hc. injection Hc as <-. repeat split.
Qed.

(** ** [clear_lines] twice *)

Lemma set_grid_same (gs : GameState.t) :
  GameState.set_grid gs (GameState.grid gs) = gs.
Proof. by destruct gs. Qed.

Lemma filter_all {A} (p : A → bool) (l : list A) :
  (∀ a, a ∈ l → p a = true) → List.filter p l = l.
Proof.
  induction l as [|a l IH]; intros H; [done|]. simpl.
  rewrite (H a) by left. f_equal. apply IH. intros b Hb. apply H. by right.
Qed.

(** X9.  On a grid of [GRID_HEIGHT] rows a second [clear_lines] right
    after a first finds nothing to clear: it returns 0 and leaves the
    game state, score and mixer included, as the first call left it.
    (The first call returns unless a row is full and the line-clear
    sound was never loaded; the second asks for no sound.) *)
Theorem clear_lines_twice (gs : GameState.t) :
  Z.of_nat (length (GameState.grid gs)) = Constants.GRID_HEIGHT →
  behaves (GameState.clear_lines gs)
    ((full_rows (GameState.grid gs) =? 0)%nat
     || GameSettings.has (GameState.settings gs) line_clear_sound)
    (λ r, GameState.clear_lines r.1 = Some (r.1, 0)).
Proof.
  intros Hl.
  eapply behaves_mono; [|by apply clear_lines_removes_full_rows_aux].
  intros r (_ & Hg & Hl' & _).
  rewrite (clear_lines_eq r.1 Hl').
  fold (cleared (GameState.grid gs)) in Hg.
  rewrite Hg, full_rows_cleared. cbn [replicate app]. cbv zeta.
  change (Z.of_nat 0 >? 0) with false. cbn [andb]. cbv iota.
  rewrite filter_all.
  - by rewrite <- Hg, set_grid_same.
  - intros r' Hr. apply negb_true_iff.
    pose proof (full_rows_cleared (GameState.grid gs)) as Hc.
    rewrite full_rows_0 in Hc. by apply Hc.
Qed.

Lemma clear_lines_twice_witness :
  Z.of_nat (length (GameState.grid two_full_state)) = Constants.GRID_HEIGHT ∧
  ∃ r, GameState.clear_lines two_full_state = Some r ∧
       GameState.clear_lines r.1 = Some (r.1, 0).
Proof.
  split; [reflexivity|].
  exact (behaves_total _ _ _ (clear_lines_twice two_full_state eq_refl)
           eq_refl).
Defined.

(** ** Four rotations *)

Lemma mat_ext (R C : nat) (f f' : nat → nat → Z) :
  (∀ i j, (i < R)%nat → (j < C)%nat → f i j = f' i j) →
  mat R C f = mat R C f'.
Proof.
  intros H. unfold mat. apply list_fmap_ext. intros k i Hi.
  apply lookup_seq in Hi as [-> Hi]. apply list_fmap_ext. intros k' j Hj.
  apply lookup_seq in Hj as [-> Hj]. by apply H.
Qed.

Lemma mat_rectangular (R C : nat) (f : nat → nat → Z) :
  rectangular (mat R C f) R C.
Proof.
  apply rectangular_spec. unfold mat. split.
  - by rewrite length_fmap, length_seq.
  - intros r (i & -> & _)%list_elem_of_fmap.
    by rewrite length_fmap, length_seq.
Qed.

Lemma nth_mat (R C : nat) (f : nat → nat → Z) (i j : nat) :
  (i < R)%nat → (j < C)%nat →
  nth j (nth i (mat R C f) []) 0 = f i j.
Proof.
  intros Hi Hj. unfold mat.
  rewrite (nth_fmap_seq _ R i) by done. by rewrite (nth_fmap_seq _ C j).
Qed.

Lemma rectangular_is_mat (s : Shape) (R C : nat) :
  rectangular s R C → s = mat R C (λ i j, nth j (nth i s []) 0).
Proof.
  intros [Hl Hr]%rectangular_spec. unfold mat.
  apply list_eq. intros i. rewrite list_lookup_fmap.
  destruct (decide (i < R)%nat) as [Hi|Hi].
  - rewrite lookup_seq_lt by done. simpl.
    destruct (lookup_lt_is_Some_2 s i) as [r Hrow]; [lia|].
    rewrite Hrow. f_equal.
    assert (length r = C) as Hlr by (apply Hr, list_elem_of_lookup; eauto).
    rewrite (nth_lookup_Some _ _ _ _ Hrow).
    apply list_eq. intros j. rewrite list_lookup_fmap.
    destruct (decide (j < C)%nat) as [Hj|Hj].
    + rewrite lookup_seq_lt by done. simpl.
      destruct (lookup_lt_is_Some_2 r j) as [v Hv]; [lia|].
      by rewrite Hv, (nth_lookup_Some _ _ _ _ Hv).
    + rewrite lookup_seq_ge by lia. by rewrite lookup_ge_None_2 by lia.
  - rewrite lookup_seq_ge by lia. by rewrite lookup_ge_None_2 by lia.
Qed.

Lemma rotated_mat (R C : nat) (f : nat → nat → Z) :
  (0 < R)%nat → (0 < C)%nat →
  Tetrimino.rotated (mat R C f) = mat C R (λ i j, f (R - 1 - j)%nat i).
Proof.
  intros HR HC.
  rewrite (rotated_is_right _ R C (mat_rectangular R C f) HR).
  unfold spec_rotate_right.
  rewrite (rectangular_first_row _ R C (mat_rectangular R C f) HR).
  replace (length (mat R C f)) with R
    by (unfold mat; by rewrite length_fmap, length_seq).
  apply mat_ext. intros i j Hi Hj. apply nth_mat; lia.
Qed.

Lemma rotated_four_times (s : Shape) (R C : nat) :
  rectangular s R C → (0 < R)%nat → (0 < C)%nat →
  Tetrimino.rotated (Tetrimino.rotated (Tetrimino.rotated (Tetrimino.rotated s)))
  = s.
Proof.
  intros Hrect HR HC.
  rewrite (rectangular_is_mat s R C Hrect) at 1.
  rewrite !rotated_mat by done.
  etransitivity; [|symmetry; apply (rectangular_is_mat s R C Hrect)].
  apply mat_ext. intros i j Hi Hj. cbv beta.
  replace (R - 1 - (R - 1 - i))%nat with i by lia.
  replace (C - 1 - (C - 1 - j))%nat with j by lia. done.
Qed.

(** X10.  Four calls of [rotate] that are all applied bring the piece
    back: for a piece whose shape is a matrix with at least one row and
    one column, on a grid on which the three turned shapes and the shape
    itself fit at the anchor, the fourth call leaves the piece it
    started from, shape, anchor and colour.  (The calls return unless
    the rotate sound was never loaded.) *)
Theorem four_rotations_restore_the_piece (t : Tetrimino.t) (g : Grid)
    (st : GameSettings.t) (R C : nat) :
  wf_grid g →
  rectangularb (Tetrimino.shape t) R C = true → (0 < R)%nat → (0 < C)%nat →
  forallb (λ s, fitsb (Tetrimino.set_shape t s) g 0 0)
          (turns (Tetrimino.shape t)) = true →
  behaves
    (r1 ← Tetrimino.rotate t g st;
     r2 ← rotate_again g r1;
     r3 ← rotate_again g r2;
     rotate_again g r3)
    (GameSettings.has st rotate_sound)
    (λ r, r.1 = t) ∧
  Tetrimino.rotated (Tetrimino.rotated (Tetrimino.rotated
    (Tetrimino.rotated (Tetrimino.shape t)))) = Tetrimino.shape t.
Proof.
  intros Hg Hrect HR HC Hfits.
  pose proof (rotated_four_times _ R C Hrect HR HC) as H4.
  split; [|done].
  cbn [turns forallb] in Hfits.
  rewrite !andb_true_iff in Hfits.
  destruct Hfits as (H0 & H1 & H2 & H3 & _).
  assert (∀ s1 s2, Tetrimino.set_shape (Tetrimino.set_shape t s1) s2
                   = Tetrimino.set_shape t s2) as Htwice by done.
  assert (∀ s1, Tetrimino.shape (Tetrimino.set_shape t s1) = s1) as Hsh by done.
  assert (Tetrimino.set_shape t (Tetrimino.shape t) = t) as Heta
    by (by destruct t).
  unfold rotate_again.
  rewrite rotate_eq by done. cbv zeta. rewrite H1.
  destruct (GameSettings.has st rotate_sound) eqn:Hh; [|done].
  cbn [mbind option_bind fst snd].
  rewrite rotate_eq by done. cbv zeta.
  rewrite Hsh, Htwice, H2, !play_sound_has, Hh.
  cbn [mbind option_bind fst snd].
  rewrite rotate_eq by done. cbv zeta.
  rewrite Hsh, Htwice, H3, !play_sound_has, Hh.
  cbn [mbind option_bind fst snd].
  rewrite rotate_eq by done. cbv zeta.
  rewrite Hsh, Htwice, H4, H0, Heta, !play_sound_has, Hh.
  done.
Qed.

Lemma four_rotations_restore_the_piece_witness :
  wf_grid empty_grid ∧
  rectangularb (Tetrimino.shape L_piece) 2 3 = true ∧
  ∃ r,
    (r1 ← Tetrimino.rotate L_piece empty_grid sound_on;
     r2 ← rotate_again empty_grid r1;
     r3 ← rotate_again empty_grid r2;
     rotate_again empty_grid r3) = Some r ∧ r.1 = L_piece.
Proof.
  split; [reflexivity|]. split; [reflexivity|].
  destruct (four_rotations_restore_the_piece L_piece empty_grid sound_on 2 3
              eq_refl eq_refl ltac:(lia) ltac:(lia) eq_refl) as [H _].
  exact (behaves_total _ _ _ H eq_refl).
Defined.

(** ** New pieces and new games *)

Lemma occupied_in_rectangle (s : Shape) (R C row col : nat) :
  rectangular s R C → occupied s row col → (row < R)%nat ∧ (col < C)%nat.
Proof.
  intros [Hl Hr]%rectangular_spec (r & v & Hrow & Hv & _).
  split.
  - apply lookup_lt_Some in Hrow. lia.
  - apply lookup_lt_Some in Hv.
    rewrite (Hr r) in Hv; [done|]. apply list_elem_of_lookup. eauto.
Qed.

(** X11.  [Tetrimino(shape, color)] raises [IndexError] on a shape
    without rows.  On a matrix of [R] rows and [C] columns, with
    [1 <= R <= GRID_HEIGHT] and [1 <= C <= GRID_WIDTH], it makes a piece
    at [y = 0] and [x = GRID_WIDTH // 2 - C // 2] that lies inside the
    grid, centred: the free columns to its right are as many as those
    to its left, or one fewer. *)
Theorem spawn_is_centred_inside_grid (s : Shape) (c : Color) (R C : nat) :
  rectangularb s R C = true →
  (0 < R)%nat → Z.of_nat R ≤ Constants.GRID_HEIGHT →
  (0 < C)%nat → Z.of_nat C ≤ Constants.GRID_WIDTH →
  Tetrimino.init [] c = None ∧
  ∃ t,
    Tetrimino.init s c = Some t ∧
    Tetrimino.shape t = s ∧ Tetrimino.color t = c ∧
    Tetrimino.y t = 0 ∧
    Tetrimino.x t = Constants.GRID_WIDTH / 2 - Z.of_nat C / 2 ∧
    in_grid t ∧
    (let left := Tetrimino.x t in
     let right := Constants.GRID_WIDTH - (Tetrimino.x t + Z.of_nat C) in
     0 ≤ right ∧ right ≤ left ∧ left ≤ right + 1).
Proof.
  intros Hrect HR HRh HC HCw. split; [reflexivity|].
  pose proof (rectangular_first_row s R C Hrect HR) as Hfirst.
  destruct s as [|r0 s]; [apply rectangular_spec in Hrect as [Hl _];
                          simpl in Hl; lia|].
  simpl in Hfirst. eexists. split; [reflexivity|].
  cbn [Tetrimino.shape Tetrimino.color Tetrimino.x Tetrimino.y].
  rewrite Hfirst. repeat (split; [done|]).
  unfold Constants.GRID_WIDTH, Constants.GRID_HEIGHT in *.
  pose proof (Z.div_mod (Z.of_nat C) 2 ltac:(lia)) as Hd.
  pose proof (Z.mod_pos_bound (Z.of_nat C) 2 ltac:(lia)) as Hm.
  change (10 / 2) with 5.
  split; [|cbv zeta; lia].
  intros row col Hocc.
  destruct (occupied_in_rectangle _ R C row col Hrect Hocc).
  cbn [Tetrimino.shape Tetrimino.color Tetrimino.x Tetrimino.y].
  unfold Constants.GRID_WIDTH, Constants.GRID_HEIGHT.
  change (10 / 2) with 5. lia.
Qed.

Lemma spawn_is_centred_inside_grid_witness :
  rectangularb [[1; 1; 1]; [0; 1; 0]] 2 3 = true ∧
  ∃ t, Tetrimino.init [[1; 1; 1]; [0; 1; 0]] Constants.BLUE = Some t ∧
       Tetrimino.x t = 4.
Proof.
  split; [reflexivity|].
  destruct (spawn_is_centred_inside_grid [[1; 1; 1]; [0; 1; 0]]
              Constants.BLUE 2 3)
    as (_ & t & Hi & _ & _ & _ & Hx & _);
    [reflexivity | lia | unfold Constants.GRID_HEIGHT; lia | lia
    | unfold Constants.GRID_WIDTH; lia |].
  exists t. split; [exact Hi | exact Hx].
Defined.

Lemma new_pieces_fall_free :
  forallb (λ idx,
             match GameState.new_tetrimino idx with
             | Some t => forallb (λ dy, fitsb t empty_grid 0 dy) (py_range 0 19)
             | None => false
             end)
          (py_range 0 7) = true.
Proof. vm_compute. reflexivity. Qed.

(** X12.  A reset never starts a game that is over at once: whatever
    [randint] draws, the new current piece is valid where it is, on the
    empty grid, and at each of the 18 offsets below. *)
Theorem new_game_piece_can_fall (gs : GameState.t) (env : Env) (dy : Z) :
  GameController.draws_ok env → 0 ≤ dy ≤ 18 →
  ∃ gs',
    GameState.reset gs env = Some gs' ∧
    GameState.game_over gs' = false ∧
    Tetrimino.valid_move (GameState.current_tetrimino gs') (GameState.grid gs')
      0 dy = Some true.
Proof.
  intros Henv Hdy. unfold GameState.reset.
  pose proof new_pieces_fall_free as Hall. rewrite forallb_forall in Hall.
  specialize (Hall (randint env 0%nat)).
  destruct (new_tetrimino_ok _ (Henv 0%nat)) as (cur & Hcur & _).
  destruct (new_tetrimino_ok _ (Henv 1%nat)) as (nxt & -> & _).
  rewrite Hcur in *. cbn [mbind option_bind]. eexists.
  split; [reflexivity|]. split; [reflexivity|].
  cbn [GameState.current_tetrimino GameState.grid].
  rewrite valid_move_eq by reflexivity. f_equal.
  rewrite forallb_forall in Hall.
  apply Hall.
  - apply list_elem_of_In, elem_of_py_range.
    pose proof (Henv 0%nat) as H. simpl in H. lia.
  - apply list_elem_of_In, elem_of_py_range. lia.
Qed.

Lemma new_game_piece_can_fall_witness :
  GameController.draws_ok start_env ∧
  ∃ gs',
    GameState.reset landing_state start_env = Some gs' ∧
    GameState.game_over gs' = false ∧
    Tetrimino.valid_move (GameState.current_tetrimino gs') (GameState.grid gs')
      0 18 = Some true.
Proof.
  assert (GameController.draws_ok start_env) as Henv by (intros k; simpl; lia).
  split; [exact Henv|].
  apply (new_game_piece_can_fall landing_state start_env 18 Henv). lia.
Defined.

(** ** Settings and pause *)

(** X13.  [set_repeat_delay] stores the delay cut to the range from
    [MIN_REPEAT_DELAY] = 50 to [MAX_REPEAT_DELAY] = 300 and touches no
    other setting: a delay inside the range is stored as it is, and
    setting the stored value again changes nothing. *)
Theorem set_repeat_delay_clamps (st : GameSettings.t) (delay : Z) :
  let st' := GameSettings.set_repeat_delay st delay in
  GameSettings.repeat_delay st'
  = (if delay <? 50 then 50 else if 300 <? delay then 300 else delay) ∧
  50 ≤ GameSettings.repeat_delay st' ≤ 300 ∧
  GameSettings.set_repeat_delay st' (GameSettings.repeat_delay st') = st' ∧
  GameSettings.music_enabled st' = GameSettings.music_enabled st ∧
  GameSettings.sound_enabled st' = GameSettings.sound_enabled st ∧
  GameSettings.show_help st' = GameSettings.show_help st ∧
  GameSettings.mixer st' = GameSettings.mixer st ∧
  same_audio st st'.
Proof.
  cbv zeta. unfold GameSettings.set_repeat_delay.
  cbn [GameSettings.repeat_delay GameSettings.music_enabled
       GameSettings.sound_enabled GameSettings.show_help GameSettings.mixer].
  unfold Constants.MIN_REPEAT_DELAY, Constants.MAX_REPEAT_DELAY.
  split; [destruct (Z.ltb_spec delay 50), (Z.ltb_spec 300 delay); lia|].
  split; [lia|]. split; [|done]. f_equal. lia.
Qed.

(** X14.  While the game is paused a frame changes nothing, and a key
    press that returns changes nothing unless the key is R, which resets
    the game, or Enter, which ends the pause: the arrow keys neither
    move nor turn the piece nor are taken as held, and F does not fire
    the row-crush.  The key presses that do not return are Escape, which
    leaves the program, and H and S when their file operation raises:
    the three are served before the pause is looked at. *)
Theorem paused_game_ignores_keys (gs : GameState.t) (env : Env) (key : Key) :
  GameState.paused gs = true → key ≠ K_r → key ≠ K_RETURN →
  behaves (GameController._handle_event gs env (GameController.KEYDOWN key))
    (negb (leaves env (GameController.Handle (GameController.KEYDOWN key))))
    (λ gs', gs' = gs) ∧
  GameController._handle_event gs env (GameController.KEYDOWN K_ESCAPE)
  = None ∧
  GameState.update gs env = Some gs ∧
  GameController._handle_event gs env (GameController.KEYDOWN K_RETURN)
  = Some (GameState.set_paused gs false).
Proof.
  intros Hp Hr Hret. split; [|split; [done|split]].
  - destruct key; try done; simpl; rewrite ?Hp; try done.
    + by destruct (settings_file_removable env).
    + by destruct (high_score_file_writable env).
  - by rewrite update_eq, Hp.
  - simpl. by rewrite Hp.
Qed.

Lemma paused_game_ignores_keys_witness :
  GameState.paused paused_state = true ∧
  GameController._handle_event paused_state start_env
    (GameController.KEYDOWN K_f) = Some paused_state ∧
  GameController._handle_event paused_state start_env
    (GameController.KEYDOWN K_h) = Some paused_state.
Proof.
  split; [reflexivity|].
  destruct (paused_game_ignores_keys paused_state start_env K_f eq_refl
              ltac:(discriminate) ltac:(discriminate)) as [Hf _].
  destruct (paused_game_ignores_keys paused_state start_env K_h eq_refl
              ltac:(discriminate) ltac:(discriminate)) as [Hh _].
  destruct (behaves_total _ _ _ Hf eq_refl) as (gs1 & H1 & ->).
  destruct (behaves_total _ _ _ Hh eq_refl) as (gs2 & H2 & ->).
  split; [exact H1 | exact H2].
Defined.

(** ** Held keys *)

Lemma stampedb_spec (gs : GameState.t) :
  stampedb gs = true ↔
  ∀ k, dict_get (GameState.held_keys gs) k = true →
       dict_get (GameState.last_move_time gs) k ≠ 0.
Proof.
  unfold stampedb. cbn [forallb]. rewrite !andb_true_iff. split.
  - intros (Hl & Hr & Hd & _) k Hk. destruct k.
    + rewrite Hk in Hl. by apply negb_true_iff, Z.eqb_neq in Hl.
    + rewrite Hk in Hr. by apply negb_true_iff, Z.eqb_neq in Hr.
    + rewrite Hk in Hd. by apply negb_true_iff, Z.eqb_neq in Hd.
  - intros H. repeat split;
      match goal with |- implb ?h _ = true => destruct h eqn:Hh end;
      try done; cbn [implb]; apply negb_true_iff, Z.eqb_neq, H, Hh.
Qed.

Lemma stampedb_fields (gs gs' : GameState.t) :
  GameState.held_keys gs' = GameState.held_keys gs →
  GameState.last_move_time gs' = GameState.last_move_time gs →
  stampedb gs' = stampedb gs.
Proof. unfold stampedb. by intros -> ->. Qed.

Lemma dict_get_set_eq {A} (d : KeyDict A) (k : MoveKey) (v : A) :
  dict_get (dict_set d k v) k = v.
Proof. by destruct k. Qed.

Lemma dict_get_set_ne {A} (d : KeyDict A) (k k' : MoveKey) (v : A) :
  k ≠ k' → dict_get (dict_set d k v) k' = dict_get d k'.
Proof. by destruct k, k'. Qed.

Lemma move_current_keys (gs gs' : GameState.t) (dx dy : Z) :
  GameState.move_current gs dx dy = Some gs' →
  GameState.held_keys gs' = GameState.held_keys gs ∧
  GameState.last_move_time gs' = GameState.last_move_time gs ∧
  GameState.move_delay gs' = GameState.move_delay gs ∧
  GameState.settings gs' = GameState.settings gs.
Proof.
  unfold GameState.move_current.
  destruct (Tetrimino.move _ _ dx dy) as [r|]; simpl; [|done].
  by intros [= <-].
Qed.

Lemma stamped_set_time (gs : GameState.t) (key : MoveKey) (now : Z)
    (held : KeyDict bool) :
  0 < now →
  (∀ k, k ≠ key → dict_get held k = true →
        dict_get (GameState.last_move_time gs) k ≠ 0) →
  ∀ k, dict_get held k = true →
       dict_get (dict_set (GameState.last_move_time gs) key now) k ≠ 0.
Proof.
  intros Hnow H k Hk.
  assert (k = key ∨ k ≠ key) as [->|Hne]
    by (destruct k, key; (by left) || (by right)).
  - rewrite dict_get_set_eq. lia.
  - rewrite dict_get_set_ne by done. by apply H.
Qed.

Lemma held_key_step_stamped (now : Z) (gs gs' : GameState.t) (key : MoveKey) :
  0 < now → stampedb gs = true →
  GameState.held_key_step now gs key = Some gs' →
  stampedb gs' = true.
Proof.
  intros Hnow Hst. unfold GameState.held_key_step.
  destruct (dict_get (GameState.held_keys gs) key); [|by intros [= <-]].
  match goal with |- context [if ?c then _ else Some gs] => destruct c end;
    [|by intros [= <-]].
  destruct (GameState.move_current gs _ _) as [gs1|] eqn:Hm; simpl; [|done].
  intros [= <-].
  apply move_current_keys in Hm as (Hh & Hl & _).
  apply stampedb_spec. simpl. rewrite Hh, Hl.
  apply stamped_set_time; [done|].
  intros k _. apply stampedb_spec, Hst.
Qed.

Lemma keys_phase_stamped (gs gs' : GameState.t) (env : Env) :
  0 < get_ticks env → stampedb gs = true →
  keys_phase gs env = Some gs' → stampedb gs' = true.
Proof.
  intros Hnow. unfold keys_phase.
  generalize [MK_LEFT; MK_RIGHT; MK_DOWN]. intros ks.
  revert gs. induction ks as [|k ks IH]; intros gs Hst; [by intros [= <-]|].
  simpl. destruct (GameState.held_key_step _ gs k) as [gs1|] eqn:Hs;
    simpl; [|done].
  apply IH. by apply (held_key_step_stamped (get_ticks env) gs gs1 k).
Qed.

Lemma clear_lines_frame (gs : GameState.t) (r : GameState.t * Z) :
  GameState.clear_lines gs = Some r →
  GameState.held_keys r.1 = GameState.held_keys gs ∧
  GameState.last_move_time r.1 = GameState.last_move_time gs ∧
  (GameSettings.sound_enabled (GameState.settings gs) = false →
   GameState.settings r.1 = GameState.settings gs).
Proof.
  unfold GameState.clear_lines. destruct (_ >? 0); cbn [mbind option_bind].
  - destruct (GameSettings.attr _ line_clear_sound) as [sound|];
      cbn [mbind option_bind]; [|discriminate].
    intros [= <-]. simpl. split; [done|]. split; [done|].
    intros Hoff. by apply play_sound_muted.
  - by intros [= <-].
Qed.

Lemma check_game_over_frame (gs gs' : GameState.t) :
  GameState.check_game_over gs = Some gs' →
  GameState.held_keys gs' = GameState.held_keys gs ∧
  GameState.last_move_time gs' = GameState.last_move_time gs ∧
  (GameSettings.sound_enabled (GameState.settings gs) = false →
   GameSettings.sound_enabled (GameState.settings gs') = false ∧
   sounds_played (GameState.settings gs')
   = sounds_played (GameState.settings gs)).
Proof.
  unfold GameState.check_game_over.
  destruct (Tetrimino.valid_move _ _ 0 0) as [b|];
    cbn [mbind option_bind]; [|discriminate].
  destruct b; cbn [negb]; [by intros [= <-]|].
  unfold GameSettings.music_pause.
  cbn [GameState.settings GameState.set_game_over].
  destruct (GameSettings.mixer_ready _); cbn [mbind option_bind];
    [|discriminate].
  destruct (GameSettings.attr _ game_over_sound) as [sound|];
    cbn [mbind option_bind]; [|discriminate].
  intros [= <-]. simpl. split; [done|]. split; [done|].
  intros Hoff. by rewrite play_sound_muted.
Qed.

Lemma count_lines_frame (gs : GameState.t) (n : Z) :
  GameState.held_keys (GameState.count_lines gs n) = GameState.held_keys gs ∧
  GameState.last_move_time (GameState.count_lines gs n)
  = GameState.last_move_time gs ∧
  GameState.settings (GameState.count_lines gs n) = GameState.settings gs.
Proof. unfold GameState.count_lines. simpl. by destruct (_ >=? 10). Qed.

Lemma lock_frame (gs gs' : GameState.t) (env : Env) :
  GameState.lock gs env = Some gs' →
  GameState.held_keys gs' = GameState.held_keys gs ∧
  GameState.last_move_time gs' = GameState.last_move_time gs ∧
  (GameSettings.sound_enabled (GameState.settings gs) = false →
   GameSettings.sound_enabled (GameState.settings gs') = false ∧
   sounds_played (GameState.settings gs')
   = sounds_played (GameState.settings gs)).
Proof.
  unfold GameState.lock, GameState.fix_current.
  destruct (GameState.fix_rows _ _ _ 0) as [g|];
    cbn [mbind option_bind]; [|discriminate].
  destruct (GameState.clear_lines _) as [[s3 n]|] eqn:Hcl;
    cbn [mbind option_bind]; [|discriminate].
  destruct (GameState.new_tetrimino _) as [nxt|];
    cbn [mbind option_bind]; [|discriminate].
  intros Hgo.
  apply clear_lines_frame in Hcl as (Hh3 & Hl3 & Hs3).
  apply check_game_over_frame in Hgo as (Hh & Hl & Hs).
  destruct (count_lines_frame s3 n) as (Hhc & Hlc & Hsc).
  simpl in *. rewrite Hhc in Hh. rewrite Hlc in Hl. rewrite Hsc in Hs.
  split; [congruence|]. split; [congruence|].
  intros Hoff. specialize (Hs3 Hoff). rewrite Hs3 in Hs. by apply Hs.
Qed.

Lemma lock_keys (gs gs' : GameState.t) (env : Env) :
  GameState.lock gs env = Some gs' →
  GameState.held_keys gs' = GameState.held_keys gs ∧
  GameState.last_move_time gs' = GameState.last_move_time gs.
Proof. intros (? & ? & _)%lock_frame. done. Qed.

Lemma fall_stamped (gs gs' : GameState.t) (env : Env) :
  stampedb gs = true → GameState.fall gs env = Some gs' → stampedb gs' = true.
Proof.
  intros Hst. unfold GameState.fall.
  destruct (_ >? _); [|by intros [= <-]].
  destruct (Tetrimino.move _ _ 0 1) as [r|]; simpl; [|done].
  destruct (negb r.2).
  - destruct (GameState.lock _ env) as [gs1|] eqn:Hl; simpl; [|done].
    intros [= <-]. apply lock_keys in Hl as [Hh Hlm].
    rewrite <- Hst. by apply stampedb_fields.
  - simpl. intros [= <-]. rewrite <- Hst. by apply stampedb_fields.
Qed.

Lemma update_stamped (gs gs' : GameState.t) (env : Env) :
  0 < get_ticks env → stampedb gs = true →
  GameState.update gs env = Some gs' → stampedb gs' = true.
Proof.
  intros Hnow Hst. rewrite update_eq.
  destruct (_ || _); [by intros [= <-]|].
  destruct (keys_phase gs env) as [gs1|] eqn:Hk; simpl; [|done].
  apply fall_stamped. by apply (keys_phase_stamped gs gs1 env).
Qed.

Lemma reset_stamped (gs gs' : GameState.t) (env : Env) :
  stampedb gs = true → GameState.reset gs env = Some gs' → stampedb gs' = true.
Proof.
  intros Hst. unfold GameState.reset.
  destruct (GameState.new_tetrimino (randint env 0%nat));
    cbn [mbind option_bind]; [|discriminate].
  destruct (GameState.new_tetrimino (randint env 1%nat));
    cbn [mbind option_bind]; [|discriminate].
  intros [= <-]. rewrite <- Hst. by apply stampedb_fields.
Qed.

Lemma crush_frame (gs : GameState.t) (env : Env)
    (r : GameState.t * bool) :
  GameState.clear_last_three_rows gs env = Some r →
  GameState.held_keys r.1 = GameState.held_keys gs ∧
  GameState.last_move_time r.1 = GameState.last_move_time gs ∧
  (GameSettings.sound_enabled (GameState.settings gs) = false →
   GameState.settings r.1 = GameState.settings gs).
Proof.
  unfold GameState.clear_last_three_rows.
  destruct (flt_int _ _); [by intros [= <-]|].
  change (Constants.GRID_HEIGHT <? 3) with false. cbv iota zeta.
  match goal with
  | |- context [GameState.any_block ?g ?ys ?xs] =>
      destruct (GameState.any_block g ys xs) as [b|]
  end; cbn [mbind option_bind]; [|discriminate].
  destruct b; cbn [negb]; [|by intros [= <-]].
  match goal with
  | |- context [GameState.zero_rows ?g ?ys ?xs] =>
      destruct (GameState.zero_rows g ys xs) as [g'|]
  end; cbn [mbind option_bind]; [|discriminate].
  destruct (GameSettings.attr _ special_skill_sound) as [sound|];
    cbn [mbind option_bind]; [|discriminate].
  intros [= <-]. simpl. split; [done|]. split; [done|].
  intros Hoff. by apply play_sound_muted.
Qed.

Lemma crush_keys (gs : GameState.t) (env : Env)
    (r : GameState.t * bool) :
  GameState.clear_last_three_rows gs env = Some r →
  GameState.held_keys r.1 = GameState.held_keys gs ∧
  GameState.last_move_time r.1 = GameState.last_move_time gs.
Proof. intros (? & ? & _)%crush_frame. done. Qed.

Lemma press_stamped (gs gs' : GameState.t) (now dx dy : Z) (k : MoveKey) :
  0 < now → stampedb gs = true →
  GameState.move_current
    (GameState.set_last_move_time
       (GameState.set_held_keys gs (dict_set (GameState.held_keys gs) k true))
       (dict_set (GameState.last_move_time gs) k now)) dx dy = Some gs' →
  stampedb gs' = true.
Proof.
  intros Hnow Hst Hm. apply move_current_keys in Hm as (Hh & Hl & _).
  apply stampedb_spec. rewrite Hh, Hl.
  cbn [GameState.held_keys GameState.last_move_time
       GameState.set_last_move_time GameState.set_held_keys].
  intros k' Hk'.
  assert (k' = k ∨ k ≠ k') as [->|Hne]
    by (destruct k, k'; (by left) || (by right)).
  - rewrite dict_get_set_eq. lia.
  - rewrite dict_get_set_ne by done. rewrite dict_get_set_ne in Hk' by done.
    exact (proj1 (stampedb_spec gs) Hst k' Hk').
Qed.

Lemma release_stamped (gs : GameState.t) (k : MoveKey) :
  stampedb gs = true →
  stampedb (GameState.set_held_keys gs
              (dict_set (GameState.held_keys gs) k false)) = true.
Proof.
  intros Hst. apply stampedb_spec.
  cbn [GameState.held_keys GameState.last_move_time GameState.set_held_keys].
  intros k' Hk'.
  assert (k' = k ∨ k ≠ k') as [->|Hne]
    by (destruct k, k'; (by left) || (by right)).
  - by rewrite dict_get_set_eq in Hk'.
  - rewrite dict_get_set_ne in Hk' by done.
    exact (proj1 (stampedb_spec gs) Hst k' Hk').
Qed.

Lemma step_stamped (gs gs' : GameState.t) (env : Env)
    (st : GameController.Step) :
  0 < get_ticks env → stampedb gs = true →
  GameController.step gs env st = Some gs' → stampedb gs' = true.
Proof.
  intros Hnow Hst. destruct st as [|event|]; cbn [GameController.step].
  - by apply reset_stamped.
  - destruct event as [key|key| | |delay];
      cbn [GameController._handle_event].
    + assert (∀ s, s = gs → Some s = Some gs' → stampedb gs' = true) as Hsame
        by (by intros s -> [= <-]).
      destruct key; cbn [GameController.move_key].
      * discriminate.
      * destruct (GameState.paused gs); cbn [negb]; [by apply Hsame|].
        by apply (press_stamped gs gs' (get_ticks env) _ _ MK_LEFT).
      * destruct (GameState.paused gs); cbn [negb]; [by apply Hsame|].
        by apply (press_stamped gs gs' (get_ticks env) _ _ MK_RIGHT).
      * destruct (GameState.paused gs); cbn [negb]; [by apply Hsame|].
        by apply (press_stamped gs gs' (get_ticks env) _ _ MK_DOWN).
      * destruct (GameState.paused gs); cbn [negb]; [by apply Hsame|].
        destruct (Tetrimino.rotate (GameState.current_tetrimino gs)
                    (GameState.grid gs) (GameState.settings gs)) as [r|];
          cbn [mbind option_bind]; [|discriminate].
        intros [= <-]. rewrite <- Hst. by apply stampedb_fields.
      * by apply reset_stamped.
      * intros [= <-]. rewrite <- Hst. by apply stampedb_fields.
      * destruct (settings_file_removable env); [by apply Hsame|discriminate].
      * destruct (high_score_file_writable env); [by apply Hsame|discriminate].
      * destruct (GameState.paused gs); cbn [negb]; [by apply Hsame|].
        destruct (GameState.clear_last_three_rows gs env) as [r|] eqn:Hc;
          cbn [mbind option_bind]; [|discriminate].
        intros [= <-]. apply crush_keys in Hc as [Hh Hl].
        rewrite <- Hst. by apply stampedb_fields.
      * destruct (GameState.paused gs); cbn [negb]; by apply Hsame.
    + destruct (GameController.move_key key) as [k|];
        [|by intros [= <-]].
      intros [= <-]. by apply release_stamped.
    + destruct (GameSettings.toggle_music _) as [st'|];
        cbn [mbind option_bind]; [|discriminate].
      intros [= <-]. rewrite <- Hst. by apply stampedb_fields.
    + intros [= <-]. rewrite <- Hst. by apply stampedb_fields.
    + intros [= <-]. rewrite <- Hst. by apply stampedb_fields.
  - by apply update_stamped.
Qed.

Lemma run_stamped (script : list (Env * GameController.Step))
    (gs gs' : GameState.t) :
  ticking script = true → stampedb gs = true →
  run gs script = Some gs' → stampedb gs' = true.
Proof.
  unfold run, ticking. revert gs.
  induction script as [|es script IH]; intros gs Ht Hst; [by intros [= <-]|].
  simpl in *. apply andb_true_iff in Ht as [Ht1 Ht2].
  destruct (GameController.step gs es.1 es.2) as [gs1|] eqn:Hs; simpl; [|done].
  apply IH; [done|]. apply (step_stamped gs gs1 es.1 es.2); [lia|done|done].
Qed.

Lemma init_stamped (settings : GameSettings.t) (env : Env) (gs : GameState.t) :
  GameState.init settings env = Some gs → stampedb gs = true.
Proof.
  unfold GameState.init.
  destruct (GameState.new_tetrimino (randint env 0%nat));
    cbn [mbind option_bind]; [|discriminate].
  destruct (GameState.new_tetrimino (randint env 1%nat));
    cbn [mbind option_bind]; [|discriminate].
  by intros [= <-].
Qed.

(** X15.  In a run whose tick counts are all positive, a key that is
    held has a last-move time other than 0, since the key press that
    made it held stored the tick count.  So the test of [update] for a
    held key never takes the branch of the first move: the threshold is
    the repeat delay of the settings, and [move_delay], the initial
    delay of 1000 ms, is not looked at. *)
Theorem held_keys_wait_the_repeat_delay (settings : GameSettings.t)
    (env0 : Env) (gs0 : GameState.t)
    (script : list (Env * GameController.Step))
    (gs : GameState.t) (now : Z) (key : MoveKey) :
  GameState.init settings env0 = Some gs0 →
  ticking script = true →
  run gs0 script = Some gs →
  dict_get (GameState.held_keys gs) key = true →
  dict_get (GameState.last_move_time gs) key ≠ 0 ∧
  GameState.held_key_step now gs key
  = if now - dict_get (GameState.last_move_time gs) key
       >? GameSettings.repeat_delay (GameState.settings gs)
    then
      self1 ← GameState.move_current gs (GameState.key_offset key).1
                (GameState.key_offset key).2;
      Some (GameState.set_last_move_time self1
              (dict_set (GameState.last_move_time self1) key now))
    else Some gs.
Proof.
  intros Hi Ht Hr Hheld.
  assert (dict_get (GameState.last_move_time gs) key ≠ 0) as Hne.
  { apply stampedb_spec; [|done].
    apply (run_stamped script gs0); [done| |done].
    by apply (init_stamped settings env0). }
  split; [done|]. unfold GameState.held_key_step. rewrite Hheld.
  apply Z.eqb_neq in Hne. by rewrite Hne.
Qed.

Lemma held_keys_wait_the_repeat_delay_witness :
  GameState.init sound_on start_env = Some start_state ∧
  ticking (script_of [press 10 K_LEFT]) = true ∧
  run start_state (script_of [press 10 K_LEFT]) = Some left_held_state ∧
  dict_get (GameState.held_keys left_held_state) MK_LEFT = true ∧
  dict_get (GameState.last_move_time left_held_state) MK_LEFT ≠ 0.
Proof.
  split; [reflexivity|]. split; [reflexivity|]. split; [reflexivity|].
  split; [reflexivity|].
  apply (held_keys_wait_the_repeat_delay sound_on start_env start_state
           (script_of [press 10 K_LEFT]) left_held_state 0 MK_LEFT);
    reflexivity.
Defined.

(** ** Sound *)

Lemma held_key_step_settings (now : Z) (gs gs' : GameState.t) (key : MoveKey) :
  GameState.held_key_step now gs key = Some gs' →
  GameState.settings gs' = GameState.settings gs.
Proof.
  unfold GameState.held_key_step.
  destruct (dict_get (GameState.held_keys gs) key); [|by intros [= <-]].
  match goal with |- context [if ?c then _ else Some gs] => destruct c end;
    [|by intros [= <-]].
  destruct (GameState.move_current gs _ _) as [gs1|] eqn:Hm;
    cbn [mbind option_bind]; [|discriminate].
  intros [= <-]. by apply move_current_keys in Hm as (_ & _ & _ & Hs).
Qed.

Lemma keys_phase_settings (gs gs' : GameState.t) (env : Env) :
  keys_phase gs env = Some gs' →
  GameState.settings gs' = GameState.settings gs.
Proof.
  unfold keys_phase. generalize [MK_LEFT; MK_RIGHT; MK_DOWN]. intros ks.
  revert gs. induction ks as [|k ks IH]; intros gs; [by intros [= <-]|].
  simpl. destruct (GameState.held_key_step _ gs k) as [gs1|] eqn:Hs;
    cbn [mbind option_bind]; [|discriminate].
  intros Hrest. rewrite (IH gs1 Hrest).
  by apply (held_key_step_settings (get_ticks env) gs gs1 k).
Qed.

Lemma lock_muted (gs gs' : GameState.t) (env : Env) :
  GameSettings.sound_enabled (GameState.settings gs) = false →
  GameState.lock gs env = Some gs' →
  GameSettings.sound_enabled (GameState.settings gs') = false ∧
  sounds_played (GameState.settings gs') = sounds_played (GameState.settings gs).
Proof. intros Hoff (_ & _ & H)%lock_frame. by apply H. Qed.

Lemma fall_muted (gs gs' : GameState.t) (env : Env) :
  GameSettings.sound_enabled (GameState.settings gs) = false →
  GameState.fall gs env = Some gs' →
  GameSettings.sound_enabled (GameState.settings gs') = false ∧
  sounds_played (GameState.settings gs') = sounds_played (GameState.settings gs).
Proof.
  intros Hoff. unfold GameState.fall.
  destruct (_ >? _); [|by intros [= <-]].
  destruct (Tetrimino.move _ _ 0 1) as [r|];
    cbn [mbind option_bind]; [|discriminate].
  destruct (negb r.2).
  - destruct (GameState.lock _ env) as [gs1|] eqn:Hl;
      cbn [mbind option_bind]; [|discriminate].
    intros [= <-]. by apply (lock_muted _ gs1 env) in Hl.
  - by intros [= <-].
Qed.

Lemma crush_muted (gs : GameState.t) (env : Env) (r : GameState.t * bool) :
  GameSettings.sound_enabled (GameState.settings gs) = false →
  GameState.clear_last_three_rows gs env = Some r →
  GameState.settings r.1 = GameState.settings gs.
Proof. intros Hoff (_ & _ & H)%crush_frame. by apply H. Qed.

Lemma rotate_muted (t t' : Tetrimino.t) (g : Grid) (st st' : GameSettings.t) :
  GameSettings.sound_enabled st = false →
  Tetrimino.rotate t g st = Some (t', st') → st' = st.
Proof.
  intros Hoff. unfold Tetrimino.rotate.
  destruct (Tetrimino.valid_move _ g 0 0) as [b|];
    cbn [mbind option_bind]; [|discriminate].
  destruct b; cbn [negb]; [|by intros [= _ <-]].
  destruct (GameSettings.attr st rotate_sound) as [sound|];
    cbn [mbind option_bind]; [|discriminate].
  intros [= _ <-]. by apply play_sound_muted.
Qed.

Lemma toggle_music_muted (st st' : GameSettings.t) :
  GameSettings.toggle_music st = Some st' →
  GameSettings.sound_enabled st' = GameSettings.sound_enabled st ∧
  sounds_played st' = sounds_played st.
Proof.
  unfold GameSettings.toggle_music, GameSettings.music_pause. simpl.
  destruct (GameSettings.music_enabled st); simpl.
  - destruct (GameSettings.mixer_ready st); [|discriminate].
    by intros [= <-].
  - destruct (_ && _); by intros [= <-].
Qed.

(** X16.  With sound disabled no step of the game reaches the mixer
    with a sound: the rotation, the cleared lines, the row-crush and the
    end of the game leave the list of sounds played as it was, and sound
    stays disabled, unless the step is the click on the sound button. *)
Theorem muted_game_plays_no_sound (gs gs' : GameState.t) (env : Env)
    (st : GameController.Step) :
  GameSettings.sound_enabled (GameState.settings gs) = false →
  st ≠ GameController.Handle GameController.MOUSE_sound →
  GameController.step gs env st = Some gs' →
  GameSettings.sound_enabled (GameState.settings gs') = false ∧
  sounds_played (GameState.settings gs') = sounds_played (GameState.settings gs).
Proof.
  intros Hoff Hst.
  assert (∀ s, GameState.settings s = GameState.settings gs →
            Some s = Some gs' →
            GameSettings.sound_enabled (GameState.settings gs') = false ∧
            sounds_played (GameState.settings gs')
            = sounds_played (GameState.settings gs)) as Hsame.
  { intros s Hs [= <-]. by rewrite Hs. }
  assert (∀ s, GameState.reset gs env = Some s →
               GameState.settings s = GameState.settings gs) as Hreset.
  { intros s. unfold GameState.reset.
    destruct (GameState.new_tetrimino (randint env 0%nat));
      cbn [mbind option_bind]; [|discriminate].
    destruct (GameState.new_tetrimino (randint env 1%nat));
      cbn [mbind option_bind]; [|discriminate].
    by intros [= <-]. }
  assert (∀ s dx dy, GameState.settings s = GameState.settings gs →
            GameState.move_current s dx dy = Some gs' →
            GameSettings.sound_enabled (GameState.settings gs') = false ∧
            sounds_played (GameState.settings gs')
            = sounds_played (GameState.settings gs)) as Hmove.
  { intros s dx dy Hs Hm. apply move_current_keys in Hm as (_ & _ & _ & Hm).
    by rewrite Hm, Hs. }
  destruct st as [|event|]; cbn [GameController.step].
  - intros Hr. apply Hreset in Hr. by rewrite Hr.
  - destruct event as [key|key| | |delay];
      cbn [GameController._handle_event].
    + destruct key; cbn [GameController.move_key];
        try (destruct (GameState.paused gs); cbn [negb]; [by apply Hsame|]).
      * discriminate.
      * by apply Hmove.
      * by apply Hmove.
      * by apply Hmove.
      * destruct (Tetrimino.rotate (GameState.current_tetrimino gs)
                    (GameState.grid gs) (GameState.settings gs))
          as [[t' st']|] eqn:Hr; cbn [mbind option_bind]; [|discriminate].
        apply rotate_muted in Hr; [|done]. subst st'. by apply Hsame.
      * intros Hr. apply Hreset in Hr. by rewrite Hr.
      * by apply Hsame.
      * destruct (settings_file_removable env); [by apply Hsame|discriminate].
      * destruct (high_score_file_writable env); [by apply Hsame|discriminate].
      * destruct (GameState.clear_last_three_rows gs env) as [r|] eqn:Hc;
          cbn [mbind option_bind]; [|discriminate].
        apply crush_muted in Hc; [|done]. by apply Hsame.
      * by apply Hsame.
    + destruct (GameController.move_key key); by apply Hsame.
    + destruct (GameSettings.toggle_music _) as [st'|] eqn:Ht;
        cbn [mbind option_bind]; [|discriminate].
      intros [= <-]. apply toggle_music_muted in Ht as [Hse Hsp].
      simpl. by rewrite Hse, Hsp.
    + done.
    + intros [= <-]. split; [exact Hoff|done].
  - rewrite update_eq. destruct (_ || _); [by apply Hsame|].
    destruct (keys_phase gs env) as [gs1|] eqn:Hk;
      cbn [mbind option_bind]; [|discriminate].
    apply keys_phase_settings in Hk. intros Hf.
    apply fall_muted in Hf; [|by rewrite Hk]. by rewrite <- Hk.
Qed.

Lemma muted_game_plays_no_sound_witness :
  GameSettings.sound_enabled (GameState.settings muted_state) = false ∧
  ∃ gs',
    GameController.step muted_state start_env
      (GameController.Handle (GameController.KEYDOWN K_UP)) = Some gs' ∧
    sounds_played (GameState.settings gs') = [].
Proof.
  split; [reflexivity|].
  destruct (GameController.step muted_state start_env
              (GameController.Handle (GameController.KEYDOWN K_UP)))
    as [gs'|] eqn:Hs; [|by vm_compute in Hs].
  exists gs'. split; [reflexivity|].
  apply (muted_game_plays_no_sound muted_state gs' start_env
           (GameController.Handle (GameController.KEYDOWN K_UP)));
    [reflexivity | discriminate | exact Hs].
Defined.

(** ** Events and the board *)

(** X17.  Of the events, only a press of F or of R changes the board:
    every other event leaves the grid, the score, the preview piece, the
    falling speed, the count of lines, the time of the last row-crush
    and the [game_over] flag as they are, and leaves the current piece
    its colour. *)
Theorem only_F_and_R_change_the_board (gs gs' : GameState.t) (env : Env)
    (event : GameController.Event) :
  board_key event = false →
  GameController._handle_event gs env event = Some gs' →
  GameState.grid gs' = GameState.grid gs ∧
  GameState.score gs' = GameState.score gs ∧
  GameState.next_tetrimino gs' = GameState.next_tetrimino gs ∧
  GameState.falling_speed gs' = GameState.falling_speed gs ∧
  GameState.total_lines_cleared gs' = GameState.total_lines_cleared gs ∧
  GameState.last_skill_time gs' = GameState.last_skill_time gs ∧
  GameState.game_over gs' = GameState.game_over gs ∧
  Tetrimino.color (GameState.current_tetrimino gs')
  = Tetrimino.color (GameState.current_tetrimino gs).
Proof.
  intros Hb.
  assert (∀ s dx dy, GameState.move_current s dx dy = Some gs' →
            GameState.grid gs' = GameState.grid s ∧
            GameState.score gs' = GameState.score s ∧
            GameState.next_tetrimino gs' = GameState.next_tetrimino s ∧
            GameState.falling_speed gs' = GameState.falling_speed s ∧
            GameState.total_lines_cleared gs' = GameState.total_lines_cleared s ∧
            GameState.last_skill_time gs' = GameState.last_skill_time s ∧
            GameState.game_over gs' = GameState.game_over s ∧
            Tetrimino.color (GameState.current_tetrimino gs')
            = Tetrimino.color (GameState.current_tetrimino s)) as Hmove.
  { intros s dx dy. unfold GameState.move_current, Tetrimino.move.
    destruct (Tetrimino.valid_move _ _ dx dy) as [b|];
      cbn [mbind option_bind]; [|discriminate].
    destruct b; cbn [mbind option_bind]; by intros [= <-]. }
  destruct event as [key|key| | |delay];
    cbn [GameController._handle_event].
  - destruct key; try discriminate Hb; cbn [GameController.move_key];
      try (destruct (GameState.paused gs); cbn [negb]; [by intros [= <-]|]).
    + discriminate.
    + intros Hm. by apply Hmove in Hm.
    + intros Hm. by apply Hmove in Hm.
    + intros Hm. by apply Hmove in Hm.
    + unfold Tetrimino.rotate.
      destruct (Tetrimino.valid_move _ _ 0 0) as [b|];
        cbn [mbind option_bind]; [|discriminate].
      destruct b; cbn [negb mbind option_bind]; [|by intros [= <-]].
      destruct (GameSettings.attr _ rotate_sound) as [sound|];
        cbn [mbind option_bind]; [|discriminate].
      by intros [= <-].
    + by intros [= <-].
    + destruct (settings_file_removable env); [by intros [= <-]|discriminate].
    + destruct (high_score_file_writable env); [by intros [= <-]|discriminate].
    + by intros [= <-].
  - destruct (GameController.move_key key); by intros [= <-].
  - destruct (GameSettings.toggle_music _) as [st'|];
      cbn [mbind option_bind]; [|discriminate].
    by intros [= <-].
  - by intros [= <-].
  - by intros [= <-].
Qed.

Lemma only_F_and_R_change_the_board_witness :
  board_key (GameController.KEYDOWN K_LEFT) = false ∧
  GameController._handle_event start_state (env_of 10 0 3)
    (GameController.KEYDOWN K_LEFT) = Some left_held_state ∧
  GameState.grid left_held_state = GameState.grid start_state.
Proof.
  split; [reflexivity|]. split; [reflexivity|].
  apply (only_F_and_R_change_the_board start_state left_held_state
           (env_of 10 0 3) (GameController.KEYDOWN K_LEFT));
    reflexivity.
Defined.

(** ** A failed sound load *)

(** X18.  When [_init_sounds], called on a settings object without the
    attribute [rotate_sound], fails before [rotate.wav] is loaded, it
    leaves sound and music disabled and no attribute [rotate_sound]; from
    then on the up key raises [AttributeError] as soon as the turned
    piece fits, and leaves the game state as it is when it does not
    fit. *)
Theorem failed_load_breaks_rotation (st0 : GameSettings.t) (completed : nat)
    (gs : GameState.t) (env : Env) :
  (completed < 3)%nat →
  GameSettings.has st0 rotate_sound = false →
  GameState.settings gs = GameSettings._init_sounds st0 completed →
  wf_grid (GameState.grid gs) →
  GameState.paused gs = false →
  let candidate :=
    Tetrimino.set_shape (GameState.current_tetrimino gs)
      (Tetrimino.rotated (Tetrimino.shape (GameState.current_tetrimino gs))) in
  GameSettings.sound_enabled (GameState.settings gs) = false ∧
  GameSettings.music_enabled (GameState.settings gs) = false ∧
  GameSettings.has (GameState.settings gs) rotate_sound = false ∧
  GameController._handle_event gs env (GameController.KEYDOWN K_UP)
  = if fitsb candidate (GameState.grid gs) 0 0 then None else Some gs.
Proof.
  intros Hc H0 Hst Hg Hp candidate.
  assert (GameSettings.sound_enabled (GameState.settings gs) = false ∧
          GameSettings.music_enabled (GameState.settings gs) = false ∧
          GameSettings.has (GameState.settings gs) rotate_sound = false)
    as (Hs & Hm & Hh).
  { rewrite Hst. unfold GameSettings._init_sounds.
    destruct completed as [|[|[|completed]]]; [| | |lia];
      by destruct (GameSettings.music_enabled st0). }
  split; [done|]. split; [done|]. split; [done|].
  cbn [GameController._handle_event GameController.move_key].
  rewrite Hp. cbn [negb]. rewrite rotate_eq by done. fold candidate.
  rewrite Hh. destruct (fitsb candidate _ 0 0); [done|].
  simpl. by destruct gs.
Qed.

Lemma failed_load_breaks_rotation_witness :
  GameState.settings silent_state = GameSettings._init_sounds fresh_settings 2 ∧
  wf_grid (GameState.grid silent_state) ∧
  GameController._handle_event silent_state start_env
    (GameController.KEYDOWN K_UP) = None.
Proof.
  split; [reflexivity|]. split; [reflexivity|].
  destruct (failed_load_breaks_rotation fresh_settings 2 silent_state start_env
              ltac:(lia) eq_refl eq_refl eq_refl eq_refl) as (_ & _ & _ & H).
  exact H.
Defined.
